(** * Data_analysis.py: the text-to-rows pipeline and its aggregation

    A shallow embedding of [split_app_blocks], [find_daily_section],
    [parse_daily_lines_to_rows], [_last_numeric_token], [_try_parse_date]
    and of the aggregation part of [generate_report].

    Strings are lists of characters; a character is a code point below 256
    (the Latin-1 part of Unicode), for which the classes [\s], [\d] and [\w]
    of Python's [re], [str.strip] and [str.splitlines] are written out.
    Regular expressions are terms of a small abstract syntax that are run by
    a backtracking matcher with Python's priorities (greedy and lazy
    repetition, optional groups, captures). *)

From Stdlib Require Import Ascii String ZArith NArith Bool Arith Lia List.
From Stdlib Require Import Permutation Sorted.
From Stdlib Require Import Floats.SpecFloat.
Import ListNotations.

Set Implicit Arguments.

(** ** Characters and strings *)

Definition str := list ascii.

Definition py (s : string) : str := list_ascii_of_string s.

Definition code (c : ascii) : N := N_of_ascii c.

Definition between (lo hi : N) (c : ascii) : bool :=
  (N.leb lo (code c) && N.leb (code c) hi)%bool.

(** [str.isspace] on one character; also the class [\s]. *)
Definition is_space (c : ascii) : bool :=
  between 9 13 c || between 28 32 c || N.eqb (code c) 133 || N.eqb (code c) 160.

(** The class [\d]. *)
Definition is_digit (c : ascii) : bool := between 48 57 c.

(** The class [\w]: alphanumeric characters and the underscore. *)
Definition is_word (c : ascii) : bool :=
  is_digit c || between 65 90 c || between 97 122 c || N.eqb (code c) 95
  || N.eqb (code c) 170 || between 178 179 c || N.eqb (code c) 181
  || between 185 186 c || between 188 190 c
  || between 192 214 c || between 216 246 c || between 248 255 c.

(** The line boundaries of [str.splitlines]. *)
Definition is_linebreak (c : ascii) : bool :=
  between 10 13 c || between 28 30 c || N.eqb (code c) 133.

Definition nl : ascii := "010"%char.
Definition cr : ascii := "013"%char.

Definition is_nl (c : ascii) : bool := Ascii.eqb c nl.

(** Case folding as [re.IGNORECASE] does it on these code points for the
    letters that occur in the patterns of the program (all of them ASCII).
    Beyond these code points [re.IGNORECASE] also takes U+0130 and U+0131
    for the letter [i] of "Daily Data"; texts that hold such characters are
    outside this model, whose statements are about texts of characters
    below U+0100. *)
Definition lower (c : ascii) : ascii :=
  if between 65 90 c then ascii_of_N (code c + 32) else c.

Fixpoint dropwhile (p : ascii -> bool) (s : str) : str :=
  match s with
  | [] => []
  | c :: s' => if p c then dropwhile p s' else s
  end.

(** [s.strip()] *)
Definition strip (s : str) : str :=
  rev (dropwhile is_space (rev (dropwhile is_space s))).

(** [s.splitlines()]: [cur] holds the current line, reversed. *)
Fixpoint splitlines_aux (cur : str) (s : str) : list str :=
  match s with
  | [] => match cur with [] => [] | _ => [rev cur] end
  | c :: s' =>
      if Ascii.eqb c cr then
        match s' with
        | c' :: s'' =>
            if Ascii.eqb c' nl then rev cur :: splitlines_aux [] s''
            else rev cur :: splitlines_aux [] s'
        | [] => rev cur :: splitlines_aux [] s'
        end
      else if is_linebreak c then rev cur :: splitlines_aux [] s'
      else splitlines_aux (c :: cur) s'
  end.

Definition splitlines (s : str) : list str := splitlines_aux [] s.

Fixpoint prefixb (p s : str) : bool :=
  match p, s with
  | [], _ => true
  | a :: p', b :: s' => Ascii.eqb a b && prefixb p' s'
  | _ :: _, [] => false
  end.

(** [s.replace(old, new)] for a non-empty [old]; [skip] counts the
    characters of an occurrence of [old] still to be passed over. *)
Fixpoint replace_aux (old new : str) (skip : nat) (s : str) : str :=
  match s with
  | [] => []
  | c :: s' =>
      match skip with
      | S n => replace_aux old new n s'
      | O =>
          if prefixb old s then new ++ replace_aux old new (length old - 1) s'
          else c :: replace_aux old new 0 s'
      end
  end.

Definition replace (old new s : str) : str := replace_aux old new 0 s.

(** ** Regular expressions *)

Inductive atom : Type :=
| AChr (c : ascii)      (* a literal character *)
| AAny                  (* [.] *)
| ADigit                (* [\d] *)
| ASpace                (* [\s] *)
| AWord.                (* [\w] *)

Inductive regex : Type :=
| REps
| RAtom (a : atom)
| RRep (a : atom) (lo : nat) (hi : option nat) (greedy : bool)
| RCat (r1 r2 : regex)
| ROpt (r : regex)                (* [(?:r)?], greedy *)
| RGroup (i : nat) (r : regex)    (* capturing group number [i] *)
| RBol                            (* [^] *)
| REol                            (* [$] *)
| RWordB.                         (* [\b] *)

Record flags : Type := { ignorecase : bool; dotall : bool }.

Definition no_flags : flags := {| ignorecase := false; dotall := false |}.
Definition flag_I : flags := {| ignorecase := true; dotall := false |}.
Definition flag_SI : flags := {| ignorecase := true; dotall := true |}.

Definition atom_ok (fl : flags) (a : atom) (c : ascii) : bool :=
  match a with
  | AChr x => if ignorecase fl then Ascii.eqb (lower c) (lower x) else Ascii.eqb c x
  | AAny => if dotall fl then true else negb (is_nl c)
  | ADigit => is_digit c
  | ASpace => is_space c
  | AWord => is_word c
  end.

(** A literal string. *)
Fixpoint RStr (s : str) : regex :=
  match s with
  | [] => REps
  | c :: s' => RCat (RAtom (AChr c)) (RStr s')
  end.

Fixpoint RSeq (rs : list regex) : regex :=
  match rs with
  | [] => REps
  | [r] => r
  | r :: rs' => RCat r (RSeq rs')
  end.

(** The state of a match attempt: the text before the cursor (reversed),
    the text after it, and the groups captured so far. *)
Record mstate : Type := {
  m_bef : str;
  m_aft : str;
  m_caps : nat -> option str
}.

Definition set_cap (i : nat) (v : str) (caps : nat -> option str) : nat -> option str :=
  fun j => if Nat.eqb j i then Some v else caps j.

Definition no_caps : nat -> option str := fun _ => None.

Section Matcher.
Variable fl : flags.

(** [a{lo,hi}], greedy: one more character first, then stop. *)
Fixpoint rep_greedy (R : Type) (a : atom) (lo : nat) (hi : option nat)
    (bef aft : str) (k : str -> str -> option R) : option R :=
  let stop := match lo with O => k bef aft | S _ => None end in
  match hi, aft with
  | Some O, _ => stop
  | _, [] => stop
  | _, c :: aft' =>
      if atom_ok fl a c then
        match rep_greedy a (pred lo) (option_map pred hi) (c :: bef) aft' k with
        | Some r => Some r
        | None => stop
        end
      else stop
  end.

(** [a{lo,hi}?], lazy: stop first, then one more character. *)
Fixpoint rep_lazy (R : Type) (a : atom) (lo : nat) (hi : option nat)
    (bef aft : str) (k : str -> str -> option R) : option R :=
  let more :=
    match hi, aft with
    | Some O, _ => None
    | _, [] => None
    | _, c :: aft' =>
        if atom_ok fl a c
        then rep_lazy a (pred lo) (option_map pred hi) (c :: bef) aft' k
        else None
    end in
  match lo with
  | O => match k bef aft with Some r => Some r | None => more end
  | S _ => more
  end.

Definition word_before (bef : str) : bool :=
  match bef with c :: _ => is_word c | [] => false end.

Definition word_after (aft : str) : bool :=
  match aft with c :: _ => is_word c | [] => false end.

(** [$] without [re.MULTILINE]: at the end, or before a final newline. *)
Definition at_eol (aft : str) : bool :=
  match aft with
  | [] => true
  | [c] => is_nl c
  | _ => false
  end.

(** The text consumed between two cursors of one attempt. *)
Definition consumed (bef0 bef1 : str) : str :=
  rev (firstn (length bef1 - length bef0) bef1).

Fixpoint run (r : regex) (st : mstate) (k : mstate -> option mstate)
    {struct r} : option mstate :=
  match r with
  | REps => k st
  | RAtom a =>
      match m_aft st with
      | c :: aft' =>
          if atom_ok fl a c
          then k {| m_bef := c :: m_bef st; m_aft := aft'; m_caps := m_caps st |}
          else None
      | [] => None
      end
  | RRep a lo hi greedy =>
      (if greedy then rep_greedy (R:=mstate) else rep_lazy (R:=mstate))
        a lo hi (m_bef st) (m_aft st)
        (fun b a' => k {| m_bef := b; m_aft := a'; m_caps := m_caps st |})
  | RCat r1 r2 => run r1 st (fun st1 => run r2 st1 k)
  | ROpt r1 =>
      match run r1 st k with
      | Some m => Some m
      | None => k st
      end
  | RGroup i r1 =>
      run r1 st (fun st1 =>
        k {| m_bef := m_bef st1; m_aft := m_aft st1;
             m_caps := set_cap i (consumed (m_bef st) (m_bef st1)) (m_caps st1) |})
  | RBol => match m_bef st with [] => k st | _ => None end
  | REol => if at_eol (m_aft st) then k st else None
  | RWordB =>
      if xorb (word_before (m_bef st)) (word_after (m_aft st)) then k st else None
  end.

(** One attempt at the cursor [(bef, aft)]. *)
Definition attempt (r : regex) (bef aft : str) : option mstate :=
  run r {| m_bef := bef; m_aft := aft; m_caps := no_caps |} Some.

(** [re.match(r, s)] *)
Definition re_match (r : regex) (s : str) : option mstate := attempt r [] s.

(** The leftmost match at or after the cursor, with the text skipped
    before it. *)
Fixpoint search_from (r : regex) (bef aft : str) (skipped : str)
    : option (str * mstate) :=
  match attempt r bef aft with
  | Some m => Some (rev skipped, m)
  | None =>
      match aft with
      | [] => None
      | c :: aft' => search_from r (c :: bef) aft' (c :: skipped)
      end
  end.

(** [re.search(r, s)] *)
Definition re_search (r : regex) (s : str) : option mstate :=
  option_map snd (search_from r [] s []).

(** [re.split(r, s)] for a pattern without capturing groups that never
    matches the empty string (both patterns the program splits on are of
    that kind); every round consumes at least one character, so
    [length s + 1] rounds are enough. *)
Fixpoint split_loop (fuel : nat) (r : regex) (bef aft : str) : list str :=
  match fuel with
  | O => [aft]
  | S fuel' =>
      match search_from r bef aft [] with
      | None => [aft]
      | Some (piece, m) => piece :: split_loop fuel' r (m_bef m) (m_aft m)
      end
  end.

Definition re_split (r : regex) (s : str) : list str :=
  split_loop (S (length s)) r [] s.
End Matcher.

(** [m.group(i)] of a successful match; a group that did not take part
    is [None]. *)
Definition group (m : mstate) (i : nat) : option str := m_caps m i.

(** [m.group(i)] where the group is known to take part. *)
Definition group_str (m : mstate) (i : nat) : str :=
  match m_caps m i with Some s => s | None => [] end.

(** ** Exceptions *)

Inductive exn : Type := ValueError | OtherError.

Inductive outcome (A : Type) : Type :=
| Return (a : A)
| Raise (e : exn).

Arguments Return {A} a.
Arguments Raise {A} e.

Definition bind {A B : Type} (x : outcome A) (f : A -> outcome B) : outcome B :=
  match x with
  | Return a => f a
  | Raise e => Raise e
  end.

Notation "x <- e ;; k" := (bind e (fun x => k))
  (at level 61, e at next level, right associativity).

(** ** Floats: [float(s)] *)

(** A Python float is an IEEE 754 binary64 number. *)
Definition float := spec_float.

Definition prec : Z := 53.
Definition emax : Z := 1024.

(** The binary64 number nearest to [m * 10 ^ e] (ties to even), signed. *)
Definition float_of_decimal (neg : bool) (m : N) (e : Z) : float :=
  match m with
  | N0 => S754_zero neg
  | Npos p =>
      if (0 <=? e)%Z
      then binary_normalize prec emax
             ((if neg then Zneg p else Zpos p) * 10 ^ e)%Z 0%Z neg
      else
        let '(q, e', l) :=
          SFdiv_core_binary prec emax (Zpos p) 0%Z (10 ^ (- e))%Z 0%Z in
        binary_round_aux prec emax neg q e' l
  end.

Definition digit_val (c : ascii) : N := (code c - 48)%N.

Definition number_of_digits (ds : str) : N :=
  fold_left (fun n c => (10 * n + digit_val c)%N) ds 0%N.

Definition is_chr (x : ascii) (c : ascii) : bool := Ascii.eqb c x.

Definition is_nil (s : str) : bool :=
  match s with [] => true | _ => false end.

(** digit (["_"] digit)*: the digits read (most recent first in [acc]) and
    the text left. *)
Fixpoint digitpart (acc : str) (s : str) : str * str :=
  match s with
  | [] => (rev acc, [])
  | c :: s' =>
      if is_digit c then digitpart (c :: acc) s'
      else if is_chr "_" c && negb (is_nil acc) && is_digit (hd c s')
      then digitpart acc s'
      else (rev acc, s)
  end.

Definition take_sign (s : str) : bool * str :=
  match s with
  | c :: s' =>
      if is_chr "-" c then (true, s')
      else if is_chr "+" c then (false, s') else (false, s)
  | [] => (false, s)
  end.

(** [exponent ::= ("e" | "E") [sign] digitpart], when present. *)
Definition take_exponent (s : str) : option (Z * str) :=
  match s with
  | c :: s' =>
      if is_chr "e" (lower c) then
        let '(neg, s1) := take_sign s' in
        let '(ds, s2) := digitpart [] s1 in
        match ds with
        | [] => None
        | _ => let n := Z.of_N (number_of_digits ds) in
               Some (if neg then (- n)%Z else n, s2)
        end
      else Some (0%Z, s)
  | [] => Some (0%Z, s)
  end.

(** [floatnumber ::= ([digitpart] "." digitpart | digitpart ["."]) [exponent]]
    with nothing after it. *)
Definition parse_floatnumber (neg : bool) (s : str) : option float :=
  let '(ip, s1) := digitpart [] s in
  let '(fp, s2) :=
    match s1 with
    | c :: s1' => if is_chr "." c then digitpart [] s1' else ([], s1)
    | [] => ([], s1)
    end in
  match ip ++ fp with
  | [] => None
  | ds =>
      match take_exponent s2 with
      | Some (e, []) =>
          Some (float_of_decimal neg (number_of_digits ds)
                  (e - Z.of_nat (length fp)))
      | _ => None
      end
  end.

Definition eqb_str (a b : str) : bool :=
  Nat.eqb (length a) (length b) && prefixb a b.

Definition parse_inf_or_nan (neg : bool) (s : str) : option float :=
  let l := map lower s in
  if eqb_str l (py "inf") || eqb_str l (py "infinity") then Some (S754_infinity neg)
  else if eqb_str l (py "nan") then Some S754_nan
  else None.

(** [float(s)] for a string [s]: surrounding whitespace is ignored, then
    [[sign] (floatnumber | infinity | nan)]; anything else is a
    [ValueError]. *)
Definition py_float (s : str) : outcome float :=
  let '(neg, body) := take_sign (strip s) in
  match parse_floatnumber neg body with
  | Some v => Return v
  | None =>
      match parse_inf_or_nan neg body with
      | Some v => Return v
      | None => Raise ValueError
      end
  end.


(** ** The patterns of the program *)

Definition chr (c : ascii) : regex := RAtom (AChr c).
Definition star (a : atom) : regex := RRep a 0 None true.       (* [a*] *)
Definition plus (a : atom) : regex := RRep a 1 None true.       (* [a+] *)
Definition star_lazy (a : atom) : regex := RRep a 0 None false. (* [a*?] *)
Definition times (a : atom) (lo hi : nat) : regex := RRep a lo (Some hi) true.

(** [\n\s*Total Data\s*\n] *)
Definition delim_re : regex :=
  RSeq [chr nl; star ASpace; RStr (py "Total Data"); star ASpace; chr nl].

(** [Daily Data\s*\n(.*?)\n\s*Hourly Data] *)
Definition daily_hourly_re : regex :=
  RSeq [RStr (py "Daily Data"); star ASpace; chr nl;
        RGroup 1 (star_lazy AAny);
        chr nl; star ASpace; RStr (py "Hourly Data")].

(** [Daily Data\s*\n( .* )] *)
Definition daily_re : regex :=
  RSeq [RStr (py "Daily Data"); star ASpace; chr nl; RGroup 1 (star AAny)].

(** [20\d{2}-\d{2}-\d{2}] *)
Definition iso_date_re : regex :=
  RSeq [RStr (py "20"); times ADigit 2 2; chr "-"; times ADigit 2 2;
        chr "-"; times ADigit 2 2].

(** [\s+\d{1,2}:\d{2}:\d{2}] *)
Definition clock_re : regex :=
  RSeq [plus ASpace; times ADigit 1 2; chr ":"; times ADigit 2 2;
        chr ":"; times ADigit 2 2].

(** [^(20\d{2}-\d{2}-\d{2})(?:\s+\d{1,2}:\d{2}:\d{2})?\b( .* )$] *)
Definition iso_line_re : regex :=
  RSeq [RBol; RGroup 1 iso_date_re; ROpt clock_re; RWordB;
        RGroup 2 (star AAny); REol].

(** [\s+to\s+\d{1,2}\s+\w+] *)
Definition to_phrase_re : regex :=
  RSeq [plus ASpace; RStr (py "to"); plus ASpace; times ADigit 1 2;
        plus ASpace; plus AWord].

(** [\d{1,2}\s+\w+(?:\s+to\s+\d{1,2}\s+\w+)?] *)
Definition date_phrase_re : regex :=
  RSeq [times ADigit 1 2; plus ASpace; plus AWord; ROpt to_phrase_re].

(** [^(\d{1,2}\s+\w+(?:\s+to\s+\d{1,2}\s+\w+)?)\s+( .* )$] *)
Definition phrase_line_re : regex :=
  RSeq [RBol; RGroup 1 date_phrase_re; plus ASpace; RGroup 2 (star AAny); REol].

(** [(20\d{2}-\d{2}-\d{2})] *)
Definition embedded_iso_re : regex := RGroup 1 iso_date_re.

(** [\s+] *)
Definition ws_re : regex := plus ASpace.

(** [^-?\d+(\.\d+)?$] *)
Definition numeric_re : regex :=
  RSeq [RBol; RRep (AChr "-") 0 (Some 1) true; plus ADigit;
        ROpt (RGroup 1 (RSeq [chr "."; plus ADigit])); REol].

(** ** The functions of the program *)

(** [split_app_blocks(text)] *)
Definition split_app_blocks (text : str) : list str :=
  let parts := re_split flag_I delim_re text in
  if length parts <=? 1 then [text]
  else tl parts.

(** [find_daily_section(block)] *)
Definition find_daily_section (block : str) : str :=
  match re_search flag_SI daily_hourly_re block with
  | Some m => group_str m 1
  | None =>
      match re_search flag_SI daily_re block with
      | Some m2 => group_str m2 1
      | None => []
      end
  end.

(** The loop of [_last_numeric_token] over [reversed(tokens)]; the
    [try ... except: continue] around [float(t)] is the inner match. *)
Fixpoint last_numeric_loop (ts : list str) : outcome (option float) :=
  match ts with
  | [] => Return None
  | t :: ts' =>
      match re_match no_flags numeric_re t with
      | Some _ =>
          match py_float t with
          | Return v => Return (Some v)
          | Raise _ => last_numeric_loop ts'
          end
      | None => last_numeric_loop ts'
      end
  end.

(** [_last_numeric_token(tokens)] *)
Definition _last_numeric_token (tokens : list str) : outcome (option float) :=
  last_numeric_loop (rev tokens).

(** A parsed date: [None], [pd.NaT] or a [pd.Timestamp] (nanoseconds
    since the epoch). *)
Inductive pdate : Type :=
| NoDate
| NaT
| Timestamp (ns : Z).

(** One element of [rows]: [(date_raw, date_parsed, rest, IVT)]. *)
Record row : Type := {
  date_raw : str;
  date_parsed : pdate;
  rest : str;
  IVT : option float
}.

Section Rows.
(** [pd.to_datetime(s, dayfirst=False, errors='coerce')], which is not
    part of the program: a timestamp, [NaT], or an exception. *)
Variable to_datetime : str -> outcome pdate.

(** [_try_parse_date(s)] *)
Definition _try_parse_date (s : str) : pdate :=
  match to_datetime s with
  | Return d => d
  | Raise _ => NaT
  end.

(** [ln[:40] + ("..." if len(ln)>40 else "")] *)
Definition date_label (ln : str) : str :=
  firstn 40 ln ++ (if 40 <? length ln then py "..." else []).

(** The body of the loop of [parse_daily_lines_to_rows] for one stripped,
    non-empty line: the record appended to [rows], if any. *)
Definition parse_line (ln : str) : outcome (option row) :=
  match re_match no_flags iso_line_re ln with
  | Some iso =>
      let date_str := group_str iso 1 in
      let rest := strip (group_str iso 2) in
      let tokens := match rest with [] => [] | _ => re_split no_flags ws_re rest end in
      ivt <- _last_numeric_token tokens ;;
      Return (Some {| date_raw := date_str; date_parsed := _try_parse_date date_str;
                      rest := rest; IVT := ivt |})
  | None =>
  match re_match flag_I phrase_line_re ln with
  | Some m2 =>
      let date_like := group_str m2 1 in
      let rest := group_str m2 2 in
      let tokens := re_split no_flags ws_re rest in
      ivt <- _last_numeric_token tokens ;;
      Return (Some {| date_raw := date_like; date_parsed := NoDate;
                      rest := rest; IVT := ivt |})
  | None =>
  match re_search no_flags embedded_iso_re ln with
  | Some mm =>
      let date_str := group_str mm 1 in
      let rest := strip (replace date_str [] ln) in
      let tokens := re_split no_flags ws_re rest in
      ivt <- _last_numeric_token tokens ;;
      Return (Some {| date_raw := date_str; date_parsed := _try_parse_date date_str;
                      rest := rest; IVT := ivt |})
  | None =>
      let tokens := re_split no_flags ws_re ln in
      ivt <- _last_numeric_token tokens ;;
      match ivt with
      | Some v =>
          Return (Some {| date_raw := date_label ln; date_parsed := NoDate;
                          rest := ln; IVT := Some v |})
      | None => Return None
      end
  end end end.

(** The loop over [daily_text.splitlines()], [rows] being the list built
    so far. *)
Fixpoint parse_lines (lns : list str) (rows : list row) : outcome (list row) :=
  match lns with
  | [] => Return rows
  | ln :: lns' =>
      match strip ln with
      | [] => parse_lines lns' rows
      | ln' =>
          r <- parse_line ln' ;;
          parse_lines lns' (match r with Some x => rows ++ [x] | None => rows end)
      end
  end.

(** [parse_daily_lines_to_rows(daily_text)] *)
Definition parse_daily_lines_to_rows (daily_text : str) : outcome (list row) :=
  parse_lines (splitlines daily_text) [].
End Rows.

(** ** The aggregation of [generate_report] *)

(** One element of [app_data]; the data frame [df] of an element is its
    [rows] (the column [IVT] after [pd.to_numeric] holds the same floats,
    and NaN where the row has [None]). *)
Record app : Type := {
  index : nat;
  block : str;
  rows : list row
}.

(** [pd.isna] on a cell of the column [IVT]. *)
Definition isna_float (v : option float) : bool :=
  match v with
  | None => true
  | Some S754_nan => true
  | Some _ => false
  end.

(** [pd.notna] on a cell of the column [date_parsed]. *)
Definition notna_date (d : pdate) : bool :=
  match d with
  | Timestamp _ => true
  | _ => false
  end.

(** [df.dropna(subset=['IVT'])] *)
Definition dropna_IVT (df : list row) : list row :=
  filter (fun r => negb (isna_float (IVT r))) df.

(** The order of [sort_values('date_parsed')]: ascending, missing dates
    last. *)
Definition date_leb (d1 d2 : pdate) : bool :=
  match d1, d2 with
  | Timestamp a, Timestamp b => (a <=? b)%Z
  | Timestamp _, _ => true
  | _, Timestamp _ => false
  | _, _ => true
  end.

Fixpoint insert_row (r : row) (l : list row) : list row :=
  match l with
  | [] => [r]
  | x :: l' =>
      if date_leb (date_parsed x) (date_parsed r) then x :: insert_row r l'
      else r :: l
  end.

(** [df.sort_values('date_parsed')], as a sort that keeps rows of equal
    date in their order. *)
Definition sort_values (df : list row) : list row :=
  fold_left (fun acc r => insert_row r acc) df [].

(** [df[['date_parsed','IVT']].dropna()] as (date, value) pairs. *)
Fixpoint dated_values (df : list row) : list (Z * float) :=
  match df with
  | [] => []
  | r :: df' =>
      match date_parsed r, IVT r with
      | Timestamp t, Some v =>
          if isna_float (Some v) then dated_values df'
          else (t, v) :: dated_values df'
      | _, _ => dated_values df'
      end
  end.

Fixpoint insert_uniq (t : Z) (l : list Z) : list Z :=
  match l with
  | [] => [t]
  | x :: l' =>
      if (t <? x)%Z then t :: l
      else if (t =? x)%Z then l
      else x :: insert_uniq t l'
  end.

(** The distinct keys of a list of dates, ascending. *)
Definition sorted_keys (ts : list Z) : list Z :=
  fold_right insert_uniq [] ts.

(** The values recorded for the date [t], in row order. *)
Definition values_at (t : Z) (tmp : list (Z * float)) : list float :=
  map snd (filter (fun p => (fst p =? t)%Z) tmp).

(** A data frame with one value column, indexed by date. *)
Definition frame : Type := list (Z * float).

(** The merged table: its date index and, for each application, the
    column of cells along that index. *)
Record table : Type := {
  t_index : list Z;
  t_columns : list (nat * list (option float))
}.

Fixpoint lookup (t : Z) (f : frame) : option float :=
  match f with
  | [] => None
  | (t', v) :: f' => if (t' =? t)%Z then Some v else lookup t f'
  end.

Section Aggregation.
(** The mean of a non-empty list of floats as pandas computes it, which
    is not part of the program. *)
Variable mean : list float -> float.

(** [tmp.groupby('date_parsed', as_index=False)['IVT'].mean()] followed
    by [set_index('date_parsed')]: one row per date, ascending. *)
Definition groupby_mean (tmp : list (Z * float)) : frame :=
  map (fun t => (t, mean (values_at t tmp))) (sorted_keys (map fst tmp)).

(** The first loop over [app_data], as far as [combined_date_frames] is
    concerned; [frames] is the list built so far. *)
Fixpoint collect_frames (app_data : list app) (frames : list (nat * frame))
    : list (nat * frame) :=
  match app_data with
  | [] => frames
  | ad :: rest_data =>
      let df := dropna_IVT (rows ad) in
      match df with
      | [] => collect_frames rest_data frames
      | _ =>
          let has_dates := existsb (fun r => notna_date (date_parsed r)) df in
          let df_sorted := if has_dates then sort_values df else df in
          if existsb (fun r => notna_date (date_parsed r)) df_sorted then
            let tmp := groupby_mean (dated_values df_sorted) in
            collect_frames rest_data (frames ++ [(index ad, tmp)])
          else collect_frames rest_data frames
      end
  end.

Definition combined_date_frames (app_data : list app) : list (nat * frame) :=
  collect_frames app_data [].

(** [pd.concat(frames, axis=1).sort_index()]: the union of the indexes,
    ascending, every frame re-indexed along it. *)
Definition concat_sort_index (frames : list (nat * frame)) : table :=
  let idx := sorted_keys (concat (map (fun f => map fst (snd f)) frames)) in
  {| t_index := idx;
     t_columns := map (fun f => (fst f, map (fun t => lookup t (snd f)) idx)) frames |}.

(** [merged], which exists only when some frame was collected. *)
Definition merged (app_data : list app) : option table :=
  match combined_date_frames app_data with
  | [] => None
  | frames => Some (concat_sort_index frames)
  end.
End Aggregation.

(** The constants [0.5] and [0] of the two notes. *)
Definition half : float := S754_finite false 4503599627370496 (-53).
Definition zero : float := S754_zero false.

(** [(ivt > 0.5).any()] *)
Definition any_above_half (ivt : list float) : bool :=
  existsb (fun v => SFltb half v) ivt.

(** [(ivt == 0).all()] *)
Definition all_zero (ivt : list float) : bool :=
  forallb (fun v => SFeqb v zero) ivt.

(** What the observations page says about one application: the number of
    parsed rows and whether each of the two notes is written.  (The mean,
    median, minimum and maximum that are printed with them are not
    modelled.) *)
Record summary : Type := {
  s_index : nat;
  s_rows : nat;
  s_note_high : bool;
  s_note_zero : bool
}.

(** [df['IVT'].astype(float)] of a frame without missing values. *)
Fixpoint ivt_values (df : list row) : list float :=
  match df with
  | [] => []
  | r :: df' =>
      match IVT r with
      | Some v => v :: ivt_values df'
      | None => ivt_values df'
      end
  end.

(** The loop of the observations page. *)
Fixpoint summaries (app_data : list app) : list summary :=
  match app_data with
  | [] => []
  | ad :: rest_data =>
      let df := dropna_IVT (rows ad) in
      match df with
      | [] => summaries rest_data
      | _ =>
          let ivt := ivt_values df in
          {| s_index := index ad; s_rows := length df;
             s_note_high := any_above_half ivt;
             s_note_zero := all_zero ivt |} :: summaries rest_data
      end
  end.

(** ** The other steps of [generate_report] *)

(** [p.extract_text() or ""] inside [try ... except Exception], where the
    call on a page (which is not part of the program) returns a text or
    [None], or raises: a page without text counts as the empty string. *)
Definition page_text (p : outcome (option str)) : str :=
  match p with
  | Return (Some t) => t
  | Return None => []
  | Raise _ => []
  end.

(** ["\n".join(l)] *)
Fixpoint join_nl (l : list str) : str :=
  match l with
  | [] => []
  | [t] => t
  | t :: l' => t ++ nl :: join_nl l'
  end.

(** [extract_pdf_text], from the pages of the reader. *)
Definition extract_pdf_text (pages : list (outcome (option str))) : str :=
  join_nl (map page_text pages).

Section Report.
Variable to_datetime : str -> outcome pdate.

(** [find_daily_section(block)], or [block[:5000]] when that is empty. *)
Definition daily_text_of (block : str) : str :=
  match find_daily_section block with
  | [] => firstn 5000 block
  | daily_text => daily_text
  end.

(** The loop over [enumerate(blocks, start=1)] that fills [app_data]; [i]
    is the number of the next block. *)
Fixpoint app_data_loop (i : nat) (blocks : list str) (app_data : list app)
    : outcome (list app) :=
  match blocks with
  | [] => Return app_data
  | b :: blocks' =>
      rows <- parse_daily_lines_to_rows to_datetime (daily_text_of b) ;;
      app_data_loop (S i) blocks'
        (app_data ++ [{| index := i; block := b; rows := rows |}])
  end.

(** [app_data] as [generate_report] builds it from the text of the
    document. *)
Definition app_data_of (text : str) : outcome (list app) :=
  app_data_loop 1 (split_app_blocks text) [].
End Report.

(** [plotted_any] after the first loop over [app_data]: some application
    has a row with a metric. *)
Definition plotted_any (app_data : list app) : bool :=
  existsb (fun ad => match dropna_IVT (rows ad) with [] => false | _ => true end)
    app_data.

(** [range(start, stop, step)] for a positive [step], with at most [fuel]
    elements. *)
Fixpoint range_from (fuel start stop step : nat) : list nat :=
  match fuel with
  | O => []
  | S fuel' =>
      if start <? stop then start :: range_from fuel' (start + step) stop step
      else []
  end.

Definition chunk_size : nat := 45.

(** The slices [lines[i:i+chunk_size]] for [i] in
    [range(0, len(lines), chunk_size)], one for each text page. *)
Definition text_pages (A : Type) (lines : list A) : list (list A) :=
  map (fun i => firstn chunk_size (skipn i lines))
      (range_from (length lines) 0 (length lines) chunk_size).

(** ** What a pattern can match: a relation between cursors *)

Definition hi_ok (hi : option nat) (n : nat) : Prop :=
  match hi with Some h => n <= h | None => True end.

Definition rep_ok (fl : flags) (a : atom) (lo : nat) (hi : option nat) (x : str) : Prop :=
  forallb (atom_ok fl a) x = true /\ lo <= length x /\ hi_ok hi (length x).

Abbreviation mk := Build_mstate.

(** [M fl r st x st']: from the cursor [st] the pattern [r] can match the
    text [x] and arrive at the cursor [st']. *)
Inductive M (fl : flags) : regex -> mstate -> str -> mstate -> Prop :=
| M_eps : forall st, M fl REps st [] st
| M_atom : forall a c bef aft caps,
    atom_ok fl a c = true ->
    M fl (RAtom a) (mk bef (c :: aft) caps) [c] (mk (c :: bef) aft caps)
| M_rep : forall a lo hi g x bef aft caps,
    rep_ok fl a lo hi x ->
    M fl (RRep a lo hi g) (mk bef (x ++ aft) caps) x (mk (rev x ++ bef) aft caps)
| M_cat : forall r1 r2 st x1 st1 x2 st2,
    M fl r1 st x1 st1 -> M fl r2 st1 x2 st2 -> M fl (RCat r1 r2) st (x1 ++ x2) st2
| M_opt_some : forall r st x st', M fl r st x st' -> M fl (ROpt r) st x st'
| M_opt_none : forall r st, M fl (ROpt r) st [] st
| M_group : forall i r st x st1,
    M fl r st x st1 ->
    M fl (RGroup i r) st x
      (mk (m_bef st1) (m_aft st1) (set_cap i x (m_caps st1)))
| M_bol : forall st, m_bef st = [] -> M fl RBol st [] st
| M_eol : forall st, at_eol (m_aft st) = true -> M fl REol st [] st
| M_wordb : forall st,
    xorb (word_before (m_bef st)) (word_after (m_aft st)) = true ->
    M fl RWordB st [] st.

(** ** Sample data *)

Definition metric_row (v : float) : row :=
  {| date_raw := []; date_parsed := NoDate; rest := []; IVT := Some v |}.

Definition app_of_metrics (i : nat) (vs : list float) : app :=
  {| index := i; block := []; rows := map metric_row vs |}.

(** [float("0.1")], [float("0.6")], [float("0.2")], [float("0.0")] *)
Definition f_0_1 : float := float_of_decimal false 1 (-1).
Definition f_0_6 : float := float_of_decimal false 6 (-1).
Definition f_0_2 : float := float_of_decimal false 2 (-1).
Definition f_0_0 : float := float_of_decimal false 0 (-1).

Definition dated_row (t : Z) (v : float) : row :=
  {| date_raw := []; date_parsed := Timestamp t; rest := []; IVT := Some v |}.

Definition app_of_rows (i : nat) (rs : list row) : app :=
  {| index := i; block := []; rows := rs |}.

(** Two applications with records on overlapping and disjoint dates (the
    second with two records on one date), and a third whose only record
    has no date. *)
Definition sample_apps : list app :=
  [app_of_rows 1 [dated_row 2 f_0_6; dated_row 1 f_0_1];
   app_of_rows 2 [dated_row 3 f_0_0; dated_row 2 f_0_2; dated_row 3 f_0_6];
   app_of_metrics 3 [f_0_1]].


(** ** Shapes of text, in the words of the specification *)

Fixpoint takewhile (p : ascii -> bool) (s : str) : str :=
  match s with
  | [] => []
  | c :: s' => if p c then c :: takewhile p s' else []
  end.

(** One or more digits. *)
Definition digits1 (x : str) : Prop := x <> [] /\ forallb is_digit x = true.

(** One or more whitespace characters. *)
Definition spaces1 (x : str) : Prop := x <> [] /\ forallb is_space x = true.

(** One or more word characters. *)
Definition word1 (x : str) : Prop := x <> [] /\ forallb is_word x = true.

(** The numeric-literal grammar: an optional leading minus, digits, and
    optionally a decimal point with fractional digits. *)
Definition numeric_literal (t : str) : Prop :=
  exists sign ip fp,
    t = sign ++ ip ++ fp /\
    (sign = [] \/ sign = ["-"%char]) /\
    digits1 ip /\
    (fp = [] \/ exists fd, fp = "."%char :: fd /\ digits1 fd).

(** The same grammar as a test. *)
Definition unsigned_part (t : str) : str :=
  match t with
  | c :: t' => if is_chr "-" c then t' else t
  | [] => t
  end.

Definition numeric_literalb (t : str) : bool :=
  let body := unsigned_part t in
  negb (is_nil (takewhile is_digit body)) &&
  match dropwhile is_digit body with
  | [] => true
  | c :: fd => is_chr "." c && negb (is_nil fd) && forallb is_digit fd
  end.

(** The text without one final line feed, if it has one. *)
Definition chomp (t : str) : str :=
  match rev t with
  | c :: r => if is_nl c then rev r else t
  | [] => t
  end.

(** The tokens [_last_numeric_token] accepts: the numeric-literal grammar,
    where one line feed after the literal is let through. *)
Definition accepted_token (t : str) : bool := numeric_literalb (chomp t).

(** The result of [_last_numeric_token] described from the rightmost token
    that the test [accept] lets through. *)
Definition rightmost_token_result (accept : str -> bool) (tokens : list str) : Prop :=
  match find accept (rev tokens) with
  | Some t => exists v, py_float t = Return v /\
                        _last_numeric_token tokens = Return (Some v)
  | None => _last_numeric_token tokens = Return None
  end.

(** The relation [M] read off the pattern: [D fl r bef x aft caps caps']
    holds when [r] can match the text [x] that stands between [bef]
    (reversed) and [aft], turning the captured groups [caps] into
    [caps']. *)
Fixpoint D (fl : flags) (r : regex) (bef x aft : str)
    (caps caps' : nat -> option str) {struct r} : Prop :=
  match r with
  | REps => x = [] /\ caps' = caps
  | RAtom a => (exists c, x = [c] /\ atom_ok fl a c = true) /\ caps' = caps
  | RRep a lo hi _ => rep_ok fl a lo hi x /\ caps' = caps
  | RCat r1 r2 =>
      exists x1 x2 caps1,
        x = x1 ++ x2 /\
        D fl r1 bef x1 (x2 ++ aft) caps caps1 /\
        D fl r2 (rev x1 ++ bef) x2 aft caps1 caps'
  | ROpt r1 => D fl r1 bef x aft caps caps' \/ (x = [] /\ caps' = caps)
  | RGroup i r1 => exists caps1, D fl r1 bef x aft caps caps1 /\ caps' = set_cap i x caps1
  | RBol => x = [] /\ bef = [] /\ caps' = caps
  | REol => x = [] /\ at_eol aft = true /\ caps' = caps
  | RWordB =>
      x = [] /\ xorb (word_before bef) (word_after aft) = true /\ caps' = caps
  end.

(** Equality of texts up to the case of ASCII letters. *)
Definition ci_eq (x s : str) : Prop := map lower x = map lower s.

(** A day number: one or two digits. *)
Definition day_number (x : str) : Prop :=
  forallb is_digit x = true /\ 1 <= length x /\ length x <= 2.

(** [to <day> <word>], with the whitespace before it. *)
Definition to_extension (ext : str) : Prop :=
  exists s1 t s2 n2 s3 w2,
    ext = s1 ++ t ++ s2 ++ n2 ++ s3 ++ w2 /\
    spaces1 s1 /\ ci_eq t (py "to") /\ spaces1 s2 /\
    day_number n2 /\ spaces1 s3 /\ word1 w2.

(** [<day> <word>], optionally followed by [to <day> <word>]. *)
Definition date_phrase (n s w ext : str) : Prop :=
  day_number n /\ spaces1 s /\ word1 w /\ (ext = [] \/ to_extension ext).

(** Exactly [k] digits. *)
Definition digits_n (k : nat) (x : str) : Prop :=
  forallb is_digit x = true /\ k <= length x /\ length x <= k.

(** A date token [YYYY-MM-DD]. *)
Definition ymd_token (d : str) : Prop :=
  exists y m dd,
    d = y ++ "-"%char :: m ++ "-"%char :: dd /\
    digits_n 4 y /\ digits_n 2 m /\ digits_n 2 dd.

(** A date token [20YY-MM-DD], the only kind the program's patterns take. *)
Definition iso20_token (d : str) : Prop :=
  exists y m dd,
    d = py "20" ++ y ++ "-"%char :: m ++ "-"%char :: dd /\
    digits_n 2 y /\ digits_n 2 m /\ digits_n 2 dd.

Definition no_nl (x : str) : Prop := forallb (fun c => negb (is_nl c)) x = true.

(** [float("0.00427")] *)
Definition f_0_00427 : float := S754_finite false 4922974824671237 (-60).

(** An hour number: one or two digits. *)
Definition hour_number (x : str) : Prop :=
  forallb is_digit x = true /\ 1 <= length x /\ length x <= 2.

(** A clock time [H:MM:SS] or [HH:MM:SS], with the whitespace before it. *)
Definition clock_part (clk : str) : Prop :=
  exists s h mi se,
    clk = s ++ h ++ ":"%char :: mi ++ ":"%char :: se /\
    spaces1 s /\ hour_number h /\ digits_n 2 mi /\ digits_n 2 se.

(** The text ends with a word character. *)
Definition ends_word (a : str) : Prop :=
  exists a0 l, a = a0 ++ [l] /\ is_word l = true.

(** The whitespace-delimited tokens of a text, as the program cuts them:
    [re.split(r'\s+', s)]. *)
Definition tokens (s : str) : list str := re_split no_flags ws_re s.

(** The line begins with [<day> <word>] followed by whitespace. *)
Definition begins_with_day_word (ln : str) : Prop :=
  exists n s w sp more,
    ln = n ++ s ++ w ++ sp ++ more /\
    day_number n /\ spaces1 s /\ word1 w /\ spaces1 sp.

(** A date [20YY-MM-DD] occurs somewhere in the line. *)
Definition contains_iso20 (ln : str) : Prop :=
  exists pre d post, ln = pre ++ d ++ post /\ iso20_token d.

(** A date-like pattern, as the rules before the generic fallback look
    for it. *)
Definition date_like (ln : str) : Prop :=
  begins_with_day_word ln \/ contains_iso20 ln.

(** [first_path fl r st st']: the way of matching [r] from [st] to [st']
    is the one the matcher tries first, so that it is the one taken
    whenever the rest of the pattern succeeds after it. *)
Definition first_path (fl : flags) (r : regex) (st st' : mstate) : Prop :=
  forall k res, k st' = Some res -> run fl r st k = Some res.

(** The same for the text [x] that stands between [bef] and [aft]. *)
Definition FP (fl : flags) (r : regex) (bef x aft : str)
    (caps caps' : nat -> option str) : Prop :=
  first_path fl r (mk bef (x ++ aft) caps) (mk (rev x ++ bef) aft caps').

(** A clock time followed by a word boundary. *)
Definition clock_followed (rest0 : str) : Prop :=
  exists clk tail, rest0 = clk ++ tail /\ clock_part clk /\ word_after tail = false.

Definition nonemptyb (s : str) : bool := negb (is_nil s).

(** The lines the loop of [parse_daily_lines_to_rows] works on: the lines
    of the section, stripped, the empty ones left out. *)
Definition section_lines (text : str) : list str :=
  filter nonemptyb (map strip (splitlines text)).

(** The records among the results of the lines, in their order. *)
Definition records (os : list (option row)) : list row :=
  flat_map (fun o => match o with Some r => [r] | None => [] end) os.

(** The application has a row with both a parsed date and a metric. *)
Definition has_dated_metric (ad : app) : bool :=
  existsb (fun r => notna_date (date_parsed r) && negb (isna_float (IVT r)))
    (rows ad).

(** The metrics of the rows of the application that carry the date [t],
    in the order of the rows. *)
Definition metrics_on (t : Z) (ad : app) : list float :=
  values_at t (dated_values (dropna_IVT (rows ad))).

(** The frame [f] holds the daily means of the application: one row for
    every date that a row with a metric carries, in ascending order, with
    the mean of the metrics of that date (taken in some order). *)
Definition daily_means (mean : list float -> float) (ad : app) (f : frame) : Prop :=
  f <> [] /\
  StronglySorted Z.lt (map fst f) /\
  (forall t, In t (map fst f) <->
     exists r, In r (rows ad) /\ date_parsed r = Timestamp t /\
               isna_float (IVT r) = false) /\
  (forall t v, In (t, v) f ->
     exists l, v = mean l /\ Permutation l (metrics_on t ad)).

(** The tokens of a remainder: [re.split(r'\s+', rest) if rest else []]. *)
Definition rest_tokens (rem : str) : list str :=
  match rem with [] => [] | _ => tokens rem end.

(** The float of the last token that matches the numeric-literal grammar,
    [None] when no token matches. *)
Definition last_numeric_value (toks : list str) : option float :=
  match find numeric_literalb (rev toks) with
  | Some t => match py_float t with Return v => Some v | Raise _ => None end
  | None => None
  end.

(** The record of the ISO-date-anchored rule for the date text [d] and the
    remainder [rem]. *)
Definition iso_record (to_datetime : str -> outcome pdate) (d rem : str) : row :=
  {| date_raw := d; date_parsed := _try_parse_date to_datetime d;
     rest := rem; IVT := last_numeric_value (rest_tokens rem) |}.

(** The first rule as a statement about one line: whenever the line begins
    with a date token of the kind [tok], followed by a word boundary, one
    record is produced and its date text is that token. *)
Definition first_rule_claim (tok : str -> Prop)
    (to_datetime : str -> outcome pdate) (ln : str) : Prop :=
  forall d rest0,
    ln = d ++ rest0 -> tok d -> word_after rest0 = false ->
    exists r, parse_line to_datetime ln = Return (Some r) /\ date_raw r = d.

(** ** The delimiter phrase on a line of its own *)

(** The lines of a text, cut at line feeds. *)
Fixpoint split_nl_aux (cur : str) (s : str) : list str :=
  match s with
  | [] => [rev cur]
  | c :: s' =>
      if is_nl c then rev cur :: split_nl_aux [] s'
      else split_nl_aux (c :: cur) s'
  end.

Definition split_nl (s : str) : list str := split_nl_aux [] s.

(** The line consists of the phrase, whatever its case, with nothing but
    whitespace around it. *)
Definition is_phrase_line (phrase : str) (l : str) : bool :=
  eqb_str (map lower (strip l)) (map lower phrase).

(** The number of lines that consist of the delimiter phrase. *)
Definition delimiter_line_count (text : str) : nat :=
  length (filter (is_phrase_line (py "Total Data")) (split_nl text)).

(** The texts matched by the scan that [re.split] and [re.finditer] share:
    the leftmost match, then the leftmost match after it, and so on
    ([re.findall] for a pattern without groups that never matches the
    empty string). *)
Fixpoint findall_loop (fuel : nat) (fl : flags) (r : regex) (bef aft : str)
    : list str :=
  match fuel with
  | O => []
  | S fuel' =>
      match search_from fl r bef aft [] with
      | None => []
      | Some (piece, m) =>
          consumed (rev piece ++ bef) (m_bef m)
            :: findall_loop fuel' fl r (m_bef m) (m_aft m)
      end
  end.

Definition re_findall (fl : flags) (r : regex) (s : str) : list str :=
  findall_loop (S (length s)) fl r [] s.

(** The occurrences of the delimiter as the program finds them. *)
Definition delimiter_matches (text : str) : list str :=
  re_findall flag_I delim_re text.

(** [d1 ++ b1 ++ d2 ++ b2 ++ ...] *)
Fixpoint weave (ds blocks : list str) : str :=
  match ds, blocks with
  | d :: ds', b :: blocks' => d ++ b ++ weave ds' blocks'
  | _, _ => []
  end.

(** A pattern without [^], [$] and [\b] matches a text whatever stands
    around it. *)
Fixpoint ctx_free (r : regex) : bool :=
  match r with
  | REps | RAtom _ | RRep _ _ _ _ => true
  | RCat r1 r2 => ctx_free r1 && ctx_free r2
  | ROpt r1 | RGroup _ r1 => ctx_free r1
  | RBol | REol | RWordB => false
  end.

(** The segmenter as a statement about one text, [occ] counting the
    occurrences of the delimiter: as many blocks as occurrences, none of
    which holds an occurrence. *)
Definition segmenter_claim (occ : str -> nat) (text : str) : Prop :=
  1 <= occ text ->
  length (split_app_blocks text) = occ text /\
  (forall b, In b (split_app_blocks text) -> occ b = 0).

(** ** The section between two marker phrases, in the words of the
    specification *)

(** The text begins with the phrase, whatever its case. *)
Fixpoint ci_prefixb (phrase s : str) : bool :=
  match phrase, s with
  | [], _ => true
  | p :: phrase', c :: s' => Ascii.eqb (lower c) (lower p) && ci_prefixb phrase' s'
  | _ :: _, [] => false
  end.

(** The first occurrence of the phrase: the text before it and the text
    after it. *)
Fixpoint find_ci_aux (phrase : str) (bef : str) (s : str) : option (str * str) :=
  if ci_prefixb phrase s then Some (rev bef, skipn (length phrase) s)
  else
    match s with
    | [] => None
    | c :: s' => find_ci_aux phrase (c :: bef) s'
    end.

Definition find_ci (phrase s : str) : option (str * str) := find_ci_aux phrase [] s.

(** The text strictly between the first occurrence of the start phrase and
    the first following occurrence of the end phrase; everything after the
    start phrase when the end phrase does not follow; nothing when the start
    phrase does not occur. *)
Definition section_by_phrases (block : str) : str :=
  match find_ci (py "Daily Data") block with
  | None => []
  | Some (_, after) =>
      match find_ci (py "Hourly Data") after with
      | Some (mid, _) => mid
      | None => after
      end
  end.

(** The section locator as a statement about one block, up to the
    whitespace around the section. *)
Definition section_claim (block : str) : Prop :=
  strip (find_daily_section block) = strip (section_by_phrases block).

(** The first (last) line of the text holds a character that is not
    whitespace. *)
Definition first_line_not_blank (s : str) : Prop :=
  exists h c s1, s = h ++ c :: s1 /\
    forallb is_space h = true /\ no_nl h /\ is_space c = false.

Definition last_line_not_blank (s : str) : Prop :=
  exists s2 c h, s = s2 ++ c :: h /\
    forallb is_space h = true /\ no_nl h /\ is_space c = false.

(** The text does not begin with a blank line. *)
Definition no_leading_blank_line (s : str) : Prop :=
  exists h t, s = h ++ t /\ forallb is_space h = true /\ no_nl h /\
    (t = [] \/ exists c t', t = c :: t' /\ is_space c = false).
(** * Facts about the matcher *)

Unset Implicit Arguments.

Section MatcherFacts.
Variable fl : flags.

Lemma consumed_app : forall x bef, consumed bef (rev x ++ bef) = x.
Proof.
  intros x bef. unfold consumed.
  rewrite length_app, length_rev.
  replace (length x + length bef - length bef) with (length (rev x)) by (rewrite length_rev; lia).
  rewrite firstn_app, firstn_all, Nat.sub_diag. simpl.
  now rewrite app_nil_r, rev_involutive.
Qed.

(** The text between the two cursors of a match. *)
Lemma M_span :
  forall r st x st', M fl r st x st' ->
    m_aft st = x ++ m_aft st' /\ m_bef st' = rev x ++ m_bef st.
Proof.
  induction 1; simpl; auto.
  - destruct IHM1 as (A1 & B1), IHM2 as (A2 & B2).
    rewrite A1, A2, B2, B1, rev_app_distr, !app_assoc. auto.
Qed.

Lemma rep_greedy_sound (R : Type) :
  forall aft a lo hi bef (k : str -> str -> option R) res,
    rep_greedy fl a lo hi bef aft k = Some res ->
    exists x aft', aft = x ++ aft' /\ rep_ok fl a lo hi x /\
                   k (rev x ++ bef) aft' = Some res.
Proof.
  assert (stop : forall lo hi bef aft (k : str -> str -> option R) res a,
             match lo with O => k bef aft | S _ => None end = Some res ->
             exists x aft', aft = x ++ aft' /\ rep_ok fl a lo hi x /\
                            k (rev x ++ bef) aft' = Some res).
  { intros lo hi bef aft k res a H. destruct lo; [|discriminate].
    exists [], aft. repeat split; simpl; auto with arith.
    destruct hi; simpl; lia. }
  induction aft as [|c aft IH]; intros a lo hi bef k res H.
  - simpl in H. destruct hi as [[|h]|]; eauto.
  - simpl in H.
    assert (more : forall hi',
               rep_greedy fl a (pred lo) (option_map pred hi') (c :: bef) aft k = Some res ->
               atom_ok fl a c = true -> hi' <> Some 0 ->
               exists x aft', c :: aft = x ++ aft' /\ rep_ok fl a lo hi' x /\
                              k (rev x ++ bef) aft' = Some res).
    { intros hi' E Hc Hh. apply IH in E. destruct E as (x & aft' & -> & (Hx & Hlo & Hhi) & Hk).
      exists (c :: x), aft'. repeat split.
      - simpl. now rewrite Hc, Hx.
      - simpl. lia.
      - destruct hi' as [[|h]|]; simpl in *; try lia. congruence.
      - simpl. now rewrite <- app_assoc. }
    destruct hi as [[|h]|]; eauto.
    + destruct (atom_ok fl a c) eqn:Hc; eauto.
      destruct (rep_greedy fl a (pred lo) (option_map pred (Some (S h))) (c :: bef) aft k) eqn:E; eauto.
      inversion H; subst. apply (more (Some (S h))); auto. discriminate.
    + destruct (atom_ok fl a c) eqn:Hc; eauto.
      destruct (rep_greedy fl a (pred lo) (option_map pred None) (c :: bef) aft k) eqn:E; eauto.
      inversion H; subst. apply (more None); auto. discriminate.
Qed.

Lemma rep_lazy_sound (R : Type) :
  forall aft a lo hi bef (k : str -> str -> option R) res,
    rep_lazy fl a lo hi bef aft k = Some res ->
    exists x aft', aft = x ++ aft' /\ rep_ok fl a lo hi x /\
                   k (rev x ++ bef) aft' = Some res.
Proof.
  induction aft as [|c aft IH]; intros a lo hi bef k res H.
  - simpl in H.
    assert (E : match lo with O => k bef [] | S _ => None end = Some res).
    { destruct lo; destruct hi as [[|h]|]; auto; destruct (k bef []); auto. }
    destruct lo; [|discriminate].
    exists [], []. repeat split; simpl; auto. destruct hi; simpl; lia.
  - simpl in H.
    assert (E : (lo = 0 /\ k bef (c :: aft) = Some res) \/
                (hi <> Some 0 /\ atom_ok fl a c = true /\
                 rep_lazy fl a (pred lo) (option_map pred hi) (c :: bef) aft k = Some res)).
    { destruct lo.
      - destruct (k bef (c :: aft)) eqn:Ek; [left; auto|].
        right. destruct hi as [[|h]|]; try discriminate;
          destruct (atom_ok fl a c); try discriminate; repeat split; auto; discriminate.
      - right. destruct hi as [[|h]|]; try discriminate;
          destruct (atom_ok fl a c); try discriminate; repeat split; auto; discriminate. }
    destruct E as [[-> Ek]|(Hh & Hc & E)].
    + exists [], (c :: aft). repeat split; simpl; auto. destruct hi; simpl; lia.
    + apply IH in E. destruct E as (x & aft' & -> & (Hx & Hlo & Hhi) & Hk).
      exists (c :: x), aft'. repeat split.
      * simpl. now rewrite Hc, Hx.
      * simpl. lia.
      * destruct hi as [[|h]|]; simpl in *; try lia. congruence.
      * simpl. now rewrite <- app_assoc.
Qed.

Lemma rep_greedy_complete (R : Type) :
  forall x a lo hi bef aft (k : str -> str -> option R),
    rep_ok fl a lo hi x ->
    k (rev x ++ bef) aft <> None ->
    rep_greedy fl a lo hi bef (x ++ aft) k <> None.
Proof.
  induction x as [|c x IH]; intros a lo hi bef aft k (Hx & Hlo & Hhi) Hk.
  - simpl in *. assert (lo = 0) by lia. subst lo.
    destruct aft as [|c aft]; simpl.
    + destruct hi as [[|h]|]; auto.
    + destruct hi as [[|h]|]; auto;
        destruct (atom_ok fl a c); auto;
        match goal with |- context [rep_greedy ?f ?a ?l ?h ?b ?t ?k] =>
          destruct (rep_greedy f a l h b t k) end; auto; discriminate.
  - simpl in Hx. apply andb_true_iff in Hx. destruct Hx as [Hc Hx].
    assert (Hrec : rep_greedy fl a (pred lo) (option_map pred hi) (c :: bef) (x ++ aft) k <> None).
    { apply IH.
      - repeat split; auto.
        + simpl in Hlo. lia.
        + destruct hi as [h|]; simpl in *; auto. lia.
      - simpl in Hk. now rewrite <- app_assoc in Hk. }
    simpl. destruct hi as [[|h]|].
    + simpl in Hhi. lia.
    + rewrite Hc. destruct (rep_greedy fl a (pred lo) (option_map pred (Some (S h))) (c :: bef) (x ++ aft) k);
        [discriminate|contradiction].
    + rewrite Hc. destruct (rep_greedy fl a (pred lo) (option_map pred None) (c :: bef) (x ++ aft) k);
        [discriminate|contradiction].
Qed.

Lemma rep_lazy_complete (R : Type) :
  forall x a lo hi bef aft (k : str -> str -> option R),
    rep_ok fl a lo hi x ->
    k (rev x ++ bef) aft <> None ->
    rep_lazy fl a lo hi bef (x ++ aft) k <> None.
Proof.
  induction x as [|c x IH]; intros a lo hi bef aft k (Hx & Hlo & Hhi) Hk.
  - simpl in *. assert (lo = 0) by lia. subst lo.
    destruct aft as [|c aft]; simpl; destruct (k bef _); try discriminate; contradiction.
  - simpl in Hx. apply andb_true_iff in Hx. destruct Hx as [Hc Hx].
    assert (Hrec : rep_lazy fl a (pred lo) (option_map pred hi) (c :: bef) (x ++ aft) k <> None).
    { apply IH.
      - repeat split; auto.
        + simpl in Hlo. lia.
        + destruct hi as [h|]; simpl in *; auto. lia.
      - simpl in Hk. now rewrite <- app_assoc in Hk. }
    simpl. destruct hi as [[|h]|].
    + simpl in Hhi. lia.
    + rewrite Hc. destruct lo; auto. destruct (k bef (c :: x ++ aft)); auto. discriminate.
    + rewrite Hc. destruct lo; auto. destruct (k bef (c :: x ++ aft)); auto. discriminate.
Qed.

(** Soundness: a successful run went through a cursor that the pattern
    relates to the start. *)
Theorem run_sound :
  forall r st k res,
    run fl r st k = Some res ->
    exists x st', M fl r st x st' /\ k st' = Some res.
Proof.
  induction r; intros st k res H; simpl in H.
  - exists [], st. split; [constructor|auto].
  - destruct st as [bef aft caps]. simpl in H.
    destruct aft as [|c aft]; [discriminate|].
    destruct (atom_ok fl a c) eqn:Hc; [|discriminate].
    do 2 eexists. split; [apply M_atom; eauto|]. exact H.
  - destruct st as [bef aft caps]. simpl in H.
    destruct greedy.
    + apply rep_greedy_sound in H. destruct H as (x & aft' & -> & Hx & Hk).
      do 2 eexists. split; [apply M_rep; eauto|]. exact Hk.
    + apply rep_lazy_sound in H. destruct H as (x & aft' & -> & Hx & Hk).
      do 2 eexists. split; [apply M_rep; eauto|]. exact Hk.
  - apply IHr1 in H. destruct H as (x1 & st1 & H1 & H).
    apply IHr2 in H. destruct H as (x2 & st2 & H2 & H).
    exists (x1 ++ x2), st2. split; [econstructor; eauto|auto].
  - destruct (run fl r st k) eqn:E.
    + inversion H; subst. apply IHr in E. destruct E as (x & st' & H1 & Hk).
      exists x, st'. split; [now apply M_opt_some|auto].
    + exists [], st. split; [apply M_opt_none|auto].
  - apply IHr in H. destruct H as (x & st1 & H1 & H).
    do 2 eexists. split; [apply M_group; eauto|].
    destruct (M_span _ _ _ _ H1) as [_ B].
    assert (C : consumed (m_bef st) (m_bef st1) = x) by (rewrite B; apply consumed_app).
    rewrite C in H. exact H.
  - destruct (m_bef st) eqn:E; [|discriminate].
    exists [], st. split; [now apply M_bol|auto].
  - destruct (at_eol (m_aft st)) eqn:E; [|discriminate].
    exists [], st. split; [now apply M_eol|auto].
  - destruct (xorb _ _) eqn:E; [|discriminate].
    exists [], st. split; [now apply M_wordb|auto].
Qed.

(** Completeness: if some way of matching lets the continuation succeed,
    the run succeeds (possibly through a way of higher priority). *)
Theorem run_complete :
  forall r st x st', M fl r st x st' ->
    forall k, k st' <> None -> run fl r st k <> None.
Proof.
  induction 1; intros k Hk; simpl.
  - auto.
  - rewrite H. auto.
  - destruct g.
    + apply rep_greedy_complete; auto.
    + apply rep_lazy_complete; auto.
  - apply IHM1. apply IHM2. auto.
  - specialize (IHM k Hk). destruct (run fl r st k); [discriminate|contradiction].
  - destruct (run fl r st k); [discriminate|auto].
  - apply IHM. destruct (M_span _ _ _ _ H) as [_ B].
    assert (C : consumed (m_bef st) (m_bef st1) = x) by (rewrite B; apply consumed_app).
    rewrite C. auto.
  - rewrite H. auto.
  - rewrite H. auto.
  - rewrite H. auto.
Qed.

Lemma attempt_sound :
  forall r bef aft m, attempt fl r bef aft = Some m ->
    exists x, M fl r (mk bef aft no_caps) x m.
Proof.
  intros r bef aft m H. apply run_sound in H.
  destruct H as (x & st' & H & E). inversion E; subst. eauto.
Qed.

Lemma attempt_complete :
  forall r bef aft x st', M fl r (mk bef aft no_caps) x st' ->
    attempt fl r bef aft <> None.
Proof.
  intros r bef aft x st' H. unfold attempt.
  apply (run_complete _ _ _ _ H). discriminate.
Qed.

Lemma re_match_sound :
  forall r s m, re_match fl r s = Some m ->
    exists x, M fl r (mk [] s no_caps) x m.
Proof. intros r s m. apply attempt_sound. Qed.

Lemma re_match_complete :
  forall r s x st', M fl r (mk [] s no_caps) x st' -> re_match fl r s <> None.
Proof. intros r s x st'. apply attempt_complete. Qed.
End MatcherFacts.

(** * The observations page: the two notes *)

Lemma ivt_values_dropna_length :
  forall df, length (ivt_values (dropna_IVT df)) = length (dropna_IVT df).
Proof.
  induction df as [|r df IH]; simpl; auto.
  destruct (isna_float (IVT r)) eqn:Ena; simpl; auto.
  destruct (IVT r) as [v|]; simpl; [now rewrite IH|discriminate].
Qed.

(** The loop treats every application on its own. *)
Lemma summaries_app :
  forall l1 l2, summaries (l1 ++ l2) = summaries l1 ++ summaries l2.
Proof.
  induction l1 as [|ad l1 IH]; intros l2; simpl; auto.
  destruct (dropna_IVT (rows ad)); simpl; now rewrite IH.
Qed.

(** C8: an application with at least one non-null metric value gets one
    summary; its high-value note is written exactly when some non-null
    metric value is strictly greater than 0.5 (so it is written for every
    application that has such a value), and its all-zero note exactly when
    every non-null metric value equals zero.  For the values
    [0.1, 0.6, 0.2] the high-value note is written; for [0.0, 0.0] the
    all-zero note is written and the high-value note is not. *)
Theorem summary_flags :
  forall ad : app,
    ivt_values (dropna_IVT (rows ad)) <> [] ->
    (exists s, summaries [ad] = [s] /\
       s_index s = index ad /\
       (s_note_high s = true <->
          exists v, In v (ivt_values (dropna_IVT (rows ad))) /\ SFltb half v = true) /\
       (s_note_zero s = true <->
          forall v, In v (ivt_values (dropna_IVT (rows ad))) -> SFeqb v zero = true)) /\
    map s_note_high (summaries [app_of_metrics 1 [f_0_1; f_0_6; f_0_2]]) = [true] /\
    map s_note_zero (summaries [app_of_metrics 1 [f_0_0; f_0_0]]) = [true] /\
    map s_note_high (summaries [app_of_metrics 1 [f_0_0; f_0_0]]) = [false].
Proof.
  intros ad Hne. split; [|repeat split; reflexivity].
  simpl. destruct (dropna_IVT (rows ad)) as [|r df] eqn:E.
  - simpl in Hne. contradiction.
  - eexists. split; [reflexivity|]. simpl. split; [reflexivity|]. split.
    + unfold any_above_half. rewrite existsb_exists. reflexivity.
    + unfold all_zero. rewrite forallb_forall. reflexivity.
Qed.

Lemma summary_flags_witness :
  exists s, summaries [app_of_metrics 3 [f_0_1; f_0_6]] = [s] /\
            s_index s = 3 /\ s_note_high s = true.
Proof.
  destruct (summary_flags (app_of_metrics 3 [f_0_1; f_0_6])) as [(s & Hs & Hi & Hh & _) _].
  - vm_compute. discriminate.
  - exists s. repeat split; auto.
    apply Hh. exists f_0_6. split; [vm_compute; auto|vm_compute; reflexivity].
Defined.

(** ** The relation read off the pattern *)

Lemma M_D :
  forall fl r st x st', M fl r st x st' ->
    D fl r (m_bef st) x (m_aft st') (m_caps st) (m_caps st').
Proof.
  induction 1; simpl; auto.
  - split; eauto.
  - destruct (M_span _ _ _ _ _ H) as [A1 B1], (M_span _ _ _ _ _ H0) as [A2 B2].
    exists x1, x2, (m_caps st1). rewrite <- A2, <- B1. auto.
  - eauto.
Qed.

Lemma D_M :
  forall fl r bef x aft caps caps',
    D fl r bef x aft caps caps' ->
    M fl r (mk bef (x ++ aft) caps) x (mk (rev x ++ bef) aft caps').
Proof.
  intros fl. induction r; simpl; intros bef x aft caps caps' H.
  - destruct H as [-> ->]. apply M_eps.
  - destruct H as [(c & -> & Hc) ->]. now apply M_atom.
  - destruct H as [Hx ->]. now apply M_rep.
  - destruct H as (x1 & x2 & caps1 & -> & H1 & H2).
    apply IHr1 in H1. apply IHr2 in H2.
    rewrite <- app_assoc, rev_app_distr, <- app_assoc.
    eapply M_cat; eauto.
  - destruct H as [H|[-> ->]].
    + apply M_opt_some. auto.
    + apply M_opt_none.
  - destruct H as (caps1 & H & ->). apply IHr in H.
    apply (@M_group fl i r _ _ _ H).
  - destruct H as (-> & -> & ->). now apply M_bol.
  - destruct H as (-> & H & ->). now apply M_eol.
  - destruct H as (-> & H & ->). now apply M_wordb.
Qed.

(** A successful attempt, read off the pattern. *)
Lemma attempt_D :
  forall fl r bef s m, attempt fl r bef s = Some m ->
    exists x aft, s = x ++ aft /\ m_bef m = rev x ++ bef /\ m_aft m = aft /\
                  D fl r bef x aft no_caps (m_caps m).
Proof.
  intros fl r bef s m H. apply attempt_sound in H. destruct H as (x & H).
  destruct (M_span _ _ _ _ _ H) as [A B]. apply M_D in H. simpl in *.
  exists x, (m_aft m). auto.
Qed.

(** A way of matching makes the attempt succeed. *)
Lemma D_attempt :
  forall fl r bef x aft caps',
    D fl r bef x aft no_caps caps' -> attempt fl r bef (x ++ aft) <> None.
Proof.
  intros fl r bef x aft caps' H. apply D_M in H.
  eapply attempt_complete; eauto.
Qed.

Lemma match_D :
  forall fl r s m, re_match fl r s = Some m ->
    exists x aft, s = x ++ aft /\ D fl r [] x aft no_caps (m_caps m).
Proof.
  intros fl r s m H. apply attempt_D in H.
  destruct H as (x & aft & E & _ & _ & H). eauto.
Qed.

Lemma D_match :
  forall fl r x aft caps',
    D fl r [] x aft no_caps caps' -> re_match fl r (x ++ aft) <> None.
Proof. intros fl r x aft caps'. apply D_attempt. Qed.

(** A literal string matches itself, up to case when the flag says so. *)
Lemma D_RStr :
  forall fl s bef x aft caps caps',
    D fl (RStr s) bef x aft caps caps' <->
    (Forall2 (fun c p => atom_ok fl (AChr p) c = true) x s /\ caps' = caps).
Proof.
  intros fl. induction s as [|p s IH]; simpl; intros bef x aft caps caps'.
  - split.
    + intros [-> ->]. auto.
    + intros [H ->]. inversion H. auto.
  - split.
    + intros (x1 & x2 & caps1 & -> & [(c & -> & Hc) ->] & H).
      apply IH in H. destruct H as [H ->]. split; auto. simpl. now constructor.
    + intros [H ->]. inversion H as [|c p' x' s' Hc Hx]; subst.
      exists [c], x', caps. repeat split; eauto.
      apply IH. auto.
Qed.

(** * Characters *)

Ltac all_chars c :=
  destruct c as [[] [] [] [] [] [] [] []]; vm_compute; try reflexivity; try discriminate; auto.

Lemma digit_not_space : forall c, is_digit c = true -> is_space c = false.
Proof. intros c. all_chars c. Qed.

Lemma word_not_space : forall c, is_word c = true -> is_space c = false.
Proof. intros c. all_chars c. Qed.

Lemma digit_is_word : forall c, is_digit c = true -> is_word c = true.
Proof. intros c. all_chars c. Qed.

Lemma nl_is_space : forall c, is_nl c = true -> is_space c = true.
Proof. intros c. all_chars c. Qed.

Lemma digit_not_nl : forall c, is_digit c = true -> is_nl c = false.
Proof. intros c. all_chars c. Qed.

Lemma is_nl_eq : forall c, is_nl c = true -> c = nl.
Proof. intros c H. now apply Ascii.eqb_eq in H. Qed.

Lemma is_chr_eq : forall x c, is_chr x c = true -> c = x.
Proof. intros x c H. now apply Ascii.eqb_eq in H. Qed.

Lemma atom_chr_exact : forall x c, atom_ok no_flags (AChr x) c = true -> c = x.
Proof. intros x c H. now apply Ascii.eqb_eq in H. Qed.

Lemma forallb_app_iff :
  forall (p : ascii -> bool) x y,
    forallb p (x ++ y) = true <-> forallb p x = true /\ forallb p y = true.
Proof. intros. rewrite forallb_app, andb_true_iff. reflexivity. Qed.

(** Two ways of cutting a text after a run of characters of a class, both
    followed by a character outside the class (or by nothing), agree. *)
Lemma run_unique :
  forall (p : ascii -> bool) x y a b,
    forallb p x = true -> forallb p y = true ->
    (a = [] \/ exists c a', a = c :: a' /\ p c = false) ->
    (b = [] \/ exists c b', b = c :: b' /\ p c = false) ->
    x ++ a = y ++ b -> x = y /\ a = b.
Proof.
  intros p. induction x as [|c x IH]; intros y a b Hx Hy Ha Hb E.
  - destruct y as [|d y]; [auto|]. simpl in *. subst a.
    apply andb_true_iff in Hy. destruct Hy as [Hd _].
    destruct Ha as [Ha|(c & a' & Ha & Hc)]; [discriminate|].
    inversion Ha; subst. congruence.
  - destruct y as [|d y].
    + simpl in *. subst b. apply andb_true_iff in Hx. destruct Hx as [Hc _].
      destruct Hb as [Hb|(c' & b' & Hb & Hc')]; [discriminate|].
      inversion Hb; subst. congruence.
    + simpl in *. inversion E; subst.
      apply andb_true_iff in Hx, Hy. destruct Hx as [_ Hx], Hy as [_ Hy].
      destruct (IH y a b Hx Hy Ha Hb H1) as [-> ->]. auto.
Qed.

(** * Inverting matches of the program's patterns *)

Ltac inv H := inversion H; subst; clear H.

Ltac norm_app := repeat (simpl; rewrite <- ?app_assoc); rewrite ?app_nil_r.

Ltac invM :=
  repeat match goal with
  | H : M _ (RCat _ _) _ _ _ |- _ => inv H
  | H : M _ (RAtom _) _ _ _ |- _ => inv H
  | H : M _ (RRep _ _ _ _) _ _ _ |- _ => inv H
  | H : M _ (RGroup _ _) _ _ _ |- _ => inv H
  | H : M _ REps _ _ _ |- _ => inv H
  | H : M _ RBol _ _ _ |- _ => inv H
  | H : M _ REol _ _ _ |- _ => inv H
  | H : M _ RWordB _ _ _ |- _ => inv H
  | H : M _ (ROpt _) _ _ _ |- _ => inv H
  end.


(** * The numeric-literal pattern and [float] *)

Lemma takewhile_dropwhile :
  forall p s, takewhile p s ++ dropwhile p s = s.
Proof.
  intros p. induction s as [|c s IH]; simpl; auto.
  destruct (p c); simpl; [now rewrite IH|auto].
Qed.

Lemma takewhile_all : forall p s, forallb p (takewhile p s) = true.
Proof.
  intros p. induction s as [|c s IH]; simpl; auto.
  destruct (p c) eqn:E; simpl; auto. now rewrite E.
Qed.

Lemma takewhile_run :
  forall p x a, forallb p x = true ->
    (a = [] \/ exists c a', a = c :: a' /\ p c = false) ->
    takewhile p (x ++ a) = x /\ dropwhile p (x ++ a) = a.
Proof.
  intros p. induction x as [|c x IH]; intros a Hx Ha; simpl in *.
  - destruct Ha as [->|(c & a' & -> & Hc)]; simpl; auto. now rewrite Hc.
  - apply andb_true_iff in Hx. destruct Hx as [Hc Hx]. rewrite Hc.
    destruct (IH a Hx Ha) as [-> ->]. auto.
Qed.

Lemma dropwhile_head :
  forall p s, dropwhile p s = [] \/ exists c s', dropwhile p s = c :: s' /\ p c = false.
Proof.
  intros p. induction s as [|c s IH]; simpl; auto.
  destruct (p c) eqn:E; auto. right. eauto.
Qed.

Lemma not_digit_point : is_digit "." = false.
Proof. reflexivity. Qed.

Lemma digit_not_sign :
  forall c, is_digit c = true -> is_chr "-" c = false /\ is_chr "+" c = false.
Proof. intros c. all_chars c. Qed.

Lemma fraction_head :
  forall fp, (fp = [] \/ exists fd, fp = "."%char :: fd /\ digits1 fd) ->
    fp = [] \/ exists c a', fp = c :: a' /\ is_digit c = false.
Proof.
  intros fp [->|(fd & -> & _)]; auto. right. do 2 eexists. split; eauto.
Qed.

Lemma numeric_literalb_iff :
  forall t, numeric_literalb t = true <-> numeric_literal t.
Proof.
  intros t. split.
  - unfold numeric_literalb. intros H.
    apply andb_true_iff in H. destruct H as [Hip Hfp].
    set (body := unsigned_part t) in *.
    exists (match t with
            | c :: _ => if is_chr "-" c then ["-"%char] else []
            | [] => [] end),
      (takewhile is_digit body), (dropwhile is_digit body).
    split; [|split; [|split]].
    + rewrite takewhile_dropwhile. subst body. unfold unsigned_part.
      destruct t as [|c t']; auto.
      destruct (is_chr "-" c) eqn:E; auto.
      apply is_chr_eq in E. subst. reflexivity.
    + destruct t as [|c t']; auto. destruct (is_chr "-" c); auto.
    + split; [|apply takewhile_all].
      destruct (takewhile is_digit body); [discriminate|discriminate].
    + destruct (dropwhile is_digit body) as [|c fd]; auto.
      right. apply andb_true_iff in Hfp. destruct Hfp as [Hc Hfd].
      apply andb_true_iff in Hc. destruct Hc as [Hc Hne].
      apply is_chr_eq in Hc. subst c. exists fd. split; auto.
      split; auto. destruct fd; [discriminate|discriminate].
  - intros (sign & ip & fp & -> & Hs & (Hne & Hip) & Hfp).
    unfold numeric_literalb. cbv zeta.
    assert (Hbody : unsigned_part (sign ++ ip ++ fp) = ip ++ fp).
    { unfold unsigned_part. destruct Hs as [->| ->]; simpl; auto.
      destruct ip as [|d ip]; [contradiction|]. simpl in *.
      apply andb_true_iff in Hip. destruct Hip as [Hd _].
      apply digit_not_sign in Hd. destruct Hd as [-> _]. auto. }
    rewrite Hbody.
    destruct (takewhile_run is_digit ip fp Hip (fraction_head _ Hfp)) as [-> ->].
    apply andb_true_iff. split.
    + destruct ip; [contradiction|reflexivity].
    + destruct Hfp as [->|(fd & -> & Hfd & Hd)]; auto.
      simpl. rewrite Hd. destruct fd; [contradiction|reflexivity].
Qed.

Lemma last_digit_literal :
  forall core, numeric_literal core ->
    exists s0 l, core = s0 ++ [l] /\ is_digit l = true.
Proof.
  intros core (sign & ip & fp & -> & _ & (Hne & Hip) & Hfp).
  assert (Hlast : forall x, x <> [] -> forallb is_digit x = true ->
                    exists x0 l, x = x0 ++ [l] /\ is_digit l = true).
  { intros x Hx Hd. destruct (exists_last Hx) as (x0 & l & ->).
    apply forallb_app_iff in Hd. destruct Hd as [_ Hd]. simpl in Hd.
    apply andb_true_iff in Hd. destruct Hd. eauto. }
  destruct Hfp as [->|(fd & -> & Hfd & Hd)].
  - destruct (Hlast ip Hne Hip) as (x0 & l & -> & Hl).
    exists (sign ++ x0), l. rewrite app_nil_r, app_assoc. auto.
  - destruct (Hlast fd Hfd Hd) as (x0 & l & -> & Hl).
    exists (sign ++ ip ++ "."%char :: x0), l. split; auto.
    rewrite <- !app_assoc. reflexivity.
Qed.

Lemma first_char_literal :
  forall core, numeric_literal core ->
    exists c s', core = c :: s' /\ is_space c = false.
Proof.
  intros core (sign & ip & fp & -> & Hs & (Hne & Hip) & Hfp).
  destruct Hs as [->| ->]; simpl.
  - destruct ip as [|d ip]; [contradiction|]. simpl in *.
    apply andb_true_iff in Hip. destruct Hip as [Hd _].
    do 2 eexists. split; eauto using digit_not_space.
  - do 2 eexists. split; eauto.
Qed.

Lemma chomp_literal :
  forall t, (exists core, numeric_literal core /\ (t = core \/ t = core ++ [nl]))
            <-> numeric_literal (chomp t).
Proof.
  intros t. split.
  - intros (core & Hc & [->| ->]).
    + destruct (last_digit_literal _ Hc) as (s0 & l & E & Hl).
      unfold chomp. rewrite E at 1. rewrite rev_app_distr. simpl.
      now rewrite (digit_not_nl _ Hl).
    + unfold chomp. rewrite rev_app_distr. simpl. now rewrite rev_involutive.
  - intros H. exists (chomp t). split; auto.
    unfold chomp. destruct (rev t) as [|c r] eqn:E; auto.
    destruct (is_nl c) eqn:Hc; auto. right.
    apply is_nl_eq in Hc. subst c.
    rewrite <- (rev_involutive t), E. reflexivity.
Qed.

Lemma minus_opt :
  forall x, rep_ok no_flags (AChr "-") 0 (Some 1) x -> x = [] \/ x = ["-"%char].
Proof.
  intros x (Hx & _ & Hhi). simpl in Hhi.
  destruct x as [|c [|d x]]; auto; [|simpl in Hhi; lia].
  simpl in Hx. apply andb_true_iff in Hx. destruct Hx as [Hc _].
  apply Ascii.eqb_eq in Hc. subst. auto.
Qed.

Lemma rep_plus :
  forall fl a x, rep_ok fl a 1 None x <-> x <> [] /\ forallb (atom_ok fl a) x = true.
Proof.
  intros fl a x. unfold rep_ok. split.
  - intros (Hx & Hlo & _). split; auto. destruct x; simpl in *; [lia|discriminate].
  - intros (Hne & Hx). repeat split; auto. destruct x; simpl; [contradiction|lia].
Qed.

Lemma at_eol_cases : forall aft, at_eol aft = true -> aft = [] \/ aft = [nl].
Proof.
  intros [|c [|d aft]] H; simpl in H; auto; [|discriminate].
  apply is_nl_eq in H. subst. auto.
Qed.

(** What [^-?\d+(\.\d+)?$] matches. *)
Lemma numeric_re_sound :
  forall t m, re_match no_flags numeric_re t = Some m ->
    exists core, numeric_literal core /\ (t = core \/ t = core ++ [nl]).
Proof.
  intros t m H. apply re_match_sound in H. destruct H as (x & H).
  unfold numeric_re, plus, chr in H. simpl in H.
  invM; simpl in *;
    repeat match goal with
    | H : rep_ok _ _ 1 None _ |- _ => apply rep_plus in H; simpl in H
    | H : rep_ok _ (AChr _) 0 (Some 1) _ |- _ => apply minus_opt in H
    | H : at_eol _ = true |- _ => apply at_eol_cases in H
    | H : atom_ok no_flags (AChr _) _ = true |- _ => apply atom_chr_exact in H; subst
    | H : Ascii.eqb _ _ = true |- _ => apply Ascii.eqb_eq in H; subst
    end.
  - exists (x0 ++ x2 ++ "."%char :: x4). split.
    + exists x0, x2, ("."%char :: x4). repeat split; auto; try tauto.
      right. exists x4. repeat split; tauto.
    + destruct H as [->| ->]; [left|right]; norm_app; auto.
  - exists (x0 ++ x2). split.
    + exists x0, x2, []. rewrite app_nil_r. repeat split; auto; tauto.
    + destruct H as [->| ->]; [left|right]; norm_app; auto.
Qed.

Lemma numeric_re_complete :
  forall t core, numeric_literal core -> (t = core \/ t = core ++ [nl]) ->
    re_match no_flags numeric_re t <> None.
Proof.
  intros t core (sign & ip & fp & -> & Hs & Hip & Hfp) Ht.
  assert (E : exists e, (e = [] \/ e = [nl]) /\ t = sign ++ ip ++ fp ++ e).
  { destruct Ht as [->| ->]; [exists []|exists [nl]]; split; auto; norm_app; auto. }
  destruct E as (e & He & ->).
  assert (Hsign : rep_ok no_flags (AChr "-") 0 (Some 1) sign).
  { destruct Hs as [->| ->]; repeat split; simpl; auto. }
  assert (Heol : at_eol e = true) by (destruct He as [->| ->]; reflexivity).
  destruct Hfp as [->|(fd & -> & Hfd)].
  - eapply re_match_complete. unfold numeric_re, plus, chr; simpl.
    eapply M_cat; [apply M_bol; reflexivity|].
    eapply M_cat; [apply M_rep; eassumption|].
    eapply M_cat; [apply M_rep; apply rep_plus; exact Hip|].
    eapply M_cat; [apply M_opt_none|]. apply M_eol. exact Heol.
  - eapply re_match_complete. unfold numeric_re, plus, chr; simpl.
    eapply M_cat; [apply M_bol; reflexivity|].
    eapply M_cat; [apply M_rep; eassumption|].
    eapply M_cat; [apply M_rep; apply rep_plus; exact Hip|].
    eapply M_cat.
    + apply M_opt_some, M_group. eapply M_cat; [apply M_atom; reflexivity|].
      apply M_rep. apply rep_plus. exact Hfd.
    + apply M_eol. exact Heol.
Qed.

Lemma strip_core :
  forall s c s' s0 l,
    s = c :: s' -> s = s0 ++ [l] -> is_space c = false -> is_space l = false ->
    strip s = s /\ strip (s ++ [nl]) = s.
Proof.
  intros s c s' s0 l E1 E2 Hc Hl.
  assert (D1 : dropwhile is_space s = s) by (rewrite E1; simpl; now rewrite Hc).
  assert (D2 : dropwhile is_space (rev s) = rev s).
  { rewrite E2, rev_app_distr. simpl. now rewrite Hl. }
  unfold strip. split.
  - now rewrite D1, D2, rev_involutive.
  - assert (D3 : dropwhile is_space (s ++ [nl]) = s ++ [nl]).
    { rewrite E1. simpl. now rewrite Hc. }
    rewrite D3, rev_app_distr. simpl. now rewrite D2, rev_involutive.
Qed.

Lemma digitpart_run :
  forall ip acc a, forallb is_digit ip = true ->
    (a = [] \/ exists c a', a = c :: a' /\ is_digit c = false /\ is_chr "_" c = false) ->
    digitpart acc (ip ++ a) = (rev acc ++ ip, a).
Proof.
  induction ip as [|d ip IH]; intros acc a Hip Ha; simpl in *.
  - rewrite app_nil_r. destruct Ha as [->|(c & a' & -> & Hc & Hu)]; simpl; auto.
    now rewrite Hc, Hu.
  - apply andb_true_iff in Hip. destruct Hip as [Hd Hip]. rewrite Hd.
    rewrite IH; auto. simpl. now rewrite <- app_assoc.
Qed.

(** [float] accepts whatever the numeric-literal pattern lets through. *)
Lemma py_float_literal :
  forall t core, numeric_literal core -> (t = core \/ t = core ++ [nl]) ->
    exists v, py_float t = Return v.
Proof.
  intros t core Hlit Ht.
  destruct (first_char_literal _ Hlit) as (c & s' & E1 & Hc).
  destruct (last_digit_literal _ Hlit) as (s0 & l & E2 & Hl).
  destruct (strip_core _ _ _ _ _ E1 E2 Hc (digit_not_space _ Hl)) as [S1 S2].
  assert (S : strip t = core) by (destruct Ht as [->| ->]; auto).
  unfold py_float. rewrite S. clear - Hlit.
  destruct Hlit as (sign & ip & fp & -> & Hs & (Hne & Hip) & Hfp).
  assert (Hsign : exists neg, take_sign (sign ++ ip ++ fp) = (neg, ip ++ fp)).
  { destruct Hs as [->| ->]; simpl; eauto.
    destruct ip as [|d ip]; [contradiction|]. simpl in *.
    apply andb_true_iff in Hip. destruct Hip as [Hd _].
    apply digit_not_sign in Hd. destruct Hd as [-> ->]. eauto. }
  destruct Hsign as (neg & ->).
  assert (Hpf : exists v, parse_floatnumber neg (ip ++ fp) = Some v).
  { unfold parse_floatnumber. rewrite digitpart_run; auto.
    - simpl. destruct Hfp as [->|(fd & -> & Hfd & Hd)].
      + rewrite app_nil_r. destruct ip; [contradiction|]. simpl. eauto.
      + replace (is_chr "." ".") with true by reflexivity.
        pose proof (digitpart_run fd [] [] Hd (or_introl eq_refl)) as Dp.
        rewrite app_nil_r in Dp. simpl in Dp. rewrite Dp.
        destruct (ip ++ fd) eqn:E; simpl; eauto.
        apply app_eq_nil in E. destruct E. contradiction.
    - destruct Hfp as [->|(fd & -> & _)]; auto.
      right. do 2 eexists. repeat split; reflexivity. }
  destruct Hpf as (v & ->). eauto.
Qed.

(** The failure branch of [_last_numeric_token] is never taken. *)
Lemma float_of_matched_token :
  forall t m, re_match no_flags numeric_re t = Some m -> exists v, py_float t = Return v.
Proof.
  intros t m H. apply numeric_re_sound in H. destruct H as (core & Hc & Ht).
  eapply py_float_literal; eauto.
Qed.

Lemma numeric_re_accepted :
  forall t, accepted_token t = true <-> re_match no_flags numeric_re t <> None.
Proof.
  intros t. unfold accepted_token. rewrite numeric_literalb_iff, <- chomp_literal. split.
  - intros (core & Hc & Ht). eapply numeric_re_complete; eauto.
  - intros H. destruct (re_match no_flags numeric_re t) eqn:E; [|contradiction].
    eapply numeric_re_sound; eauto.
Qed.

Lemma last_numeric_loop_spec :
  forall ts,
    match find accepted_token ts with
    | Some t => exists v, py_float t = Return v /\ last_numeric_loop ts = Return (Some v)
    | None => last_numeric_loop ts = Return None
    end.
Proof.
  induction ts as [|t ts IH]; simpl; auto.
  destruct (accepted_token t) eqn:E.
  - apply numeric_re_accepted in E.
    destruct (re_match no_flags numeric_re t) eqn:Em; [|contradiction].
    destruct (float_of_matched_token _ _ Em) as (v & Hv). rewrite Hv. eauto.
  - destruct (re_match no_flags numeric_re t) eqn:Em; auto.
    assert (A : accepted_token t = true) by (apply numeric_re_accepted; rewrite Em; discriminate).
    congruence.
Qed.

(** [_last_numeric_token] never raises. *)
Lemma last_numeric_token_returns :
  forall tokens, exists r, _last_numeric_token tokens = Return r.
Proof.
  intros tokens. unfold _last_numeric_token.
  generalize (last_numeric_loop_spec (rev tokens)).
  destruct (find accepted_token (rev tokens)).
  - intros (v & _ & ->). eauto.
  - intros ->. eauto.
Qed.

Lemma chomp_no_nl : forall t, ~ In nl t -> chomp t = t.
Proof.
  intros t H. unfold chomp. destruct (rev t) as [|c r] eqn:E; auto.
  destruct (is_nl c) eqn:Hc; auto. apply is_nl_eq in Hc. subst c.
  exfalso. apply H. apply in_rev. rewrite E. now left.
Qed.

Lemma find_ext :
  forall (A : Type) (f g : A -> bool) l,
    (forall x, In x l -> f x = g x) -> find f l = find g l.
Proof.
  intros A f g. induction l as [|x l IH]; intros H; simpl; auto.
  rewrite <- (H x (or_introl eq_refl)). destruct (f x); auto.
  apply IH. intros y Hy. apply H. now right.
Qed.

(** Whatever the tokens, the result is the float of the rightmost token
    that the pattern accepts. *)
Lemma last_numeric_token_accepted :
  forall tokens : list str, rightmost_token_result accepted_token tokens.
Proof.
  intros tokens. unfold rightmost_token_result, _last_numeric_token.
  apply last_numeric_loop_spec.
Qed.

(** Among tokens without a line feed, the pattern accepts exactly the
    numeric literals. *)
Lemma last_numeric_token_literal :
  forall tokens : list str,
    (forall t, In t tokens -> ~ In nl t) ->
    rightmost_token_result numeric_literalb tokens.
Proof.
  intros tokens Hnl.
  pose proof (last_numeric_token_accepted tokens) as R.
  unfold rightmost_token_result in *.
  rewrite (find_ext _ numeric_literalb accepted_token); auto.
  intros t Ht. unfold accepted_token. rewrite chomp_no_nl; auto.
  apply Hnl. now apply in_rev.
Qed.

(** * The line patterns *)

Arguments is_space : simpl never.
Arguments is_digit : simpl never.
Arguments is_word : simpl never.
Arguments is_nl : simpl never.
Arguments lower : simpl never.
Arguments word_before : simpl never.
Arguments word_after : simpl never.
Arguments at_eol : simpl never.

Ltac dD :=
  repeat match goal with
  | H : exists _, _ |- _ => destruct H
  | H : _ /\ _ |- _ => destruct H
  end; subst.

Ltac unfold_re H :=
  unfold numeric_re, ws_re, embedded_iso_re, phrase_line_re, date_phrase_re,
    to_phrase_re, iso_line_re, clock_re, iso_date_re, daily_re, daily_hourly_re,
    delim_re, plus, star, star_lazy, times, chr in H;
  simpl in H.

Ltac unfold_re_goal :=
  unfold numeric_re, ws_re, embedded_iso_re, phrase_line_re, date_phrase_re,
    to_phrase_re, iso_line_re, clock_re, iso_date_re, daily_re, daily_hourly_re,
    delim_re, plus, star, star_lazy, times, chr;
  simpl.

Lemma rep_spaces : forall fl x, rep_ok fl ASpace 1 None x <-> spaces1 x.
Proof. intros. apply rep_plus. Qed.

Lemma rep_word : forall fl x, rep_ok fl AWord 1 None x <-> word1 x.
Proof. intros. apply rep_plus. Qed.

Lemma rep_any_line : forall x, rep_ok no_flags AAny 0 None x <-> no_nl x.
Proof.
  intros x. unfold rep_ok, no_nl. simpl. intuition auto with arith.
Qed.

Lemma rep_any_line_I : forall x, rep_ok flag_I AAny 0 None x <-> no_nl x.
Proof.
  intros x. unfold rep_ok, no_nl. simpl. intuition auto with arith.
Qed.

Lemma ci_eq_to :
  forall c1 c2,
    Ascii.eqb (lower c1) (lower "t") = true ->
    Ascii.eqb (lower c2) (lower "o") = true ->
    ci_eq [c1; c2] (py "to").
Proof.
  intros c1 c2 H1 H2. apply Ascii.eqb_eq in H1, H2.
  unfold ci_eq. simpl. now rewrite H1, H2.
Qed.

Ltac norm_reps :=
  repeat match goal with
  | H : rep_ok _ ASpace 1 None _ |- _ => apply rep_spaces in H
  | H : rep_ok _ AWord 1 None _ |- _ => apply rep_word in H
  | H : rep_ok flag_I AAny 0 None _ |- _ => apply rep_any_line_I in H
  | H : rep_ok no_flags AAny 0 None _ |- _ => apply rep_any_line in H
  | H : rep_ok _ ADigit 1 (Some 2) ?x |- _ => change (day_number x) in H
  | H : rep_ok _ ADigit 2 (Some 2) ?x |- _ => change (digits_n 2 x) in H
  end.

Ltac conjs :=
  repeat (first [assumption | match goal with |- ?a = ?a => reflexivity end | apply conj]).

Ltac read_caps m :=
  unfold group_str;
  match goal with H : m_caps m = _ |- _ => rewrite H end;
  unfold set_cap; simpl.

(** What [^(\d{1,2}\s+\w+(?:\s+to\s+\d{1,2}\s+\w+)?)\s+( .* )$] matches. *)
Lemma phrase_line_shape :
  forall ln m, re_match flag_I phrase_line_re ln = Some m ->
    exists n s w ext sp r e,
      ln = n ++ s ++ w ++ ext ++ sp ++ r ++ e /\
      date_phrase n s w ext /\ spaces1 sp /\ no_nl r /\ at_eol e = true /\
      group_str m 1 = n ++ s ++ w ++ ext /\ group_str m 2 = r.
Proof.
  intros ln m H. apply match_D in H. destruct H as (x & aft & -> & H).
  unfold_re H. dD.
  match goal with H : _ \/ _ |- _ => destruct H as [H|H] end; dD; norm_reps.
  - match goal with
    | |- context [(?n ++ ?s ++ ?w ++ ?ext) ++ ?sp ++ ?r ++ []] =>
        exists n, s, w, ext, sp, r, aft
    end.
    read_caps m. unfold date_phrase.
    split; [norm_app; reflexivity|]. conjs.
    match goal with
    | |- _ \/ to_extension (?s1 ++ ?c1 :: ?c2 :: ?s2 ++ ?n2 ++ ?s3 ++ ?w2) =>
        right; exists s1, [c1; c2], s2, n2, s3, w2;
        split; [reflexivity|];
        repeat (first [assumption | apply ci_eq_to | apply conj])
    end.
  - match goal with
    | |- context [(?n ++ ?s ++ ?w ++ []) ++ ?sp ++ ?r ++ []] =>
        exists n, s, w, [], sp, r, aft
    end.
    read_caps m. unfold date_phrase.
    split; [norm_app; reflexivity|]. conjs. now left.
Qed.


Lemma ends_word_app : forall a b, ends_word b -> ends_word (a ++ b).
Proof.
  intros a b (b0 & l & -> & Hl). exists (a ++ b0), l. now rewrite app_assoc.
Qed.

Lemma ends_word_cons : forall c b, ends_word b -> ends_word (c :: b).
Proof. intros c b H. apply (ends_word_app [c] b H). Qed.

Lemma ends_word_digits : forall k x, digits_n (S k) x -> ends_word x.
Proof.
  intros k x (Hd & Hlo & _).
  destruct (exists_last (l:=x)) as (x0 & l & ->).
  - intros ->. simpl in Hlo. lia.
  - apply forallb_app_iff in Hd. destruct Hd as [_ Hd]. simpl in Hd.
    apply andb_true_iff in Hd. destruct Hd as [Hd _].
    exists x0, l. split; auto using digit_is_word.
Qed.

Lemma word_before_ends : forall a b, ends_word a -> word_before (rev a ++ b) = true.
Proof.
  intros a b (a0 & l & -> & Hl). rewrite rev_app_distr. simpl. exact Hl.
Qed.

Ltac ends_word_tac :=
  repeat (first [apply ends_word_app | apply ends_word_cons]);
  eapply ends_word_digits; eassumption.

Lemma word_before_ends_nil :
  forall a b, ends_word a -> word_before (rev [] ++ rev a ++ b) = true.
Proof. intros a b H. simpl. now apply word_before_ends. Qed.

Ltac boundary_after :=
  match goal with
  | H : xorb (word_before ?b) (word_after ?t) = true |- _ =>
      let Hwb := fresh "Hwb" in
      assert (Hwb : word_before b = true)
        by (first [ solve [apply word_before_ends_nil; ends_word_tac]
                  | solve [apply word_before_ends; ends_word_tac] ]);
      rewrite Hwb, xorb_true_l in H; apply negb_true_iff in H;
      rewrite ?app_nil_r in H
  end.

(** What [^(20\d{2}-\d{2}-\d{2})(?:\s+\d{1,2}:\d{2}:\d{2})?\b( .* )$]
    matches. *)
Lemma iso_line_shape :
  forall ln m, re_match no_flags iso_line_re ln = Some m ->
    exists d clk tail e,
      ln = d ++ clk ++ tail ++ e /\
      iso20_token d /\ (clk = [] \/ clock_part clk) /\
      word_after (tail ++ e) = false /\ no_nl tail /\ at_eol e = true /\
      group_str m 1 = d /\ group_str m 2 = tail.
Proof.
  intros ln m H. apply match_D in H. destruct H as (x & aft & -> & H).
  unfold_re H. dD.
  match goal with H : _ \/ _ |- _ => destruct H as [H|H] end; dD; norm_reps;
    repeat match goal with
    | H : Ascii.eqb _ _ = true |- _ => apply Ascii.eqb_eq in H; subst
    end.
  - match goal with
    | H : m_caps m = set_cap 2 ?tail (set_cap 1 ?d no_caps),
      Hb : xorb (word_before (rev ?clk ++ _)) _ = true |- _ =>
        exists d, clk, tail, aft
    end.
    boundary_after. read_caps m.
    split; [norm_app; reflexivity|].
    split; [do 3 eexists; split; [reflexivity|conjs]|].
    split; [right; do 4 eexists; split; [reflexivity|conjs]|].
    conjs.
  - match goal with
    | H : m_caps m = set_cap 2 ?tail (set_cap 1 ?d no_caps) |- _ =>
        exists d, [], tail, aft
    end.
    boundary_after. read_caps m.
    split; [norm_app; reflexivity|].
    split; [do 3 eexists; split; [reflexivity|conjs]|].
    split; [now left|].
    conjs.
Qed.

(** A line the phrase pattern matches is not matched by the anchored ISO
    pattern: its second or third character is whitespace. *)
Lemma phrase_not_iso :
  forall ln m2, re_match flag_I phrase_line_re ln = Some m2 ->
    re_match no_flags iso_line_re ln = None.
Proof.
  intros ln m2 H.
  destruct (re_match no_flags iso_line_re ln) as [m|] eqn:E; auto. exfalso.
  apply phrase_line_shape in H.
  destruct H as (n & s & w & ext & sp & r & e & -> & (Hn & Hs & _) & _).
  apply iso_line_shape in E.
  destruct E as (d & clk & tail & e' & E & (y & mo & dd & -> & Hy & _) & _).
  destruct Hn as (Hn & Hn1 & Hn2), Hs as (Hs0 & Hs), Hy as (Hy & Hy1 & Hy2).
  destruct s as [|c s]; [contradiction|]. simpl in Hs.
  apply andb_true_iff in Hs. destruct Hs as [Hc _].
  destruct y as [|y1 y]; [simpl in Hy1; lia|]. simpl in Hy.
  apply andb_true_iff in Hy. destruct Hy as [Hy _].
  destruct n as [|a [|b [|b' n]]]; simpl in Hn1, Hn2; try lia;
    simpl in E; inversion E; subst.
  - discriminate Hc.
  - apply digit_not_space in Hy. congruence.
Qed.

Lemma phrase_rule_record_parts :
  forall (to_datetime : str -> outcome pdate) (ln : str) (m2 : mstate),
    re_match flag_I phrase_line_re ln = Some m2 ->
    exists ivt,
      _last_numeric_token (re_split no_flags ws_re (group_str m2 2)) = Return ivt /\
      parse_line to_datetime ln =
        Return (Some {| date_raw := group_str m2 1; date_parsed := NoDate;
                        rest := group_str m2 2; IVT := ivt |}).
Proof.
  intros to_datetime ln m2 H.
  destruct (last_numeric_token_returns (re_split no_flags ws_re (group_str m2 2)))
    as (ivt & Hivt).
  exists ivt. split; auto.
  unfold parse_line. rewrite (phrase_not_iso _ _ H), H, Hivt. reflexivity.
Qed.

(** C6: a line matched by the phrase-date rule yields the record of that
    rule: its date text is the matched phrase ([<day> <word>], optionally
    followed by [to <day> <word>]), its parsed date is always [None], its
    remainder is the text after the phrase, and its metric comes from the
    tokens of the remainder.  For "11 Sep to 15 Sep 1191603 1189884 0.00427"
    the date text is "11 Sep to 15 Sep", the parsed date is [None] and the
    metric is 0.00427. *)
Theorem phrase_rule_record :
  forall (to_datetime : str -> outcome pdate) (ln : str) (m2 : mstate),
    re_match flag_I phrase_line_re ln = Some m2 ->
    (exists ivt,
       _last_numeric_token (re_split no_flags ws_re (group_str m2 2)) = Return ivt /\
       parse_line to_datetime ln =
         Return (Some {| date_raw := group_str m2 1; date_parsed := NoDate;
                         rest := group_str m2 2; IVT := ivt |})) /\
    (exists n s w ext, group_str m2 1 = n ++ s ++ w ++ ext /\ date_phrase n s w ext) /\
    parse_line to_datetime (py "11 Sep to 15 Sep 1191603 1189884 0.00427") =
      Return (Some {| date_raw := py "11 Sep to 15 Sep"; date_parsed := NoDate;
                      rest := py "1191603 1189884 0.00427";
                      IVT := Some f_0_00427 |}).
Proof.
  intros to_datetime ln m2 H. split; [|split].
  - now apply phrase_rule_record_parts.
  - apply phrase_line_shape in H.
    destruct H as (n & s & w & ext & sp & r & e & _ & Hp & _ & _ & _ & G1 & _).
    exists n, s, w, ext. auto.
  - vm_compute. reflexivity.
Qed.

Lemma phrase_rule_record_witness :
  exists r, parse_line (fun _ => Return NaT) (py "3 May up 2") = Return (Some r) /\
            date_parsed r = NoDate /\ date_raw r = py "3 May".
Proof.
  destruct (re_match flag_I phrase_line_re (py "3 May up 2")) as [m2|] eqn:E.
  - destruct (phrase_rule_record (fun _ => Return NaT) _ _ E) as [(ivt & _ & Hp) _].
    eexists. split; [exact Hp|]. split; [reflexivity|].
    simpl. vm_compute in E. inversion E. reflexivity.
  - vm_compute in E. discriminate.
Defined.

(** * Lines that begin with a day number and a word *)

Lemma space_not_digit : forall c, is_space c = true -> is_digit c = false.
Proof. intros c. all_chars c. Qed.

Lemma space_not_word : forall c, is_space c = true -> is_word c = false.
Proof. intros c. all_chars c. Qed.

Lemma run_head :
  forall (q : ascii -> bool) x a,
    x <> [] -> forallb q x = true -> exists c a', x ++ a = c :: a' /\ q c = true.
Proof.
  intros q [|c x] a Hne Hx; [contradiction|]. simpl in Hx.
  apply andb_true_iff in Hx. destruct Hx. simpl. eauto.
Qed.

(** [run_unique] where what follows the run starts with a character of a
    class disjoint from the class of the run. *)
Lemma run_unique2 :
  forall (p q : ascii -> bool) x y a b,
    (forall c, q c = true -> p c = false) ->
    forallb p x = true -> forallb p y = true ->
    (a = [] \/ exists c a', a = c :: a' /\ q c = true) ->
    (b = [] \/ exists c b', b = c :: b' /\ q c = true) ->
    x ++ a = y ++ b -> x = y /\ a = b.
Proof.
  intros p q x y a b Hpq Hx Hy Ha Hb E.
  apply (run_unique p x y a b); auto.
  - destruct Ha as [->|(c & a' & -> & Hc)]; eauto 6.
  - destruct Hb as [->|(c & b' & -> & Hc)]; eauto 6.
Qed.

Lemma phrase_line_complete :
  forall n s w sp more,
    day_number n -> spaces1 s -> word1 w -> spaces1 sp -> no_nl more ->
    re_match flag_I phrase_line_re (n ++ s ++ w ++ sp ++ more) <> None.
Proof.
  intros n s w sp more Hn Hs Hw Hsp Hmore.
  rewrite <- (app_nil_r more).
  eapply re_match_complete. unfold_re_goal.
  eapply M_cat; [apply M_bol; reflexivity|].
  eapply M_cat.
  - apply M_group.
    eapply M_cat; [apply M_rep; exact Hn|].
    eapply M_cat; [apply M_rep; apply rep_spaces; exact Hs|].
    eapply M_cat; [apply M_rep; apply rep_word; exact Hw|].
    apply M_opt_none.
  - eapply M_cat; [apply M_rep; apply rep_spaces; exact Hsp|].
    eapply M_cat; [apply M_group; apply M_rep; apply rep_any_line_I; exact Hmore|].
    apply M_eol. reflexivity.
Qed.

(** C10: a line that begins with a one- or two-digit number, whitespace and
    a word, followed by whitespace and more text, is handled by the
    phrase-date rule whatever the word is: the record's date text is the
    number-word prefix, optionally extended by [to <number> <word>], and
    its parsed date is [None]; the embedded-ISO-date rule and the generic
    fallback are not reached. *)
Theorem day_word_line_record :
  forall (to_datetime : str -> outcome pdate) (ln n s w sp more : str),
    ln = n ++ s ++ w ++ sp ++ more ->
    day_number n -> spaces1 s -> word1 w -> spaces1 sp -> no_nl more ->
    exists m2 ext ivt,
      re_match no_flags iso_line_re ln = None /\
      re_match flag_I phrase_line_re ln = Some m2 /\
      (ext = [] \/ to_extension ext) /\
      parse_line to_datetime ln =
        Return (Some {| date_raw := n ++ s ++ w ++ ext; date_parsed := NoDate;
                        rest := group_str m2 2; IVT := ivt |}).
Proof.
  intros to_datetime ln n s w sp more -> Hn Hs Hw Hsp Hmore.
  destruct (re_match flag_I phrase_line_re (n ++ s ++ w ++ sp ++ more)) as [m2|] eqn:E;
    [|exfalso; revert E; now apply phrase_line_complete].
  destruct (phrase_rule_record_parts to_datetime _ _ E) as (ivt & _ & Hp).
  pose proof (phrase_line_shape _ _ E) as Sh.
  destruct Sh as (n' & s' & w' & ext & sp' & r & e & Eln & (Hn' & Hs' & Hw' & Hext) & Hsp' & _ & _ & G1 & _).
  assert (En : n = n' /\ s ++ w ++ sp ++ more = s' ++ w' ++ ext ++ sp' ++ r ++ e).
  { apply (run_unique2 is_digit is_space); auto using space_not_digit.
    - apply Hn.
    - apply Hn'.
    - right. apply run_head; apply Hs.
    - right. apply run_head; apply Hs'. }
  destruct En as [<- Eln1].
  assert (Es : s = s' /\ w ++ sp ++ more = w' ++ ext ++ sp' ++ r ++ e).
  { apply (run_unique2 is_space is_word); auto using word_not_space.
    - apply Hs.
    - apply Hs'.
    - right. apply run_head; apply Hw.
    - right. apply run_head; apply Hw'. }
  destruct Es as [<- Eln2].
  assert (Ew : w = w' /\ sp ++ more = ext ++ sp' ++ r ++ e).
  { apply (run_unique2 is_word is_space); auto using space_not_word.
    - apply Hw.
    - apply Hw'.
    - right. apply run_head; apply Hsp.
    - right. destruct Hext as [->|(s1 & t & s2 & n2 & s3 & w2 & -> & Hs1 & _)].
      + simpl. apply run_head; apply Hsp'.
      + rewrite <- app_assoc. apply run_head; apply Hs1. }
  destruct Ew as [<- _].
  exists m2, ext, ivt. rewrite <- G1.
  repeat split; auto. eapply phrase_not_iso; eauto.
Qed.

Lemma day_word_line_record_witness :
  exists m2 ext ivt,
    re_match no_flags iso_line_re (py "7 apples in 3 boxes") = None /\
    re_match flag_I phrase_line_re (py "7 apples in 3 boxes") = Some m2 /\
    (ext = [] \/ to_extension ext) /\
    parse_line (fun _ => Return NaT) (py "7 apples in 3 boxes") =
      Return (Some {| date_raw := py "7" ++ py " " ++ py "apples" ++ ext;
                      date_parsed := NoDate;
                      rest := group_str m2 2; IVT := ivt |}).
Proof.
  apply (day_word_line_record (fun _ => Return NaT) (py "7 apples in 3 boxes")
           (py "7") (py " ") (py "apples") (py " ") (py "in 3 boxes")).
  - reflexivity.
  - repeat split; simpl; lia.
  - split; [discriminate|reflexivity].
  - split; [discriminate|reflexivity].
  - split; [discriminate|reflexivity].
  - reflexivity.
Defined.

(** * Searching and splitting *)

Section SearchFacts.
Variable fl : flags.
Variable r : regex.

(** What [search_from] returns is the leftmost match at or after the
    cursor. *)
Lemma search_from_sound :
  forall aft bef sk piece m,
    search_from fl r bef aft sk = Some (piece, m) ->
    exists pre x,
      piece = rev sk ++ pre /\
      aft = pre ++ x ++ m_aft m /\
      m_bef m = rev x ++ rev pre ++ bef /\
      D fl r (rev pre ++ bef) x (m_aft m) no_caps (m_caps m) /\
      (forall pre1 pre2, pre = pre1 ++ pre2 -> pre2 <> [] ->
         attempt fl r (rev pre1 ++ bef) (pre2 ++ x ++ m_aft m) = None).
Proof.
  induction aft as [|c aft IH]; intros bef sk piece m H; simpl in H.
  - destruct (attempt fl r bef []) as [m'|] eqn:E; [|discriminate].
    inversion H; subst. apply attempt_D in E.
    destruct E as (x & aft' & E1 & E2 & E3 & E4).
    exists [], x. rewrite app_nil_r. simpl. subst aft'. repeat split; auto.
    intros pre1 pre2 E Hne. symmetry in E. apply app_eq_nil in E.
    destruct E. contradiction.
  - destruct (attempt fl r bef (c :: aft)) as [m'|] eqn:E.
    + inversion H; subst. apply attempt_D in E.
      destruct E as (x & aft' & E1 & E2 & E3 & E4).
      exists [], x. rewrite app_nil_r. simpl. subst aft'. repeat split; auto.
      intros pre1 pre2 E' Hne. symmetry in E'. apply app_eq_nil in E'.
      destruct E'. contradiction.
    + apply IH in H. destruct H as (pre & x & -> & -> & B & HD & Hleft).
      exists (c :: pre), x. simpl. rewrite <- !app_assoc in *. simpl in *.
      repeat split; auto.
      intros pre1 pre2 E' Hne. destruct pre1 as [|c' pre1]; simpl in *.
      * subst pre2. exact E.
      * inversion E'; subst. rewrite <- app_assoc. simpl.
        apply Hleft; auto.
Qed.

Lemma search_from_none :
  forall aft bef sk,
    search_from fl r bef aft sk = None ->
    forall pre1 pre2, aft = pre1 ++ pre2 ->
      attempt fl r (rev pre1 ++ bef) pre2 = None.
Proof.
  induction aft as [|c aft IH]; intros bef sk H pre1 pre2 E; simpl in H.
  - symmetry in E. apply app_eq_nil in E. destruct E as [-> ->]. simpl.
    destruct (attempt fl r bef []); [discriminate|auto].
  - destruct (attempt fl r bef (c :: aft)) eqn:Ea; [discriminate|].
    destruct pre1 as [|c' pre1]; simpl in *.
    + now subst pre2.
    + inversion E; subst. rewrite <- app_assoc. simpl. eapply IH; eauto.
Qed.

(** Every piece of a split is made of characters of the text. *)
Lemma split_loop_chars :
  forall fuel bef aft t,
    In t (split_loop fl fuel r bef aft) -> forall c, In c t -> In c aft.
Proof.
  induction fuel as [|fuel IH]; intros bef aft t Ht c Hc; simpl in Ht.
  - destruct Ht as [<-|[]]. auto.
  - destruct (search_from fl r bef aft []) as [[piece m]|] eqn:E.
    + apply search_from_sound in E.
      destruct E as (pre & x & -> & -> & _).
      destruct Ht as [<-|Ht].
      * simpl in Hc. apply in_or_app. now left.
      * apply in_or_app. right. apply in_or_app. right. eapply IH; eauto.
    + destruct Ht as [<-|[]]. auto.
Qed.

Lemma re_split_chars :
  forall s t, In t (re_split fl r s) -> forall c, In c t -> In c s.
Proof. intros s t. apply split_loop_chars. Qed.
End SearchFacts.

(** * The generic fallback *)

Lemma no_nl_iff : forall x, no_nl x <-> ~ In nl x.
Proof.
  intros x. unfold no_nl. rewrite forallb_forall. split.
  - intros H Hin. specialize (H nl Hin). discriminate.
  - intros H c Hc. destruct (is_nl c) eqn:E; auto.
    apply is_nl_eq in E. subst. contradiction.
Qed.

Lemma tokens_no_nl :
  forall ln, no_nl ln -> forall t, In t (tokens ln) -> ~ In nl t.
Proof.
  intros ln H t Ht Hin. apply no_nl_iff in H. apply H.
  eapply re_split_chars; eauto.
Qed.

Lemma iso_date_D :
  forall bef x aft caps caps',
    D no_flags iso_date_re bef x aft caps caps' -> iso20_token x.
Proof.
  intros bef x aft caps caps' H. unfold_re H. dD. norm_reps.
  repeat match goal with
  | H : Ascii.eqb _ _ = true |- _ => apply Ascii.eqb_eq in H; subst
  end.
  do 3 eexists. split; [reflexivity|conjs].
Qed.

Lemma iso_line_contains :
  forall ln m, re_match no_flags iso_line_re ln = Some m -> contains_iso20 ln.
Proof.
  intros ln m H. apply iso_line_shape in H.
  destruct H as (d & clk & tail & e & -> & Hd & _).
  exists [], d, (clk ++ tail ++ e). auto.
Qed.

Lemma embedded_iso_contains :
  forall ln m, re_search no_flags embedded_iso_re ln = Some m -> contains_iso20 ln.
Proof.
  intros ln m H. unfold re_search in H.
  destruct (search_from no_flags embedded_iso_re [] ln []) as [[piece m']|] eqn:E;
    [|discriminate].
  apply search_from_sound in E.
  destruct E as (pre & x & _ & -> & _ & HD & _).
  unfold embedded_iso_re in HD. destruct HD as (caps1 & HD & _).
  exists pre, x, (m_aft m'). split; auto. eapply iso_date_D; eauto.
Qed.

Lemma phrase_line_begins :
  forall ln m, re_match flag_I phrase_line_re ln = Some m -> begins_with_day_word ln.
Proof.
  intros ln m H. apply phrase_line_shape in H.
  destruct H as (n & s & w & ext & sp & r & e & -> & (Hn & Hs & Hw & Hext) & Hsp & _).
  destruct Hext as [->|(s1 & t & s2 & n2 & s3 & w2 & -> & Hs1 & _)].
  - exists n, s, w, sp, (r ++ e). auto.
  - exists n, s, w, s1, ((t ++ s2 ++ n2 ++ s3 ++ w2) ++ sp ++ r ++ e).
    rewrite <- !app_assoc. auto.
Qed.

(** C7: a line without a date-like pattern (it does not begin with a
    [<day> <word>] phrase and contains no ISO date) yields no record, and
    no error, when none of its tokens matches the numeric-literal grammar,
    as for "Section Header Only"; when some token does, it yields one
    record whose date text is the first 40 characters of the line, followed
    by "..." if the line is longer, whose parsed date is [None], whose
    remainder is the whole line and whose metric is that of the rightmost
    numeric token. *)
Theorem generic_fallback :
  forall (to_datetime : str -> outcome pdate) (ln : str),
    no_nl ln -> ~ date_like ln ->
    ((forall t, In t (tokens ln) -> numeric_literalb t = false) ->
     parse_line to_datetime ln = Return None) /\
    ((exists t, In t (tokens ln) /\ numeric_literalb t = true) ->
     exists v,
       _last_numeric_token (tokens ln) = Return (Some v) /\
       parse_line to_datetime ln =
         Return (Some {| date_raw := firstn 40 ln ++
                                     (if 40 <? length ln then py "..." else []);
                         date_parsed := NoDate; rest := ln; IVT := Some v |})) /\
    parse_line to_datetime (py "Section Header Only") = Return None.
Proof.
  intros to_datetime ln Hnl Hdl.
  assert (R1 : re_match no_flags iso_line_re ln = None).
  { destruct (re_match no_flags iso_line_re ln) eqn:E; auto.
    exfalso. apply Hdl. right. eapply iso_line_contains; eauto. }
  assert (R2 : re_match flag_I phrase_line_re ln = None).
  { destruct (re_match flag_I phrase_line_re ln) eqn:E; auto.
    exfalso. apply Hdl. left. eapply phrase_line_begins; eauto. }
  assert (R3 : re_search no_flags embedded_iso_re ln = None).
  { destruct (re_search no_flags embedded_iso_re ln) eqn:E; auto.
    exfalso. apply Hdl. right. eapply embedded_iso_contains; eauto. }
  assert (P : rightmost_token_result numeric_literalb (tokens ln)).
  { apply last_numeric_token_literal. now apply tokens_no_nl. }
  unfold rightmost_token_result in P.
  split; [|split].
  - intros Hno. unfold parse_line. rewrite R1, R2, R3. fold (tokens ln).
    destruct (find numeric_literalb (rev (tokens ln))) as [t|] eqn:F.
    + apply find_some in F. destruct F as [Hin Ht].
      apply in_rev in Hin. rewrite (Hno t Hin) in Ht. discriminate.
    + rewrite P. reflexivity.
  - intros (t & Hin & Ht). unfold parse_line. rewrite R1, R2, R3. fold (tokens ln).
    destruct (find numeric_literalb (rev (tokens ln))) as [t'|] eqn:F.
    + destruct P as (v & _ & P). exists v. rewrite P. split; reflexivity.
    + apply in_rev in Hin. rewrite (find_none _ _ F t Hin) in Ht. discriminate.
  - vm_compute. reflexivity.
Qed.

Lemma generic_fallback_witness :
  exists v,
    parse_line (fun _ => Return NaT) (py "total 42") =
      Return (Some {| date_raw := py "total 42"; date_parsed := NoDate;
                      rest := py "total 42"; IVT := Some v |}).
Proof.
  destruct (generic_fallback (fun _ => Return NaT) (py "total 42")) as (_ & H & _).
  - reflexivity.
  - intros [(n & s & w & sp & more & E & (Hn & Hn1 & _) & _)|(pre & d & post & E & Hd)].
    + destruct n as [|c n]; [simpl in Hn1; lia|].
      simpl in E. inversion E; subst. simpl in Hn. discriminate.
    + destruct Hd as (y & mo & dd & -> & (_ & Hy & _) & (_ & Hm & _) & (_ & Hdd & _)).
      apply (f_equal (@length ascii)) in E.
      rewrite !length_app in E. simpl in E. rewrite !length_app in E. simpl in E. lia.
  - destruct H as (v & _ & H).
    + exists (py "42"). split; [vm_compute; auto|reflexivity].
    + exists v. exact H.
Defined.

(** * The way the matcher tries first *)

Section FirstPath.
Variable fl : flags.

Lemma rep_greedy_max (R : Type) :
  forall x a lo hi bef aft (k : str -> str -> option R) res,
    forallb (atom_ok fl a) x = true -> lo <= length x -> hi_ok hi (length x) ->
    (aft = [] \/ (exists c aft', aft = c :: aft' /\ atom_ok fl a c = false) \/
     hi = Some (length x)) ->
    k (rev x ++ bef) aft = Some res ->
    rep_greedy fl a lo hi bef (x ++ aft) k = Some res.
Proof.
  induction x as [|c x IH]; intros a lo hi bef aft k res Hx Hlo Hhi Hend Hk.
  - simpl in *. assert (lo = 0) by lia. subst lo.
    destruct Hend as [->|[(c & aft' & -> & Hc)| ->]]; simpl.
    + destruct hi as [[|h]|]; auto.
    + rewrite Hc. destruct hi as [[|h]|]; auto.
    + destruct aft; auto.
  - simpl in Hx. apply andb_true_iff in Hx. destruct Hx as [Hc Hx].
    assert (Hrec : rep_greedy fl a (pred lo) (option_map pred hi) (c :: bef) (x ++ aft) k = Some res).
    { apply IH; auto.
      - simpl in Hlo. lia.
      - destruct hi as [h|]; simpl in *; auto. lia.
      - destruct Hend as [->|[H| ->]]; auto.
      - simpl in Hk. now rewrite <- app_assoc in Hk. }
    simpl. destruct hi as [[|h]|].
    + simpl in Hhi. lia.
    + now rewrite Hc, Hrec.
    + now rewrite Hc, Hrec.
Qed.

Lemma FP_eps : forall bef aft caps, FP fl REps bef [] aft caps caps.
Proof. intros bef aft caps k res H. exact H. Qed.

Lemma FP_atom :
  forall a c bef aft caps, atom_ok fl a c = true -> FP fl (RAtom a) bef [c] aft caps caps.
Proof. intros a c bef aft caps Hc k res H. simpl. rewrite Hc. exact H. Qed.

Lemma FP_rep :
  forall a lo hi x bef aft caps,
    forallb (atom_ok fl a) x = true -> lo <= length x -> hi_ok hi (length x) ->
    (aft = [] \/ (exists c aft', aft = c :: aft' /\ atom_ok fl a c = false) \/
     hi = Some (length x)) ->
    FP fl (RRep a lo hi true) bef x aft caps caps.
Proof.
  intros a lo hi x bef aft caps Hx Hlo Hhi Hend k res H. simpl.
  apply rep_greedy_max; auto.
Qed.

Lemma FP_cat :
  forall r1 r2 bef x1 x2 aft caps caps1 caps',
    FP fl r1 bef x1 (x2 ++ aft) caps caps1 ->
    FP fl r2 (rev x1 ++ bef) x2 aft caps1 caps' ->
    FP fl (RCat r1 r2) bef (x1 ++ x2) aft caps caps'.
Proof.
  intros r1 r2 bef x1 x2 aft caps caps1 caps' H1 H2 k res H.
  unfold FP, first_path in *. simpl.
  rewrite <- app_assoc. apply H1. apply H2.
  rewrite rev_app_distr, <- app_assoc in H. exact H.
Qed.

Lemma FP_group :
  forall i r bef x aft caps caps1,
    FP fl r bef x aft caps caps1 ->
    FP fl (RGroup i r) bef x aft caps (set_cap i x caps1).
Proof.
  intros i r bef x aft caps caps1 H1 k res H. simpl. apply H1. simpl.
  now rewrite consumed_app.
Qed.

Lemma FP_opt_some :
  forall r bef x aft caps caps',
    FP fl r bef x aft caps caps' -> FP fl (ROpt r) bef x aft caps caps'.
Proof.
  intros r bef x aft caps caps' H1 k res H. simpl. now rewrite (H1 k res H).
Qed.

(** The optional group is skipped when it cannot be matched and followed
    by the rest of the pattern. *)
Lemma FP_opt_skip :
  forall r r2 bef x aft caps caps',
    (forall x1 st1 x2 st2,
        M fl r (mk bef (x ++ aft) caps) x1 st1 -> M fl r2 st1 x2 st2 -> False) ->
    FP fl r2 bef x aft caps caps' ->
    FP fl (RCat (ROpt r) r2) bef x aft caps caps'.
Proof.
  intros r r2 bef x aft caps caps' Hno H2 k res H. simpl.
  destruct (run fl r (mk bef (x ++ aft) caps) (fun st1 => run fl r2 st1 k)) eqn:E.
  - exfalso. apply run_sound in E. destruct E as (x1 & st1 & M1 & E).
    apply run_sound in E. destruct E as (x2 & st2 & M2 & _). eauto.
  - apply H2. exact H.
Qed.

Lemma FP_bol : forall aft caps, FP fl RBol [] [] aft caps caps.
Proof. intros aft caps k res H. exact H. Qed.

Lemma FP_eol :
  forall bef aft caps, at_eol aft = true -> FP fl REol bef [] aft caps caps.
Proof. intros bef aft caps Ha k res H. simpl. rewrite Ha. exact H. Qed.

Lemma FP_wordb :
  forall bef aft caps,
    xorb (word_before bef) (word_after aft) = true ->
    FP fl RWordB bef [] aft caps caps.
Proof. intros bef aft caps Ha k res H. simpl. rewrite Ha. exact H. Qed.

Lemma FP_match :
  forall r x aft caps',
    FP fl r [] x aft no_caps caps' ->
    re_match fl r (x ++ aft) = Some (mk (rev x ++ []) aft caps').
Proof. intros r x aft caps' H. apply H. reflexivity. Qed.

Lemma FP_attempt :
  forall r bef x aft caps',
    FP fl r bef x aft no_caps caps' ->
    attempt fl r bef (x ++ aft) = Some (mk (rev x ++ bef) aft caps').
Proof. intros r bef x aft caps' H. apply H. reflexivity. Qed.
End FirstPath.

(** * The ISO-date-anchored rule *)

Lemma FP_digits_n :
  forall fl k x bef aft caps,
    digits_n k x -> FP fl (RRep ADigit k (Some k) true) bef x aft caps caps.
Proof.
  intros fl k x bef aft caps (Hd & Hlo & Hhi).
  apply FP_rep; auto. right. right. f_equal. lia.
Qed.

Lemma FP_iso_date :
  forall d bef aft caps,
    iso20_token d -> FP no_flags iso_date_re bef d aft caps caps.
Proof.
  intros d bef aft caps (y & mo & dd & -> & Hy & Hm & Hdd).
  change (py "20" ++ y ++ "-"%char :: mo ++ "-"%char :: dd)
    with ((["2"%char] ++ ["0"%char] ++ []) ++ y ++ ["-"%char] ++ mo ++ ["-"%char] ++ dd).
  unfold iso_date_re, times, chr. cbn [RSeq RStr py list_ascii_of_string].
  repeat (first [ eapply FP_cat | apply FP_eps | apply FP_atom; reflexivity
                | apply FP_digits_n; assumption ]).
Qed.

Lemma FP_clock :
  forall clk bef aft caps,
    clock_part clk -> FP no_flags clock_re bef clk aft caps caps.
Proof.
  intros clk bef aft caps (s & h & mi & se & -> & (Hs0 & Hs) & (Hh & Hh1 & Hh2) & Hmi & Hse).
  change (s ++ h ++ ":"%char :: mi ++ ":"%char :: se)
    with (s ++ h ++ [":"%char] ++ mi ++ [":"%char] ++ se).
  unfold clock_re, plus, times, chr. cbn [RSeq].
  eapply FP_cat.
  { apply FP_rep; simpl; auto.
    - destruct s; [contradiction|simpl; lia].
    - right. left. rewrite <- app_assoc.
      match goal with
      | |- exists c aft', h ++ ?rest = c :: aft' /\ _ =>
          destruct (run_head is_digit h rest) as (c & a' & E & Hc); auto
      end.
      + intros ->. simpl in Hh1. lia.
      + rewrite E. exists c, a'. split; auto. now apply digit_not_space. }
  eapply FP_cat.
  { apply FP_rep; simpl; auto. right. left. do 2 eexists. split; reflexivity. }
  repeat (first [ eapply FP_cat | apply FP_atom; reflexivity
                | apply FP_digits_n; assumption ]).
Qed.

Lemma clock_ends_word : forall clk, clock_part clk -> ends_word clk.
Proof.
  intros clk (s & h & mi & se & -> & _ & _ & _ & Hse).
  repeat (first [apply ends_word_app | apply ends_word_cons]).
  eapply ends_word_digits; eassumption.
Qed.

Lemma iso20_ends_word : forall d, iso20_token d -> ends_word d.
Proof.
  intros d (y & mo & dd & -> & _ & _ & Hdd).
  repeat (first [apply ends_word_app | apply ends_word_cons]).
  eapply ends_word_digits; eassumption.
Qed.

(** The clock time is taken when a word boundary follows it. *)
Lemma iso_line_with_clock :
  forall d clk tail,
    iso20_token d -> clock_part clk -> word_after tail = false -> no_nl tail ->
    exists m, re_match no_flags iso_line_re (d ++ clk ++ tail) = Some m /\
              group_str m 1 = d /\ group_str m 2 = tail.
Proof.
  intros d clk tail Hd Hclk Hb Hnl.
  assert (F : FP no_flags iso_line_re [] ([] ++ d ++ clk ++ [] ++ tail ++ []) []
                no_caps (set_cap 2 tail (set_cap 1 d no_caps))).
  { unfold iso_line_re, star. cbn [RSeq].
    eapply FP_cat; [apply FP_bol|].
    eapply FP_cat; [apply FP_group, FP_iso_date; auto|].
    eapply FP_cat; [apply FP_opt_some, FP_clock; auto|].
    eapply FP_cat.
    { apply FP_wordb. rewrite !app_nil_r, Hb.
      rewrite word_before_ends; auto using clock_ends_word. }
    eapply FP_cat; [|apply FP_eol; reflexivity].
    apply FP_group, FP_rep; simpl; auto with arith. }
  apply FP_match in F. simpl in F. rewrite !app_nil_r in F.
  eexists. split; [exact F|]. split; reflexivity.
Qed.

Lemma clock_D :
  forall bef x aft caps caps',
    D no_flags clock_re bef x aft caps caps' -> clock_part x.
Proof.
  intros bef x aft caps caps' H. unfold_re H. dD. norm_reps.
  repeat match goal with
  | H : Ascii.eqb _ _ = true |- _ => apply Ascii.eqb_eq in H; subst
  end.
  do 4 eexists. split; [reflexivity|conjs].
Qed.

(** Without a clock time followed by a word boundary the optional group is
    skipped. *)
Lemma iso_line_without_clock :
  forall d rest0,
    iso20_token d -> word_after rest0 = false -> no_nl rest0 ->
    ~ clock_followed rest0 ->
    exists m, re_match no_flags iso_line_re (d ++ rest0) = Some m /\
              group_str m 1 = d /\ group_str m 2 = rest0.
Proof.
  intros d rest0 Hd Hb Hnl Hno.
  assert (F : FP no_flags iso_line_re [] ([] ++ d ++ [] ++ rest0 ++ []) []
                no_caps (set_cap 2 rest0 (set_cap 1 d no_caps))).
  { unfold iso_line_re, star. cbn [RSeq].
    eapply FP_cat; [apply FP_bol|].
    eapply FP_cat; [apply FP_group, FP_iso_date; auto|].
    apply FP_opt_skip.
    { intros x1 st1 x2 st2 M1 M2.
      destruct (M_span _ _ _ _ _ M1) as [A B]. apply M_D, clock_D in M1.
      simpl in A, B.
      destruct (M_span _ _ _ _ _ M2) as [A2 _]. apply M_D in M2.
      destruct M2 as (y1 & y2 & caps1 & -> & (-> & Hx & _) & _).
      simpl in A2. rewrite <- A2, B in Hx.
      rewrite (word_before_ends x1 _ (clock_ends_word _ M1)) in Hx.
      rewrite xorb_true_l in Hx. apply negb_true_iff in Hx.
      apply Hno. exists x1, (m_aft st1). rewrite !app_nil_r in A. auto. }
    eapply FP_cat.
    { apply FP_wordb. rewrite !app_nil_r, Hb.
      rewrite <- (app_nil_r (rev d)), word_before_ends; auto using iso20_ends_word. }
    eapply FP_cat; [|apply FP_eol; reflexivity].
    apply FP_group, FP_rep; simpl; auto with arith. }
  apply FP_match in F. simpl in F. rewrite !app_nil_r in F.
  eexists. split; [exact F|]. split; reflexivity.
Qed.

(** ** The lines of a section *)

Lemma dropwhile_chars :
  forall p s c, In c (dropwhile p s) -> In c s.
Proof.
  intros p. induction s as [|a s IH]; simpl; auto.
  intros c. destruct (p a); auto.
Qed.

Lemma strip_chars : forall s c, In c (strip s) -> In c s.
Proof.
  intros s c H. unfold strip in H.
  apply in_rev, dropwhile_chars, in_rev, dropwhile_chars in H. exact H.
Qed.

Lemma nl_linebreak : is_linebreak nl = true.
Proof. reflexivity. Qed.

Lemma splitlines_aux_no_nl :
  forall n s cur l,
    length s <= n -> ~ In nl cur -> In l (splitlines_aux cur s) -> ~ In nl l.
Proof.
  induction n as [|n IH]; intros s cur l Hlen Hcur Hl.
  - destruct s; [|simpl in Hlen; lia]. simpl in Hl.
    destruct cur; [contradiction|]. destruct Hl as [<-|[]].
    intros H. apply Hcur. now apply in_rev.
  - destruct s as [|c s].
    + simpl in Hl. destruct cur; [contradiction|]. destruct Hl as [<-|[]].
      intros H. apply Hcur. now apply in_rev.
    + simpl in Hlen. simpl in Hl.
      assert (Hrev : ~ In nl (rev cur)) by (intros H; apply Hcur; now apply in_rev).
      destruct (Ascii.eqb c cr) eqn:Ecr.
      * destruct s as [|c' s].
        -- destruct Hl as [<-|Hl]; auto.
        -- destruct (Ascii.eqb c' nl).
           ++ destruct Hl as [<-|Hl]; auto.
              apply (IH s [] l); auto. simpl in Hlen. lia.
           ++ destruct Hl as [<-|Hl]; auto.
              apply (IH (c' :: s) [] l); auto. lia.
      * destruct (is_linebreak c) eqn:Elb.
        -- destruct Hl as [<-|Hl]; auto.
           apply (IH s [] l); auto. lia.
        -- apply (IH s (c :: cur) l); auto; [lia|].
           intros [->|H]; auto. rewrite nl_linebreak in Elb. discriminate.
Qed.

Lemma section_lines_no_nl :
  forall text ln, In ln (section_lines text) -> no_nl ln.
Proof.
  intros text ln H. unfold section_lines in H.
  apply filter_In in H. destruct H as [H _].
  apply in_map_iff in H. destruct H as (l & <- & Hl).
  apply no_nl_iff. intros Hin. apply strip_chars in Hin.
  revert Hin. eapply (splitlines_aux_no_nl (length text)); eauto.
  intros [].
Qed.

Lemma parse_line_returns :
  forall to_datetime ln, exists o, parse_line to_datetime ln = Return o.
Proof.
  intros td ln. unfold parse_line.
  destruct (re_match no_flags iso_line_re ln).
  - match goal with |- context [_last_numeric_token ?t] =>
      destruct (last_numeric_token_returns t) as (v & ->) end. simpl. eauto.
  - destruct (re_match flag_I phrase_line_re ln).
    + match goal with |- context [_last_numeric_token ?t] =>
        destruct (last_numeric_token_returns t) as (v & ->) end. simpl. eauto.
    + destruct (re_search no_flags embedded_iso_re ln).
      * match goal with |- context [_last_numeric_token ?t] =>
          destruct (last_numeric_token_returns t) as (v & ->) end. simpl. eauto.
      * match goal with |- context [_last_numeric_token ?t] =>
          destruct (last_numeric_token_returns t) as (v & ->) end. simpl.
        destruct v; eauto.
Qed.

(** The rows returned hold the record of every line that has one. *)
Lemma parse_lines_rows :
  forall to_datetime lns rows0,
    exists rows,
      parse_lines to_datetime lns rows0 = Return rows /\
      (forall r, In r rows0 -> In r rows) /\
      (forall ln r, In ln (filter nonemptyb (map strip lns)) ->
                    parse_line to_datetime ln = Return (Some r) -> In r rows).
Proof.
  intros td. induction lns as [|l lns IH]; intros rows0; simpl.
  - exists rows0. repeat split; auto. intros ln r [].
  - destruct (strip l) as [|c s] eqn:E.
    + simpl. destruct (IH rows0) as (rows & H1 & H2 & H3). exists rows. auto.
    + destruct (parse_line_returns td (c :: s)) as (o & Ho). rewrite Ho. simpl.
      destruct (IH (match o with Some x => rows0 ++ [x] | None => rows0 end))
        as (rows & H1 & H2 & H3).
      exists rows. split; auto. split.
      * intros r Hr. apply H2. destruct o; auto. apply in_or_app. now left.
      * intros ln r [<-|Hln] Hp; eauto.
        rewrite Ho in Hp. inversion Hp; subst.
        apply H2. apply in_or_app. right. now left.
Qed.

Lemma parse_daily_lines_rows :
  forall to_datetime text,
    exists rows,
      parse_daily_lines_to_rows to_datetime text = Return rows /\
      (forall ln r, In ln (section_lines text) ->
                    parse_line to_datetime ln = Return (Some r) -> In r rows).
Proof.
  intros td text.
  destruct (parse_lines_rows td (splitlines text) []) as (rows & H1 & _ & H3).
  exists rows. split; auto.
Qed.

Lemma last_numeric_value_spec :
  forall toks : list str, (forall t, In t toks -> ~ In nl t) ->
    _last_numeric_token toks = Return (last_numeric_value toks).
Proof.
  intros toks H.
  pose proof (last_numeric_token_literal toks H) as R.
  unfold rightmost_token_result in R. unfold last_numeric_value.
  revert R. destruct (find numeric_literalb (rev toks)); auto.
  intros (v & -> & R). exact R.
Qed.

Lemma rest_tokens_no_nl :
  forall rem, no_nl rem -> forall t, In t (rest_tokens rem) -> ~ In nl t.
Proof.
  intros rem H t Ht. destruct rem as [|c rem]; [contradiction|].
  eapply tokens_no_nl; eauto.
Qed.

Lemma no_nl_app : forall x y, no_nl (x ++ y) <-> no_nl x /\ no_nl y.
Proof. intros x y. unfold no_nl. apply forallb_app_iff. Qed.

Lemma no_nl_strip : forall x, no_nl x -> no_nl (strip x).
Proof.
  intros x H. apply no_nl_iff. apply no_nl_iff in H.
  intros Hin. apply H. now apply strip_chars.
Qed.

(** The record of the first rule, from what the anchored pattern
    captured. *)
Lemma iso_rule_record :
  forall to_datetime ln m d tail,
    re_match no_flags iso_line_re ln = Some m ->
    group_str m 1 = d -> group_str m 2 = tail -> no_nl tail ->
    parse_line to_datetime ln = Return (Some (iso_record to_datetime d (strip tail))).
Proof.
  intros td ln m d tail Hm G1 G2 Hnl. unfold parse_line. rewrite Hm, G1, G2.
  fold (tokens (strip tail)). fold (rest_tokens (strip tail)).
  rewrite last_numeric_value_spec; [reflexivity|].
  apply rest_tokens_no_nl. now apply no_nl_strip.
Qed.

Lemma iso20_length : forall d, iso20_token d -> length d = 10.
Proof.
  intros d (y & mo & dd & -> & (_ & Hy1 & Hy2) & (_ & Hm1 & Hm2) & (_ & Hd1 & Hd2)).
  rewrite length_app. simpl. rewrite length_app. simpl. rewrite length_app. simpl. lia.
Qed.

Lemma app_same_length :
  forall (x y a b : str), x ++ a = y ++ b -> length x = length y -> x = y /\ a = b.
Proof.
  induction x as [|c x IH]; intros [|d y] a b E L; simpl in *; try discriminate; auto.
  inversion E; subst. destruct (IH y a b H1) as [-> ->]; auto.
Qed.

(** The anchored pattern matches every line that begins with a date token
    [20YY-MM-DD] followed by a word boundary. *)
Lemma iso_line_complete :
  forall d rest0,
    iso20_token d -> word_after rest0 = false -> no_nl rest0 ->
    re_match no_flags iso_line_re (d ++ rest0) <> None.
Proof.
  intros d rest0 (y & mo & dd & -> & Hy & Hm & Hdd) Hb Hnl.
  norm_app. rewrite <- (app_nil_r rest0).
  eapply re_match_complete. unfold_re_goal.
  eapply M_cat; [apply M_bol; reflexivity|].
  eapply M_cat.
  { apply M_group.
    eapply M_cat; [eapply M_cat; [apply M_atom; reflexivity|]|].
    { eapply M_cat; [apply M_atom; reflexivity|apply M_eps]. }
    eapply M_cat; [apply M_rep; exact Hy|].
    eapply M_cat; [apply M_atom; reflexivity|].
    eapply M_cat; [apply M_rep; exact Hm|].
    eapply M_cat; [apply M_atom; reflexivity|].
    apply M_rep; exact Hdd. }
  eapply M_cat; [apply M_opt_none|].
  eapply M_cat.
  { apply M_wordb. cbn [m_bef m_aft]. rewrite app_nil_r, Hb, word_before_ends; auto.
    eapply ends_word_digits; eauto. }
  eapply M_cat.
  - apply M_group. apply M_rep. apply rep_any_line. exact Hnl.
  - apply M_eol. reflexivity.
Qed.

(** C1 (as stated): the line "1999-12-31 0.5" of a section begins with a
    [YYYY-MM-DD] token, but the first rule does not take it (its pattern
    asks for a year that starts with 20): the record produced, by the
    generic fallback, has the whole line as its date text. *)
Lemma first_rule_misses_1999 :
  In (py "1999-12-31 0.5") (section_lines (py "1999-12-31 0.5")) /\
  ~ first_rule_claim ymd_token (fun _ => Return NaT) (py "1999-12-31 0.5").
Proof.
  split; [vm_compute; auto|].
  intros H.
  destruct (H (py "1999-12-31") (py " 0.5")) as (r & Hr & Hd).
  - reflexivity.
  - exists (py "1999"), (py "12"), (py "31").
    split; [reflexivity|]. repeat split; simpl; lia.
  - reflexivity.
  - vm_compute in Hr. inversion Hr; subst. simpl in Hd. discriminate.
Qed.

(** C1 (amended): for every non-empty line of a section that begins with a
    date token [20YY-MM-DD] (a year from 2000 to 2099), the first rule
    produces exactly one record, which is among the rows returned.  Its date
    text is that token.  When a clock time followed by a word boundary comes
    next, the clock time is discarded and the remainder is the rest of the
    line after it, stripped; otherwise the remainder is the rest of the line
    after the token, stripped.  Its metric is the float of the last token of
    the remainder that matches the numeric-literal grammar, or [None] if no
    token matches.  For "2025-09-12 0:00:00 foo bar 0.00427" the date text
    is "2025-09-12" and the metric is 0.00427. *)
Theorem iso_anchored_rule :
  forall (to_datetime : str -> outcome pdate) (text ln d rest0 : str),
    In ln (section_lines text) -> ln = d ++ rest0 -> iso20_token d ->
    (forall clk tail,
        rest0 = clk ++ tail -> clock_part clk -> word_after tail = false ->
        parse_line to_datetime ln =
          Return (Some (iso_record to_datetime d (strip tail)))) /\
    (word_after rest0 = false -> ~ clock_followed rest0 ->
     parse_line to_datetime ln =
       Return (Some (iso_record to_datetime d (strip rest0)))) /\
    first_rule_claim iso20_token to_datetime ln /\
    (forall r, parse_line to_datetime ln = Return (Some r) ->
       exists rows, parse_daily_lines_to_rows to_datetime text = Return rows /\
                    In r rows) /\
    parse_line to_datetime (py "2025-09-12 0:00:00 foo bar 0.00427") =
      Return (Some {| date_raw := py "2025-09-12";
                      date_parsed := _try_parse_date to_datetime (py "2025-09-12");
                      rest := py "foo bar 0.00427"; IVT := Some f_0_00427 |}).
Proof.
  intros td text ln d rest0 Hin -> Hd.
  pose proof (section_lines_no_nl _ _ Hin) as Hnl.
  apply no_nl_app in Hnl. destruct Hnl as [_ Hnl].
  split; [|split; [|split; [|split]]].
  - intros clk tail -> Hclk Hb.
    apply no_nl_app in Hnl. destruct Hnl as [_ Hnl].
    destruct (iso_line_with_clock d clk tail Hd Hclk Hb Hnl) as (m & Hm & G1 & G2).
    eapply iso_rule_record; eauto.
  - intros Hb Hno.
    destruct (iso_line_without_clock d rest0 Hd Hb Hnl Hno) as (m & Hm & G1 & G2).
    eapply iso_rule_record; eauto.
  - intros d' rest0' E Hd' Hb'.
    assert (Hnl' : no_nl rest0').
    { assert (N : no_nl (d' ++ rest0')) by (rewrite <- E; apply no_nl_app; split; auto;
        apply (proj1 (no_nl_app d rest0)); eapply section_lines_no_nl; eauto).
      apply no_nl_app in N. tauto. }
    rewrite E.
    destruct (re_match no_flags iso_line_re (d' ++ rest0')) as [m|] eqn:Em;
      [|exfalso; revert Em; now apply iso_line_complete].
    pose proof (iso_line_shape _ _ Em) as Sh.
    destruct Sh as (d2 & clk & tail & e & Eln & Hd2 & _ & _ & Hnl2 & _ & G1 & G2).
    destruct (app_same_length _ _ _ _ Eln) as [<- _].
    { now rewrite !iso20_length. }
    exists (iso_record td d' (strip tail)). split; [|reflexivity].
    eapply iso_rule_record; eauto.
  - intros r Hr. destruct (parse_daily_lines_rows td text) as (rows & H1 & H2).
    exists rows. split; auto. eapply H2; eauto.
  - vm_compute. reflexivity.
Qed.

Lemma iso_anchored_rule_witness :
  parse_line (fun _ => Return NaT) (py "2025-09-12 0:00:00 foo bar 0.00427") =
    Return (Some (iso_record (fun _ => Return NaT) (py "2025-09-12")
                    (strip (py " foo bar 0.00427")))).
Proof.
  destruct (iso_anchored_rule (fun _ => Return NaT)
              (py "2025-09-12 0:00:00 foo bar 0.00427")
              (py "2025-09-12 0:00:00 foo bar 0.00427")
              (py "2025-09-12") (py " 0:00:00 foo bar 0.00427")) as (H & _).
  - vm_compute. auto.
  - reflexivity.
  - exists (py "25"), (py "09"), (py "12").
    split; [reflexivity|]. repeat split; simpl; lia.
  - apply (H (py " 0:00:00") (py " foo bar 0.00427")).
    + reflexivity.
    + exists (py " "), (py "0"), (py "00"), (py "00").
      split; [reflexivity|]. repeat split; simpl; try lia; discriminate.
    + reflexivity.
Defined.

(** * The block segmenter *)

Lemma eqb_str_refl : forall a, eqb_str a a = true.
Proof.
  intros a. unfold eqb_str. rewrite Nat.eqb_refl. simpl.
  induction a as [|c a IH]; simpl; auto. now rewrite Ascii.eqb_refl.
Qed.

Lemma split_nl_aux_later :
  forall a cur s l,
    In l (split_nl_aux [] s) -> In l (split_nl_aux cur (a ++ nl :: s)).
Proof.
  induction a as [|c a IH]; intros cur s l H; simpl.
  - replace (is_nl nl) with true by reflexivity. now right.
  - destruct (is_nl c); [right|]; apply IH; auto.
Qed.

Lemma split_nl_aux_line :
  forall l cur b, no_nl l ->
    split_nl_aux cur (l ++ nl :: b) = (rev cur ++ l) :: split_nl_aux [] b.
Proof.
  induction l as [|c l IH]; intros cur b H; simpl.
  - replace (is_nl nl) with true by reflexivity. now rewrite app_nil_r.
  - unfold no_nl in H. simpl in H. apply andb_true_iff in H. destruct H as [Hc H].
    apply negb_true_iff in Hc. rewrite Hc, IH; auto. simpl.
    now rewrite <- app_assoc.
Qed.

(** A text between two line feeds that holds no line feed is a line. *)
Lemma split_nl_between :
  forall a l b, no_nl l -> In l (split_nl (a ++ nl :: l ++ nl :: b)).
Proof.
  intros a l b H. unfold split_nl. apply split_nl_aux_later.
  rewrite split_nl_aux_line; auto. now left.
Qed.

(** Whitespace cut after its last line feed. *)
Lemma spaces_last_nl :
  forall w, forallb is_space w = true ->
    exists wa wb, w = wa ++ wb /\ no_nl wb /\ forallb is_space wb = true /\
                  (wa = [] \/ exists wa', wa = wa' ++ [nl]).
Proof.
  induction w as [|c w IH]; intros H.
  - exists [], []. repeat split; auto.
  - simpl in H. apply andb_true_iff in H. destruct H as [Hc H].
    destruct (IH H) as (wa & wb & -> & Hnl & Hsp & Hwa).
    destruct Hwa as [->|(wa' & ->)].
    + destruct (is_nl c) eqn:E.
      * apply is_nl_eq in E. subst c. exists [nl], wb. repeat split; auto.
        right. exists []. reflexivity.
      * exists [], (c :: wb). repeat split; auto.
        -- unfold no_nl in *. simpl. now rewrite E, Hnl.
        -- simpl. now rewrite Hc, Hsp.
    + exists (c :: wa' ++ [nl]), wb. repeat split; auto.
      right. exists (c :: wa'). reflexivity.
Qed.

(** Whitespace cut before its first line feed. *)
Lemma spaces_first_nl :
  forall w, forallb is_space w = true ->
    exists wa wb, w = wa ++ wb /\ no_nl wa /\ forallb is_space wa = true /\
                  (wb = [] \/ exists wb', wb = nl :: wb').
Proof.
  induction w as [|c w IH]; intros H.
  - exists [], []. repeat split; auto.
  - simpl in H. apply andb_true_iff in H. destruct H as [Hc H].
    destruct (is_nl c) eqn:E.
    + apply is_nl_eq in E. subst c. exists [], (nl :: w). repeat split; auto.
      right. eauto.
    + destruct (IH H) as (wa & wb & -> & Hnl & Hsp & Hwb).
      exists (c :: wa), wb. repeat split; auto.
      * unfold no_nl in *. simpl. now rewrite E, Hnl.
      * simpl. now rewrite Hc, Hsp.
Qed.

Lemma dropwhile_spaces :
  forall a c s, forallb is_space a = true -> is_space c = false ->
    dropwhile is_space (a ++ c :: s) = c :: s.
Proof.
  induction a as [|x a IH]; intros c s Ha Hc; simpl in *.
  - now rewrite Hc.
  - apply andb_true_iff in Ha. destruct Ha as [Hx Ha]. rewrite Hx. auto.
Qed.

Lemma forallb_rev :
  forall (p : ascii -> bool) x, forallb p (rev x) = forallb p x.
Proof.
  intros p. induction x as [|c x IH]; simpl; auto.
  rewrite forallb_app, IH. simpl. rewrite andb_true_r. apply andb_comm.
Qed.

(** Stripping removes the whitespace around a text that begins and ends
    with characters that are not whitespace. *)
Lemma strip_around :
  forall a b core c s' s0 l,
    forallb is_space a = true -> forallb is_space b = true ->
    core = c :: s' -> core = s0 ++ [l] ->
    is_space c = false -> is_space l = false ->
    strip (a ++ core ++ b) = core.
Proof.
  intros a b core c s' s0 l Ha Hb E1 E2 Hc Hl. unfold strip.
  rewrite E1 at 1. simpl. rewrite dropwhile_spaces; auto.
  change (c :: s' ++ b) with ((c :: s') ++ b). rewrite <- E1, E2.
  rewrite rev_app_distr, rev_app_distr. simpl.
  rewrite dropwhile_spaces; auto; [|now rewrite forallb_rev].
  simpl. now rewrite rev_involutive.
Qed.

Lemma lower_nl : forall c, Ascii.eqb (lower c) (lower nl) = true -> c = nl.
Proof. intros c. all_chars c. Qed.

Lemma space_lower : forall c, is_space (lower c) = is_space c.
Proof. intros c. all_chars c. Qed.

Lemma nl_lower : forall c, is_nl (lower c) = is_nl c.
Proof. intros c. all_chars c. Qed.

Lemma ci_not_space :
  forall c p, Ascii.eqb (lower c) (lower p) = true -> is_space p = false ->
    is_space c = false.
Proof.
  intros c p H Hp. apply Ascii.eqb_eq in H.
  now rewrite <- space_lower, H, space_lower.
Qed.

Lemma ci_not_nl :
  forall c p, Ascii.eqb (lower c) (lower p) = true -> is_nl p = false ->
    is_nl c = false.
Proof.
  intros c p H Hp. apply Ascii.eqb_eq in H.
  now rewrite <- nl_lower, H, nl_lower.
Qed.

Lemma ci_forall2 :
  forall P s, Forall2 (fun c p => atom_ok flag_I (AChr p) c = true) P s -> ci_eq P s.
Proof.
  induction 1; unfold ci_eq in *; simpl; auto.
  apply Ascii.eqb_eq in H. now rewrite H, IHForall2.
Qed.

Lemma ci_forall2_no_nl :
  forall P s, Forall2 (fun c p => atom_ok flag_I (AChr p) c = true) P s ->
    no_nl s -> no_nl P.
Proof.
  induction 1; intros Hs; auto. unfold no_nl in *. simpl in *.
  apply andb_true_iff in Hs. destruct Hs as [Hy Hs].
  apply negb_true_iff in Hy. rewrite (ci_not_nl _ _ H Hy). simpl. auto.
Qed.

(** What [\n\s*Total Data\s*\n] matches. *)
Lemma delim_D :
  forall bef x aft caps caps',
    D flag_I delim_re bef x aft caps caps' ->
    exists w1 P w2,
      x = nl :: w1 ++ P ++ w2 ++ [nl] /\
      forallb is_space w1 = true /\ forallb is_space w2 = true /\
      Forall2 (fun c p => atom_ok flag_I (AChr p) c = true) P (py "Total Data").
Proof.
  intros bef x aft caps caps' H.
  unfold delim_re, star, chr in H. cbn [RSeq] in H.
  destruct H as (x1 & r1 & c1 & -> & [(c & -> & Hc) ->] & H).
  destruct H as (w1 & r2 & c2 & -> & [Hw1 ->] & H).
  destruct H as (P & r3 & c3 & -> & HP & H). apply D_RStr in HP.
  destruct HP as [HP ->].
  destruct H as (w2 & r4 & c4 & -> & [Hw2 ->] & H).
  destruct H as [(c' & -> & Hc') ->].
  apply lower_nl in Hc, Hc'. subst.
  exists w1, P, w2. repeat split; auto.
  - apply Hw1.
  - apply Hw2.
Qed.

Lemma phrase_ends :
  forall P, Forall2 (fun c p => atom_ok flag_I (AChr p) c = true) P (py "Total Data") ->
    exists c s' s0 l, P = c :: s' /\ P = s0 ++ [l] /\
                      is_space c = false /\ is_space l = false.
Proof.
  intros P H.
  repeat match goal with
  | H : Forall2 _ _ (py _) |- _ => inversion H; subst; clear H
  | H : Forall2 _ _ (_ :: _) |- _ => inversion H; subst; clear H
  | H : Forall2 _ _ [] |- _ => inversion H; subst; clear H
  end.
  match goal with
  | |- exists c s' s0 l, [?a; ?b; ?c3; ?d; ?e; ?f; ?g; ?h; ?i; ?j] = _ /\ _ =>
      exists a, [b; c3; d; e; f; g; h; i; j], [a; b; c3; d; e; f; g; h; i], j
  end.
  repeat split;
    match goal with
    | H : atom_ok flag_I (AChr ?p) ?x = true |- is_space ?x = false =>
        exact (ci_not_space x p H eq_refl)
    end.
Qed.

(** A match of the delimiter pattern holds a line that consists of the
    delimiter phrase. *)
Lemma delim_match_line :
  forall text pre x post bef aft caps caps',
    text = pre ++ x ++ post ->
    D flag_I delim_re bef x aft caps caps' ->
    exists l, In l (split_nl text) /\ is_phrase_line (py "Total Data") l = true.
Proof.
  intros text pre x post bef aft caps caps' -> H.
  apply delim_D in H. destruct H as (w1 & P & w2 & -> & Hw1 & Hw2 & HP).
  destruct (spaces_last_nl w1 Hw1) as (w1a & w1b & -> & Hnl1 & Hsp1 & Hw1a).
  destruct (spaces_first_nl w2 Hw2) as (w2a & w2b & -> & Hnl2 & Hsp2 & Hw2b).
  exists (w1b ++ P ++ w2a). split.
  - assert (Hl : no_nl (w1b ++ P ++ w2a)).
    { apply no_nl_app. split; auto. apply no_nl_app. split; auto.
      eapply ci_forall2_no_nl; eauto. reflexivity. }
    assert (E : exists a b,
               pre ++ (nl :: (w1a ++ w1b) ++ P ++ (w2a ++ w2b) ++ [nl]) ++ post =
               a ++ nl :: (w1b ++ P ++ w2a) ++ nl :: b).
    { destruct Hw1a as [->|(wa' & ->)], Hw2b as [->|(wb' & ->)].
      - exists pre, post. norm_app. reflexivity.
      - exists pre, (wb' ++ nl :: post). norm_app. reflexivity.
      - exists (pre ++ nl :: wa'), post. norm_app. reflexivity.
      - exists (pre ++ nl :: wa'), (wb' ++ nl :: post). norm_app. reflexivity. }
    destruct E as (a & b & ->). now apply split_nl_between.
  - unfold is_phrase_line.
    destruct (phrase_ends P HP) as (c & s' & s0 & l & E1 & E2 & Hc & Hl).
    rewrite (strip_around w1b w2a P c s' s0 l); auto.
    rewrite (ci_forall2 _ _ HP). apply eqb_str_refl.
Qed.

(** C9: a non-empty text that has no line consisting of the delimiter
    phrase is returned whole, as the only block; nothing is raised and the
    list of blocks is not empty. *)
Theorem no_delimiter_single_block :
  forall text : str,
    text <> [] -> delimiter_line_count text = 0 ->
    split_app_blocks text = [text].
Proof.
  intros text _ H0. unfold split_app_blocks, re_split. simpl split_loop.
  destruct (search_from flag_I delim_re [] text []) as [[piece m]|] eqn:E.
  - exfalso. apply search_from_sound in E.
    destruct E as (pre & x & _ & E & _ & HD & _).
    destruct (delim_match_line text pre x (m_aft m) _ _ _ _ E HD) as (l & Hin & Hl).
    unfold delimiter_line_count in H0.
    assert (Hf : In l (filter (is_phrase_line (py "Total Data")) (split_nl text)))
      by (apply filter_In; auto).
    destruct (filter _ _); [contradiction|discriminate].
  - reflexivity.
Qed.

Lemma no_delimiter_single_block_witness :
  split_app_blocks (py "Report" ++ nl :: py "no headings here") =
    [py "Report" ++ nl :: py "no headings here"].
Proof.
  apply no_delimiter_single_block.
  - discriminate.
  - vm_compute. reflexivity.
Defined.

(** ** Splitting at the matches of a pattern *)

Lemma D_context :
  forall fl r bef x aft caps caps' bef' aft',
    ctx_free r = true ->
    D fl r bef x aft caps caps' -> D fl r bef' x aft' caps caps'.
Proof.
  intros fl. induction r; simpl; intros bef x aft caps caps' bef' aft' Hc H;
    try discriminate; auto.
  - apply andb_true_iff in Hc. destruct Hc as [Hc1 Hc2].
    destruct H as (x1 & x2 & caps1 & -> & H1 & H2).
    exists x1, x2, caps1. split; auto. split; eauto.
  - destruct H as [H|H]; eauto.
  - destruct H as (caps1 & H & ->). eauto.
Qed.

Section SplitFacts.
Variable fl : flags.
Variable r : regex.
Hypothesis r_ctx_free : ctx_free r = true.
Hypothesis r_nonempty :
  forall bef x aft caps caps', D fl r bef x aft caps caps' -> x <> [].

(** An attempt fails wherever it fails with more text around. *)
Lemma attempt_none_context :
  forall bef aft bef' more,
    attempt fl r bef (aft ++ more) = None -> attempt fl r bef' aft = None.
Proof.
  intros bef aft bef' more H.
  destruct (attempt fl r bef' aft) as [m|] eqn:E; auto. exfalso.
  apply attempt_D in E. destruct E as (x & aft1 & -> & _ & _ & HD).
  apply (D_context fl r _ _ _ _ _ bef (aft1 ++ more) r_ctx_free) in HD.
  apply D_attempt in HD. rewrite <- app_assoc in H. contradiction.
Qed.

Lemma attempt_none_end : forall bef, attempt fl r bef [] = None.
Proof.
  intros bef. destruct (attempt fl r bef []) as [m|] eqn:E; auto. exfalso.
  apply attempt_D in E. destruct E as (x & aft1 & E & _ & _ & HD).
  apply r_nonempty in HD. symmetry in E. apply app_eq_nil in E. tauto.
Qed.

Lemma search_from_none_intro :
  forall aft bef sk,
    (forall pre1 pre2, aft = pre1 ++ pre2 -> attempt fl r (rev pre1 ++ bef) pre2 = None) ->
    search_from fl r bef aft sk = None.
Proof.
  induction aft as [|c aft IH]; intros bef sk H; cbn [search_from].
  - pose proof (H [] [] eq_refl) as H0. cbn [rev List.app] in H0. now rewrite H0.
  - pose proof (H [] (c :: aft) eq_refl) as H0. cbn [rev List.app] in H0.
    rewrite H0. apply IH.
    intros pre1 pre2 E. specialize (H (c :: pre1) pre2). cbn [rev List.app] in H.
    rewrite <- app_assoc in H. apply H. now rewrite E.
Qed.

(** The pieces and the matches of one scan: the text is the first piece
    followed by the matches and the other pieces in turn, and no piece
    holds a match. *)
Lemma split_findall :
  forall fuel bef aft,
    length aft < fuel ->
    exists p0 ps,
      split_loop fl fuel r bef aft = p0 :: ps /\
      length ps = length (findall_loop fuel fl r bef aft) /\
      aft = p0 ++ weave (findall_loop fuel fl r bef aft) ps /\
      (forall b, In b (p0 :: ps) -> re_search fl r b = None) /\
      (forall d, In d (findall_loop fuel fl r bef aft) ->
         exists bef' aft' caps', D fl r bef' d aft' no_caps caps').
Proof.
  induction fuel as [|fuel IH]; intros bef aft Hlen; [lia|]. simpl.
  destruct (search_from fl r bef aft []) as [[piece m]|] eqn:E.
  - apply search_from_sound in E.
    destruct E as (pre & x & -> & Eaft & Ebef & HD & Hleft). simpl.
    assert (Hx : x <> []) by (eapply r_nonempty; eauto).
    assert (Hlen' : length (m_aft m) < fuel).
    { rewrite Eaft, !length_app in Hlen. destruct x; [contradiction|]. simpl in Hlen. lia. }
    destruct (IH (m_bef m) (m_aft m) Hlen') as (p0 & ps & Es & El & Ew & Hb & Hd).
    rewrite Es. exists pre, (p0 :: ps).
    assert (Ec : consumed (rev pre ++ bef) (m_bef m) = x)
      by (rewrite Ebef; apply consumed_app).
    rewrite Ec. split; auto. split; [simpl; lia|]. split; [|split].
    + simpl. rewrite <- Ew. exact Eaft.
    + intros b [<-|Hin]; [|now apply Hb].
      unfold re_search. rewrite search_from_none_intro; auto.
      intros pre1 pre2 ->. destruct pre2 as [|c pre2].
      * apply attempt_none_end.
      * eapply attempt_none_context. apply (Hleft pre1 (c :: pre2)); auto.
        discriminate.
    + intros d [<-|Hin]; eauto.
  - exists aft, []. repeat split; auto.
    + now rewrite app_nil_r.
    + intros b [<-|[]]. unfold re_search. rewrite search_from_none_intro; auto.
      intros pre1 pre2 ->.
      eapply attempt_none_context with (more := []). rewrite app_nil_r.
      eapply search_from_none; eauto.
    + intros d [].
Qed.
End SplitFacts.

Lemma delim_nonempty :
  forall bef x aft caps caps', D flag_I delim_re bef x aft caps caps' -> x <> [].
Proof.
  intros bef x aft caps caps' H. apply delim_D in H.
  destruct H as (w1 & P & w2 & -> & _). discriminate.
Qed.

(** C3: the segmenter misses a delimiter line that comes right after
    another one.  In "intro\nTotal Data\nTotal Data\nbody" the delimiter
    phrase stands on a line of its own twice, but the match of the first
    line takes the line feed that the second one needs: one block is
    returned, not two, and it begins with the delimiter phrase. *)
Theorem two_delimiter_lines_one_block :
  split_app_blocks
    (py "intro" ++ nl :: py "Total Data" ++ nl :: py "Total Data" ++ nl :: py "body")
  = [py "Total Data" ++ nl :: py "body"] /\
  delimiter_line_count
    (py "intro" ++ nl :: py "Total Data" ++ nl :: py "Total Data" ++ nl :: py "body")
  = 2 /\
  ~ segmenter_claim delimiter_line_count
      (py "intro" ++ nl :: py "Total Data" ++ nl :: py "Total Data" ++ nl :: py "body").
Proof.
  split; [vm_compute; reflexivity|]. split; [vm_compute; reflexivity|].
  unfold segmenter_claim. intros H.
  assert (H1 : 1 <= delimiter_line_count
             (py "intro" ++ nl :: py "Total Data" ++ nl :: py "Total Data" ++ nl :: py "body"))
    by (vm_compute; lia).
  destruct (H H1) as [E _]. vm_compute in E. discriminate.
Qed.

(** X21: the blocks as the scan finds them.  When the scan for the
    delimiter pattern (a line feed, optional whitespace, the phrase in any
    case, optional whitespace, a line feed) finds k >= 1 matches, one after
    the other without overlap, the segmenter returns exactly k blocks: the
    texts that follow the matches, in document order, so that the document
    is the discarded header followed by the matches and the blocks in
    turn.  No block holds a match of the pattern. *)
Theorem blocks_follow_matches :
  forall text : str,
    1 <= length (delimiter_matches text) ->
    length (split_app_blocks text) = length (delimiter_matches text) /\
    (exists header,
        text = header ++ weave (delimiter_matches text) (split_app_blocks text)) /\
    (forall b, In b (split_app_blocks text) -> re_search flag_I delim_re b = None) /\
    (forall d, In d (delimiter_matches text) ->
       exists w1 P w2,
         d = nl :: w1 ++ P ++ w2 ++ [nl] /\
         forallb is_space w1 = true /\ forallb is_space w2 = true /\
         ci_eq P (py "Total Data")).
Proof.
  intros text Hk.
  destruct (split_findall flag_I delim_re eq_refl delim_nonempty
              (S (length text)) [] text) as (p0 & ps & Es & El & Ew & Hb & Hd); [lia|].
  fold (re_findall flag_I delim_re text) in El, Ew, Hd.
  fold (delimiter_matches text) in El, Ew, Hd.
  fold (re_split flag_I delim_re text) in Es.
  assert (Eb : split_app_blocks text = ps).
  { unfold split_app_blocks. rewrite Es. simpl length.
    destruct ps; [simpl in El; lia|]. reflexivity. }
  rewrite Eb. split; auto. split; [eauto|]. split.
  - intros b Hin. apply Hb. now right.
  - intros d Hin. destruct (Hd d Hin) as (bef' & aft' & caps' & HD).
    apply delim_D in HD. destruct HD as (w1 & P & w2 & E & H1 & H2 & HP).
    exists w1, P, w2. repeat split; auto. now apply ci_forall2.
Qed.

Lemma blocks_follow_matches_witness :
  split_app_blocks
    (py "intro" ++ nl :: py "Total Data" ++ nl :: py "A" ++ nl :: py "total data "
       ++ nl :: py "B") = [py "A"; py "B"] /\
  length (split_app_blocks
    (py "intro" ++ nl :: py "Total Data" ++ nl :: py "A" ++ nl :: py "total data "
       ++ nl :: py "B")) = 2.
Proof.
  split; [vm_compute; reflexivity|].
  destruct (blocks_follow_matches
    (py "intro" ++ nl :: py "Total Data" ++ nl :: py "A" ++ nl :: py "total data "
       ++ nl :: py "B")) as (H & _).
  - vm_compute. lia.
  - rewrite H. vm_compute. reflexivity.
Defined.

(** * The section locator *)

Abbreviation ci_match P s :=
  (Forall2 (fun c p => Ascii.eqb (lower c) (lower p) = true) P s).

Lemma ci_prefixb_iff :
  forall phrase s,
    ci_prefixb phrase s = true <->
    exists P b, s = P ++ b /\ ci_match P phrase.
Proof.
  induction phrase as [|p phrase IH]; intros s; simpl.
  - split; [intros _; exists [], s; auto|auto].
  - destruct s as [|c s].
    + split; [discriminate|]. intros (P & b & E & H). inversion H; subst. discriminate.
    + rewrite andb_true_iff, IH. split.
      * intros (Hc & P & b & -> & HP). exists (c :: P), b. auto.
      * intros (P & b & E & H). inversion H; subst. inversion E; subst. eauto.
Qed.

Lemma ci_match_length : forall P s, ci_match P s -> length P = length s.
Proof. induction 1; simpl; auto. Qed.

Lemma find_ci_aux_none :
  forall phrase s bef, find_ci_aux phrase bef s = None ->
    forall a b, s = a ++ b -> ci_prefixb phrase b = false.
Proof.
  intros phrase. induction s as [|c s IH]; intros bef H a b E.
  - symmetry in E. apply app_eq_nil in E. destruct E as [-> ->].
    simpl in H. destruct (ci_prefixb phrase []); [discriminate|auto].
  - simpl in H. destruct (ci_prefixb phrase (c :: s)) eqn:Ep; [discriminate|].
    destruct a as [|c' a]; simpl in E.
    + now subst b.
    + inversion E; subst. eapply IH; eauto.
Qed.

Lemma find_ci_aux_some :
  forall phrase s bef a b, find_ci_aux phrase bef s = Some (a, b) ->
    exists pre P, a = rev bef ++ pre /\ s = pre ++ P ++ b /\ ci_match P phrase /\
      (forall a1 a2, pre = a1 ++ a2 -> a2 <> [] ->
         ci_prefixb phrase (a2 ++ P ++ b) = false).
Proof.
  intros phrase. induction s as [|c s IH]; intros bef a b H.
  - simpl in H. destruct (ci_prefixb phrase []) eqn:Ep; [|discriminate].
    inversion H; subst. apply ci_prefixb_iff in Ep.
    destruct Ep as (P & b' & E & HP). symmetry in E. apply app_eq_nil in E.
    destruct E as [-> ->]. exists [], []. rewrite app_nil_r.
    rewrite <- (ci_match_length _ _ HP). simpl.
    split; [reflexivity|]. split; [reflexivity|]. split; [assumption|].
    intros a1 a2 E. symmetry in E. apply app_eq_nil in E. tauto.
  - cbn [find_ci_aux] in H. destruct (ci_prefixb phrase (c :: s)) eqn:Ep.
    + inversion H; subst. apply ci_prefixb_iff in Ep.
      destruct Ep as (P & b' & E & HP). exists [], P. rewrite app_nil_r.
      rewrite E, <- (ci_match_length _ _ HP), skipn_app, skipn_all, Nat.sub_diag.
      simpl. split; [reflexivity|]. split; [reflexivity|]. split; [assumption|].
      intros a1 a2 E'. symmetry in E'. apply app_eq_nil in E'. tauto.
    + apply IH in H. destruct H as (pre & P & -> & -> & HP & Hmin).
      exists (c :: pre), P. simpl. rewrite <- app_assoc.
      split; [reflexivity|]. split; [reflexivity|]. split; [assumption|].
      intros a1 a2 E Hne. destruct a1 as [|c' a1]; simpl in E.
      * subst a2. exact Ep.
      * inversion E; subst. apply (Hmin a1 a2); auto.
Qed.

Lemma find_ci_none :
  forall phrase s, find_ci phrase s = None ->
    forall a b, s = a ++ b -> ci_prefixb phrase b = false.
Proof. intros phrase s. apply find_ci_aux_none. Qed.

Lemma find_ci_some :
  forall phrase s a b, find_ci phrase s = Some (a, b) ->
    exists P, s = a ++ P ++ b /\ ci_match P phrase /\
      (forall a1 a2, a = a1 ++ a2 -> a2 <> [] ->
         ci_prefixb phrase (a2 ++ P ++ b) = false).
Proof.
  intros phrase s a b H. apply find_ci_aux_some in H.
  destruct H as (pre & P & -> & -> & HP & Hmin). exists P. auto.
Qed.

(** Two ways of cutting one text: the shorter front is a front of the
    longer one. *)
Lemma app_cut :
  forall (u v x y : str), u ++ x = v ++ y -> length v <= length u ->
    exists l, u = v ++ l /\ y = l ++ x.
Proof.
  induction u as [|c u IH]; intros v x y E L.
  - destruct v; [|simpl in L; lia]. exists []. auto.
  - destruct v as [|d v].
    + exists (c :: u). auto.
    + simpl in *. inversion E; subst. destruct (IH v x y H1) as (l & -> & ->); [lia|].
      exists l. auto.
Qed.

Lemma FP_str :
  forall fl s P bef aft caps,
    Forall2 (fun c p => atom_ok fl (AChr p) c = true) P s ->
    FP fl (RStr s) bef P aft caps caps.
Proof.
  intros fl. induction s as [|p s IH]; intros P bef aft caps H; inversion H; subst.
  - apply FP_eps.
  - simpl. change (x :: l) with ([x] ++ l).
    eapply FP_cat; [apply FP_atom; auto|]. apply IH. auto.
Qed.

(** ** Repetitions that give characters back, and lazy repetitions *)

Section Backtracking.
Variable fl : flags.

Lemma rep_greedy_base (R : Type) :
  forall y a bef aft (k : str -> str -> option R),
    forallb (atom_ok fl a) y = true ->
    (aft = [] \/ exists c aft', aft = c :: aft' /\ atom_ok fl a c = false) ->
    (forall y1 y2, y = y1 ++ y2 -> y1 <> [] ->
       k (rev y1 ++ bef) (y2 ++ aft) = None) ->
    rep_greedy fl a 0 None bef (y ++ aft) k = k bef (y ++ aft).
Proof.
  induction y as [|c y IH]; intros a bef aft k Hy Hend Hno.
  - simpl. destruct Hend as [->|(c & aft' & -> & Hc)]; simpl; auto.
    now rewrite Hc.
  - simpl in Hy. apply andb_true_iff in Hy. destruct Hy as [Hc Hy].
    cbn [rep_greedy List.app option_map]. rewrite Hc.
    change (Init.Nat.pred 0) with 0. rewrite IH; auto.
    + pose proof (Hno [c] y eq_refl) as H0. cbn [rev List.app] in H0.
      rewrite H0; [reflexivity|discriminate].
    + intros y1 y2 -> Hne. specialize (Hno (c :: y1) y2 eq_refl).
      cbn [rev] in Hno. rewrite <- app_assoc in Hno. apply Hno. discriminate.
Qed.

Lemma rep_greedy_backtrack (R : Type) :
  forall x y a bef aft (k : str -> str -> option R) res,
    forallb (atom_ok fl a) x = true -> forallb (atom_ok fl a) y = true ->
    (aft = [] \/ exists c aft', aft = c :: aft' /\ atom_ok fl a c = false) ->
    (forall y1 y2, y = y1 ++ y2 -> y1 <> [] ->
       k (rev (x ++ y1) ++ bef) (y2 ++ aft) = None) ->
    k (rev x ++ bef) (y ++ aft) = Some res ->
    rep_greedy fl a 0 None bef (x ++ y ++ aft) k = Some res.
Proof.
  induction x as [|c x IH]; intros y a bef aft k res Hx Hy Hend Hno Hk.
  - simpl in *. rewrite rep_greedy_base; auto.
  - simpl in Hx. apply andb_true_iff in Hx. destruct Hx as [Hc Hx].
    cbn [rep_greedy List.app option_map]. rewrite Hc.
    change (Init.Nat.pred 0) with 0. rewrite (IH y a (c :: bef) aft k res); auto.
    + intros y1 y2 E Hne. specialize (Hno y1 y2 E Hne).
      cbn [List.app rev] in Hno. now rewrite <- app_assoc in Hno.
    + cbn [rev] in Hk. now rewrite <- app_assoc in Hk.
Qed.

Lemma rep_lazy_first (R : Type) :
  forall x a bef aft (k : str -> str -> option R) res,
    forallb (atom_ok fl a) x = true ->
    (forall x1 x2, x = x1 ++ x2 -> x2 <> [] ->
       k (rev x1 ++ bef) (x2 ++ aft) = None) ->
    k (rev x ++ bef) aft = Some res ->
    rep_lazy fl a 0 None bef (x ++ aft) k = Some res.
Proof.
  induction x as [|c x IH]; intros a bef aft k res Hx Hno Hk.
  - simpl in *. destruct aft; simpl; now rewrite Hk.
  - simpl in Hx. apply andb_true_iff in Hx. destruct Hx as [Hc Hx].
    cbn [rep_lazy List.app option_map].
    pose proof (Hno [] (c :: x) eq_refl) as H0. cbn [rev List.app] in H0.
    rewrite H0; [|discriminate]. rewrite Hc.
    change (Init.Nat.pred 0) with 0. apply IH; auto.
    + intros x1 x2 -> Hne. specialize (Hno (c :: x1) x2 eq_refl).
      cbn [rev] in Hno. rewrite <- app_assoc in Hno. now apply Hno.
    + cbn [rev] in Hk. now rewrite <- app_assoc in Hk.
Qed.

(** A greedy repetition stops after [x], although the characters of [y]
    could be taken too, when the rest of the pattern cannot be matched
    further on. *)
Lemma FP_rep_back :
  forall a x y T r2 bef x2 aft caps caps',
    forallb (atom_ok fl a) x = true -> forallb (atom_ok fl a) y = true ->
    (T = [] \/ exists c T', T = c :: T' /\ atom_ok fl a c = false) ->
    x2 ++ aft = y ++ T ->
    (forall y1 y2 xx st', y = y1 ++ y2 -> y1 <> [] ->
       ~ M fl r2 (mk (rev (x ++ y1) ++ bef) (y2 ++ T) caps) xx st') ->
    FP fl r2 (rev x ++ bef) x2 aft caps caps' ->
    FP fl (RCat (RRep a 0 None true) r2) bef (x ++ x2) aft caps caps'.
Proof.
  intros a x y T r2 bef x2 aft caps caps' Hx Hy Hend E Hno H2 k res Hk.
  cbn [run m_bef m_aft m_caps].
  rewrite <- app_assoc, E. apply rep_greedy_backtrack; auto.
  - intros y1 y2 Ey Hne.
    destruct (run fl r2 (mk (rev (x ++ y1) ++ bef) (y2 ++ T) caps) k) eqn:Er; auto.
    exfalso. apply run_sound in Er. destruct Er as (xx & st' & HM & _).
    eapply Hno; eauto.
  - rewrite <- E. apply H2. rewrite rev_app_distr, <- app_assoc in Hk. exact Hk.
Qed.

(** A lazy group ends at the first place where the rest of the pattern
    can be matched. *)
Lemma FP_group_lazy :
  forall i a x r2 bef x3 aft caps caps',
    forallb (atom_ok fl a) x = true ->
    (forall x1 x2 xx st', x = x1 ++ x2 -> x2 <> [] ->
       ~ M fl r2 (mk (rev x1 ++ bef) (x2 ++ x3 ++ aft) (set_cap i x1 caps)) xx st') ->
    FP fl r2 (rev x ++ bef) x3 aft (set_cap i x caps) caps' ->
    FP fl (RCat (RGroup i (RRep a 0 None false)) r2) bef (x ++ x3) aft caps caps'.
Proof.
  intros i a x r2 bef x3 aft caps caps' Hx Hno H2 k res Hk.
  cbn [run m_bef m_aft m_caps].
  rewrite <- app_assoc. apply rep_lazy_first; auto.
  - intros x1 x2 Ex Hne. rewrite consumed_app.
    destruct (run fl r2 (mk (rev x1 ++ bef) (x2 ++ x3 ++ aft) (set_cap i x1 caps)) k) eqn:Er; auto.
    exfalso. apply run_sound in Er. destruct Er as (xx & st' & HM & _).
    eapply Hno; eauto.
  - rewrite consumed_app. apply H2.
    rewrite rev_app_distr, <- app_assoc in Hk. exact Hk.
Qed.

(** The search passes over the places where no attempt succeeds. *)
Lemma search_from_first :
  forall r pre bef rest sk m,
    (forall pre1 pre2, pre = pre1 ++ pre2 -> pre2 <> [] ->
       attempt fl r (rev pre1 ++ bef) (pre2 ++ rest) = None) ->
    attempt fl r (rev pre ++ bef) rest = Some m ->
    search_from fl r bef (pre ++ rest) sk = Some (rev sk ++ pre, m).
Proof.
  intros r. induction pre as [|c pre IH]; intros bef rest sk m Hno Hm.
  - cbn [rev List.app] in *. rewrite app_nil_r.
    destruct rest; cbn [search_from]; now rewrite Hm.
  - cbn [List.app search_from].
    pose proof (Hno [] (c :: pre) eq_refl) as H0. cbn [rev List.app] in H0.
    rewrite H0; [|discriminate].
    rewrite (IH (c :: bef) rest (c :: sk) m).
    + cbn [rev]. now rewrite <- app_assoc.
    + intros pre1 pre2 -> Hne. specialize (Hno (c :: pre1) pre2 eq_refl).
      cbn [rev] in Hno. rewrite <- app_assoc in Hno. now apply Hno.
    + cbn [rev] in Hm. now rewrite <- app_assoc in Hm.
Qed.
End Backtracking.

(** ** The two patterns of [find_daily_section] *)

Lemma all_any_dotall : forall x, forallb (atom_ok flag_SI AAny) x = true.
Proof. induction x; simpl; auto. Qed.

Lemma lower_nl_SI : forall c, atom_ok flag_SI (AChr nl) c = true -> c = nl.
Proof. intros c H. now apply lower_nl. Qed.

(** What [Daily Data\s*\n(.*?)\n\s*Hourly Data] matches. *)
Lemma daily_hourly_D :
  forall bef x aft caps caps',
    D flag_SI daily_hourly_re bef x aft caps caps' ->
    exists Dp w grp w' Hp,
      x = Dp ++ w ++ nl :: grp ++ nl :: w' ++ Hp /\
      ci_match Dp (py "Daily Data") /\ forallb is_space w = true /\
      forallb is_space w' = true /\ ci_match Hp (py "Hourly Data") /\
      caps' = set_cap 1 grp caps.
Proof.
  intros bef x aft caps caps' H.
  unfold daily_hourly_re, star, star_lazy, chr in H. cbn [RSeq] in H.
  destruct H as (Dp & r1 & c1 & -> & HD & H). apply D_RStr in HD.
  destruct HD as [HD ->].
  destruct H as (w & r2 & c2 & -> & [Hw ->] & H).
  destruct H as (n1 & r3 & c3 & -> & [(c & -> & Hc) ->] & H).
  destruct H as (grp & r4 & c4 & -> & (c5 & [_ ->] & ->) & H).
  destruct H as (n2 & r5 & c6 & -> & [(c' & -> & Hc') ->] & H).
  destruct H as (w' & Hp & c7 & -> & [Hw' ->] & H). apply D_RStr in H.
  destruct H as [HH ->].
  apply lower_nl_SI in Hc, Hc'. subst.
  exists Dp, w, grp, w', Hp. split; [reflexivity|].
  split; [exact HD|]. split; [apply Hw|]. split; [apply Hw'|]. split; [exact HH|reflexivity].
Qed.

(** What [Daily Data\s*\n( .* )] matches. *)
Lemma daily_D :
  forall bef x aft caps caps',
    D flag_SI daily_re bef x aft caps caps' ->
    exists Dp w grp,
      x = Dp ++ w ++ nl :: grp /\
      ci_match Dp (py "Daily Data") /\ forallb is_space w = true /\
      caps' = set_cap 1 grp caps.
Proof.
  intros bef x aft caps caps' H.
  unfold daily_re, star, chr in H. cbn [RSeq] in H.
  destruct H as (Dp & r1 & c1 & -> & HD & H). apply D_RStr in HD.
  destruct HD as [HD ->].
  destruct H as (w & r2 & c2 & -> & [Hw ->] & H).
  destruct H as (n1 & grp & c3 & -> & [(c & -> & Hc) ->] & H).
  destruct H as (c5 & [_ ->] & ->).
  apply lower_nl_SI in Hc. subst.
  exists Dp, w, grp. split; [reflexivity|].
  split; [exact HD|]. split; [apply Hw|reflexivity].
Qed.

Lemma ci_prefix_app :
  forall P phrase b, ci_match P phrase -> ci_prefixb phrase (P ++ b) = true.
Proof. intros P phrase b H. apply ci_prefixb_iff. eauto. Qed.

Lemma daily_hourly_attempt_phrase :
  forall bef t m, attempt flag_SI daily_hourly_re bef t = Some m ->
    ci_prefixb (py "Daily Data") t = true.
Proof.
  intros bef t m H. apply attempt_D in H.
  destruct H as (x & aft & -> & _ & _ & H). apply daily_hourly_D in H.
  destruct H as (Dp & w & grp & w' & Hp & -> & HD & _).
  rewrite <- app_assoc. now apply ci_prefix_app.
Qed.

Lemma daily_attempt_phrase :
  forall bef t m, attempt flag_SI daily_re bef t = Some m ->
    ci_prefixb (py "Daily Data") t = true.
Proof.
  intros bef t m H. apply attempt_D in H.
  destruct H as (x & aft & -> & _ & _ & H). apply daily_D in H.
  destruct H as (Dp & w & grp & -> & HD & _).
  rewrite <- app_assoc. now apply ci_prefix_app.
Qed.

Lemma no_phrase_no_match :
  forall block : str,
    find_ci (py "Daily Data") block = None ->
    re_search flag_SI daily_hourly_re block = None /\
    re_search flag_SI daily_re block = None.
Proof.
  intros block H. unfold re_search.
  rewrite !search_from_none_intro; auto.
  - intros pre1 pre2 E.
    destruct (attempt flag_SI daily_re (rev pre1 ++ []) pre2) eqn:Ea; auto.
    apply daily_attempt_phrase in Ea.
    rewrite (find_ci_none _ _ H pre1 pre2 E) in Ea. discriminate.
  - intros pre1 pre2 E.
    destruct (attempt flag_SI daily_hourly_re (rev pre1 ++ []) pre2) eqn:Ea; auto.
    apply daily_hourly_attempt_phrase in Ea.
    rewrite (find_ci_none _ _ H pre1 pre2 E) in Ea. discriminate.
Qed.

(** X1: a block of characters below U+0100 (the texts of this model, on
    which [re.IGNORECASE] folds the letters of the phrase as ASCII) that
    holds the phrase "Daily Data" in no ASCII letter case has an empty
    section. *)
Theorem section_without_start :
  forall block : str,
    find_ci (py "Daily Data") block = None -> find_daily_section block = [].
Proof.
  intros block H. unfold find_daily_section.
  destruct (no_phrase_no_match block H) as [H1 H2].
  rewrite H1, H2. reflexivity.
Qed.

Lemma section_without_start_witness :
  find_daily_section (py "Hourly Data" ++ nl :: py "00:00 12") = [].
Proof. apply section_without_start. vm_compute. reflexivity. Defined.

(** A successful search is a successful attempt at some cursor. *)
Lemma search_from_attempt :
  forall fl r aft bef sk piece m,
    search_from fl r bef aft sk = Some (piece, m) ->
    exists pre rest,
      aft = pre ++ rest /\ attempt fl r (rev pre ++ bef) rest = Some m.
Proof.
  intros fl r. induction aft as [|c aft IH]; intros bef sk piece m H;
    cbn [search_from] in H.
  - destruct (attempt fl r bef []) as [m'|] eqn:E; [|discriminate].
    inversion H; subst. exists [], []. auto.
  - destruct (attempt fl r bef (c :: aft)) as [m'|] eqn:E.
    + inversion H; subst. exists [], (c :: aft). auto.
    + apply IH in H. destruct H as (pre & rest & -> & H).
      exists (c :: pre), rest. cbn [rev List.app]. rewrite <- app_assoc.
      auto.
Qed.

(** A greedy star over characters that all fit, before a continuation
    that cannot fail, takes the rest of the text. *)
Lemma rep_greedy_all :
  forall fl a (k : str -> str -> option mstate) aft bef,
    forallb (atom_ok fl a) aft = true ->
    (forall b a', k b a' <> None) ->
    rep_greedy fl a 0 None bef aft k = k (rev aft ++ bef) [].
Proof.
  intros fl a k. induction aft as [|c aft IH]; intros bef Hall Hk.
  - reflexivity.
  - cbn [forallb] in Hall. apply andb_true_iff in Hall.
    destruct Hall as [Hc Hall]. cbn [rep_greedy pred option_map].
    rewrite Hc, IH by auto. cbn [rev]. rewrite <- app_assoc.
    cbn [List.app].
    destruct (k (rev aft ++ c :: bef) []) eqn:E; [reflexivity|].
    now apply Hk in E.
Qed.

(** The second pattern of [find_daily_section] ends with a greedy group:
    a match of it runs to the end of the text. *)
Lemma daily_attempt_end :
  forall bef aft m,
    attempt flag_SI daily_re bef aft = Some m -> m_aft m = [].
Proof.
  intros bef aft m H. unfold attempt, daily_re in H. cbn [RSeq] in H.
  cbn [run] in H.
  apply run_sound in H. destruct H as (x1 & st1 & _ & H).
  apply run_sound in H. destruct H as (x2 & st2 & _ & H).
  apply run_sound in H. destruct H as (x3 & st3 & _ & H).
  unfold star in H. cbn [run] in H.
  rewrite rep_greedy_all in H.
  - inversion H. reflexivity.
  - apply all_any_dotall.
  - intros b a' E. discriminate.
Qed.

(** X2: for a block of characters below U+0100, the result of
    [find_daily_section] is empty or stands in the block right after a
    "Daily Data" heading (in any ASCII letter case) that closes its line,
    and runs to the end of the block or to the line feed before an
    "Hourly Data" heading. *)
Theorem section_follows_heading :
  forall block : str,
    find_daily_section block = [] \/
    exists pre Dp w post,
      block = pre ++ Dp ++ w ++ nl :: find_daily_section block ++ post /\
      ci_match Dp (py "Daily Data") /\ forallb is_space w = true /\
      (post = [] \/
       exists w' Hp rest2,
         post = nl :: w' ++ Hp ++ rest2 /\
         forallb is_space w' = true /\ ci_match Hp (py "Hourly Data")).
Proof.
  intros block. unfold find_daily_section, re_search.
  destruct (search_from flag_SI daily_hourly_re [] block []) as [[piece m]|] eqn:E1.
  - right. apply search_from_sound in E1.
    destruct E1 as (pre & x & _ & -> & _ & HD & _). apply daily_hourly_D in HD.
    destruct HD as (Dp & w & grp & w' & Hp & -> & HDp & Hw & Hw' & HHp & Hc).
    cbn [option_map snd]. unfold group_str. rewrite Hc. unfold set_cap.
    cbn [Nat.eqb].
    exists pre, Dp, w, (nl :: w' ++ Hp ++ m_aft m).
    split; [repeat (rewrite <- ?app_assoc; cbn [List.app]); reflexivity|].
    split; auto. split; auto.
    right. exists w', Hp, (m_aft m). auto.
  - cbn [option_map].
    destruct (search_from flag_SI daily_re [] block []) as [[piece m]|] eqn:E2.
    + right. pose proof E2 as E3. apply search_from_attempt in E3.
      destruct E3 as (pre0 & rest0 & _ & E3). apply daily_attempt_end in E3.
      apply search_from_sound in E2.
      destruct E2 as (pre & x & _ & -> & _ & HD & _). apply daily_D in HD.
      destruct HD as (Dp & w & grp & -> & HDp & Hw & Hc).
      cbn [option_map snd]. unfold group_str. rewrite Hc. unfold set_cap.
      cbn [Nat.eqb]. rewrite E3.
      exists pre, Dp, w, [].
      split; [repeat (rewrite <- ?app_assoc; cbn [List.app]); reflexivity|].
      split; auto.
    + left. reflexivity.
Qed.

(** ** Where the section starts and ends *)

Lemma M_text :
  forall fl r bef aft caps xx st',
    M fl r (mk bef aft caps) xx st' ->
    exists aft', aft = xx ++ aft' /\ D fl r bef xx aft' caps (m_caps st').
Proof.
  intros fl r bef aft caps xx st' H.
  destruct (M_span _ _ _ _ _ H) as [A _]. apply M_D in H.
  cbn [m_bef m_aft m_caps] in *. eauto.
Qed.

(** A pattern that begins with a line feed does not match at another
    character. *)
Lemma no_M_line_feed :
  forall r bef aft caps xx st',
    (forall c t, aft = c :: t -> is_nl c = false) ->
    ~ M flag_SI (RCat (RAtom (AChr nl)) r) (mk bef aft caps) xx st'.
Proof.
  intros r bef aft caps xx st' Hhd H. apply M_text in H.
  destruct H as (aft' & -> & H). cbn [D] in H.
  destruct H as (x1 & x2 & caps1 & -> & [(c & -> & Hc) _] & _).
  apply lower_nl_SI in Hc. subst c.
  specialize (Hhd nl (x2 ++ aft') eq_refl). vm_compute in Hhd. discriminate.
Qed.

(** After the line feed that ends the heading line, the next line feed
    comes after a character that is not whitespace. *)
Lemma head_after_blank :
  forall h y1 y2 t,
    nl :: h = y1 ++ y2 -> y1 <> [] -> no_nl h ->
    (t = [] \/ exists c t', t = c :: t' /\ is_space c = false) ->
    forall c r, y2 ++ t = c :: r -> is_nl c = false.
Proof.
  intros h y1 y2 t E Hne Hnl Ht c r Ec.
  destruct y1 as [|a y1]; [contradiction|]. inversion E; subst.
  destruct y2 as [|c0 y2]; cbn [List.app] in Ec.
  - destruct Ht as [->|(c1 & t' & -> & Hc1)]; [discriminate|].
    inversion Ec; subst. destruct (is_nl c) eqn:En; auto.
    apply nl_is_space in En. congruence.
  - inversion Ec; subst. unfold no_nl in Hnl.
    rewrite forallb_app in Hnl. apply andb_true_iff in Hnl.
    destruct Hnl as [_ Hnl]. cbn [forallb] in Hnl.
    apply andb_true_iff in Hnl. destruct Hnl as [Hnl _].
    now apply negb_true_iff in Hnl.
Qed.

(** A phrase does not begin before its first occurrence. *)
Lemma phrase_not_before :
  forall phrase pre P rest a b,
    (forall a1 a2, pre = a1 ++ a2 -> a2 <> [] ->
       ci_prefixb phrase (a2 ++ P ++ rest) = false) ->
    pre ++ P ++ rest = a ++ b -> ci_prefixb phrase b = true ->
    length pre <= length a.
Proof.
  intros phrase pre P rest a b Hmin E Hb.
  destruct (le_lt_dec (length pre) (length a)) as [L|L]; auto.
  exfalso. apply app_cut in E; [|lia]. destruct E as (l & -> & ->).
  rewrite (Hmin a l eq_refl) in Hb; [discriminate|].
  intros ->. rewrite app_nil_r in L. lia.
Qed.

Lemma ci_match_atoms :
  forall P s, ci_match P s ->
    Forall2 (fun c p => atom_ok flag_SI (AChr p) c = true) P s.
Proof. intros P s H. exact H. Qed.

(** The section that runs to the end of the block. *)
Lemma locate_to_end :
  forall block pre after g s,
    find_ci (py "Daily Data") block = Some (pre, after) ->
    find_ci (py "Hourly Data") after = None ->
    after = g ++ nl :: s ->
    forallb is_space g = true ->
    no_leading_blank_line s ->
    find_daily_section block = s.
Proof.
  intros block pre after g s Hd Hh -> Hg (h & t & -> & Hsp & Hnl & Ht).
  apply find_ci_some in Hd. destruct Hd as (Dp & -> & HDp & Hmin).
  unfold find_daily_section, re_search.
  rewrite search_from_none_intro.
  2:{ intros a b E.
      destruct (attempt flag_SI daily_hourly_re (rev a ++ []) b) eqn:Ea; auto.
      exfalso. pose proof (daily_hourly_attempt_phrase _ _ _ Ea) as Hb.
      pose proof (phrase_not_before _ _ _ _ _ _ Hmin E Hb) as L.
      apply attempt_D in Ea. destruct Ea as (x & aft & -> & _ & _ & HD).
      apply daily_hourly_D in HD.
      destruct HD as (Dp' & w & grp & w' & Hp & -> & HDp' & _ & _ & HHp & _).
      assert (E2 : (a ++ Dp') ++ (w ++ nl :: grp ++ nl :: w') ++ Hp ++ aft
                   = (pre ++ Dp) ++ g ++ nl :: h ++ t).
      { repeat (rewrite <- ?app_assoc in E; cbn [List.app] in E).
        repeat (rewrite <- ?app_assoc; cbn [List.app]). symmetry. exact E. }
      apply app_cut in E2.
      2:{ rewrite !length_app, (ci_match_length _ _ HDp),
            (ci_match_length _ _ HDp'). lia. }
      destruct E2 as (l & _ & E3).
      pose proof (find_ci_none _ _ Hh (l ++ w ++ nl :: grp ++ nl :: w') (Hp ++ aft)) as Hn.
      rewrite ci_prefix_app in Hn by auto.
      assert (false = true); [|discriminate]. symmetry. apply Hn.
      rewrite E3. repeat (rewrite <- ?app_assoc; cbn [List.app]). reflexivity. }
  cbn [option_map].
  assert (F : FP flag_SI daily_re (rev pre ++ []) (Dp ++ g ++ [nl] ++ h ++ t) []
                 no_caps (set_cap 1 (h ++ t) no_caps)).
  { unfold daily_re, star, chr. cbn [RSeq].
    eapply FP_cat; [apply FP_str, ci_match_atoms, HDp|].
    eapply FP_rep_back with (y := nl :: h) (T := t).
    - exact Hg.
    - change (forallb is_space (nl :: h) = true).
      cbn [forallb]. rewrite Hsp. reflexivity.
    - exact Ht.
    - rewrite app_nil_r. reflexivity.
    - intros y1 y2 xx st' Ey Hne. apply no_M_line_feed.
      eapply head_after_blank; eauto.
    - eapply FP_cat; [apply FP_atom; reflexivity|].
      apply FP_group. apply FP_rep.
      + apply all_any_dotall.
      + lia.
      + exact I.
      + left. reflexivity. }
  apply FP_attempt in F.
  rewrite (app_nil_r (Dp ++ g ++ [nl] ++ h ++ t)) in F.
  assert (B : forall pre1 pre2, pre = pre1 ++ pre2 -> pre2 <> [] ->
            attempt flag_SI daily_re (rev pre1 ++ [])
              (pre2 ++ Dp ++ g ++ [nl] ++ h ++ t) = None).
  { intros pre1 pre2 E Hne.
    destruct (attempt flag_SI daily_re (rev pre1 ++ [])
                (pre2 ++ Dp ++ g ++ [nl] ++ h ++ t)) eqn:Ea; auto.
    apply daily_attempt_phrase in Ea. cbn [List.app] in Ea.
    rewrite (Hmin _ _ E Hne) in Ea. discriminate. }
  change (g ++ nl :: h ++ t) with (g ++ [nl] ++ h ++ t).
  rewrite (search_from_first flag_SI daily_re pre [] _ [] _ B F).
  reflexivity.
Qed.

(** X3: for a block of characters below U+0100: when no "Hourly Data"
    (in any ASCII letter case) follows the first "Daily Data" and the
    heading ends its line, the section is everything below the heading line
    (blank lines below it skipped). *)
Theorem section_to_end :
  forall block pre after g s,
    find_ci (py "Daily Data") block = Some (pre, after) ->
    find_ci (py "Hourly Data") after = None ->
    after = g ++ nl :: s ->
    forallb is_space g = true ->
    no_leading_blank_line s ->
    find_daily_section block = s.
Proof.
  intros. eapply locate_to_end; eauto.
Qed.

Lemma section_to_end_witness :
  find_daily_section
    (py "Report" ++ nl :: py "daily data " ++ nl :: py "2025-01-01 5")
  = py "2025-01-01 5".
Proof.
  apply (section_to_end _ (py "Report" ++ [nl])
           (py " " ++ nl :: py "2025-01-01 5") (py " ") (py "2025-01-01 5")).
  - vm_compute. reflexivity.
  - vm_compute. reflexivity.
  - reflexivity.
  - vm_compute. reflexivity.
  - exists [], (py "2025-01-01 5").
    split; [reflexivity|]. split; [reflexivity|]. split; [reflexivity|].
    right. exists "2"%char, (py "025-01-01 5").
    split; [reflexivity|vm_compute; reflexivity].
Defined.

(** What [\n\s*Hourly Data] matches. *)
Lemma hourly_tail_D :
  forall bef x aft caps caps',
    D flag_SI
      (RCat (RAtom (AChr nl))
         (RCat (RRep ASpace 0 None true) (RStr (py "Hourly Data"))))
      bef x aft caps caps' ->
    exists w Hp, x = nl :: w ++ Hp /\ forallb is_space w = true /\
                 ci_match Hp (py "Hourly Data").
Proof.
  intros bef x aft caps caps' H.
  destruct H as (x1 & r1 & c1 & -> & [(c & -> & Hc) _] & H).
  destruct H as (w & r2 & c2 & -> & [Hw _] & H). apply D_RStr in H.
  destruct H as [H _]. apply lower_nl_SI in Hc. subst c.
  exists w, r2. split; [reflexivity|]. split; [apply Hw|exact H].
Qed.

(** Inside a section whose last line is not blank, the end marker does not
    match before the line feed that ends the section. *)
Lemma no_early_end :
  forall g s g' Hp post x1 x2 w H' rest',
    s = x1 ++ x2 -> x2 <> [] ->
    x2 ++ nl :: g' ++ Hp ++ post = nl :: w ++ H' ++ rest' ->
    forallb is_space w = true -> ci_match H' (py "Hourly Data") ->
    last_line_not_blank s ->
    (forall a1 a2, g ++ nl :: s ++ nl :: g' = a1 ++ a2 -> a2 <> [] ->
       ci_prefixb (py "Hourly Data") (a2 ++ Hp ++ post) = false) ->
    False.
Proof.
  intros g s g' Hp post x1 x2 w H' rest' Es Hne E Hw HH'
    (s2 & c' & h' & Es2 & Hh' & Hnl & Hc') Hmin.
  destruct x2 as [|c0 x2]; [contradiction|]. inversion E; subst c0.
  clear E Hne. rename H1 into E.
  destruct (le_lt_dec (length (x2 ++ nl :: g')) (length w)) as [L|L].
  - assert (E2 : w ++ H' ++ rest' = (x2 ++ nl :: g') ++ Hp ++ post).
    { rewrite <- E, <- app_assoc. reflexivity. }
    apply app_cut in E2; [|exact L]. destruct E2 as (l & Ew & _).
    assert (Hx2 : forall c, In c (nl :: x2) -> is_space c = true).
    { intros c [<-|Hc]; [reflexivity|].
      rewrite forallb_forall in Hw. apply Hw. rewrite Ew.
      rewrite !in_app_iff. auto. }
    assert (E3 : s2 ++ c' :: h' = x1 ++ nl :: x2) by congruence.
    assert (Len : length s2 + S (length h') = length x1 + S (length x2)).
    { apply (f_equal (@length ascii)) in E3.
      rewrite !length_app in E3. exact E3. }
    destruct (le_lt_dec (S (length x2)) (length h')) as [L2|L2].
    + assert (E4 : x1 ++ nl :: x2 = (s2 ++ [c']) ++ h').
      { rewrite <- E3, <- app_assoc. reflexivity. }
      apply app_cut in E4; [|rewrite length_app; simpl; lia].
      destruct E4 as (l2 & _ & E4).
      apply no_nl_iff in Hnl. apply Hnl. rewrite E4, in_app_iff.
      right. left. reflexivity.
    + apply app_cut in E3; [|lia]. destruct E3 as (l2 & _ & E3).
      assert (Hin : In c' (nl :: x2)).
      { rewrite E3, in_app_iff. right. left. reflexivity. }
      apply Hx2 in Hin. congruence.
  - assert (E2 : (x2 ++ nl :: g') ++ Hp ++ post = w ++ H' ++ rest').
    { rewrite <- E, <- app_assoc. reflexivity. }
    apply app_cut in E2; [|lia]. destruct E2 as (l & Eu & Ey).
    assert (Hl : l <> []).
    { intros ->. rewrite app_nil_r in Eu. rewrite Eu in L. lia. }
    pose proof (Hmin (g ++ nl :: x1 ++ nl :: w) l) as Hn.
    rewrite <- Ey, ci_prefix_app in Hn by exact HH'.
    assert (false = true); [|discriminate]. symmetry. apply Hn; auto.
    rewrite Es.
    repeat (rewrite <- ?app_assoc; cbn [List.app]).
    do 3 f_equal.
    change (nl :: x2 ++ nl :: g' = nl :: w ++ l). f_equal.
    exact Eu.
Qed.

(** The section between the two headings. *)
Lemma locate_between :
  forall block pre after g s g' post,
    find_ci (py "Daily Data") block = Some (pre, after) ->
    find_ci (py "Hourly Data") after = Some (g ++ nl :: s ++ nl :: g', post) ->
    forallb is_space g = true -> forallb is_space g' = true ->
    first_line_not_blank s -> last_line_not_blank s ->
    find_daily_section block = s.
Proof.
  intros block pre after g s g' post Hd Hh Hg Hg'
    (h & c & s1 & Es & Hsp & Hnl & Hc) Hlast.
  apply find_ci_some in Hd. destruct Hd as (Dp & -> & HDp & Hmin).
  apply find_ci_some in Hh. destruct Hh as (Hp & -> & HHp & Hmin2).
  assert (Hhd : exists c0 Hp', Hp = c0 :: Hp' /\ is_space c0 = false).
  { inversion HHp as [|c0 p0 Hp' ps Hc0 _]; subst.
    exists c0, Hp'. split; [reflexivity|].
    eapply ci_not_space; [exact Hc0|reflexivity]. }
  unfold find_daily_section, re_search.
  assert (F : FP flag_SI daily_hourly_re (rev pre ++ [])
                 (Dp ++ g ++ [nl] ++ s ++ [nl] ++ g' ++ Hp) post
                 no_caps (set_cap 1 s no_caps)).
  { unfold daily_hourly_re, star, star_lazy, chr. cbn [RSeq].
    eapply FP_cat; [apply FP_str, ci_match_atoms, HDp|].
    eapply FP_rep_back with (y := nl :: h)
                            (T := c :: s1 ++ [nl] ++ g' ++ Hp ++ post).
    - exact Hg.
    - change (forallb is_space (nl :: h) = true).
      cbn [forallb]. rewrite Hsp. reflexivity.
    - right. exists c, (s1 ++ [nl] ++ g' ++ Hp ++ post). auto.
    - rewrite Es. repeat (rewrite <- ?app_assoc; cbn [List.app]). reflexivity.
    - intros y1 y2 xx st' Ey Hne. apply no_M_line_feed.
      eapply head_after_blank; eauto.
    - eapply FP_cat; [apply FP_atom; reflexivity|].
      apply FP_group_lazy.
      + apply all_any_dotall.
      + intros x1 x2 xx st' Ex Hne HM. apply M_text in HM.
        destruct HM as (aft' & E & HD). apply hourly_tail_D in HD.
        destruct HD as (w & H' & -> & Hw & HH').
        eapply (no_early_end g s g' Hp post x1 x2 w H' aft'); eauto.
        repeat (rewrite <- ?app_assoc in E; cbn [List.app] in E).
        exact E.
      + eapply FP_cat; [apply FP_atom; reflexivity|].
        eapply FP_cat; [|apply FP_str, ci_match_atoms, HHp].
        apply FP_rep.
        * exact Hg'.
        * lia.
        * exact I.
        * right. left. destruct Hhd as (c0 & Hp' & -> & Hc0).
          exists c0, (Hp' ++ post). auto. }
  apply FP_attempt in F.
  assert (B : forall pre1 pre2, pre = pre1 ++ pre2 -> pre2 <> [] ->
            attempt flag_SI daily_hourly_re (rev pre1 ++ [])
              (pre2 ++ (Dp ++ g ++ [nl] ++ s ++ [nl] ++ g' ++ Hp) ++ post) = None).
  { intros pre1 pre2 E Hne.
    destruct (attempt flag_SI daily_hourly_re (rev pre1 ++ [])
                (pre2 ++ (Dp ++ g ++ [nl] ++ s ++ [nl] ++ g' ++ Hp) ++ post)) eqn:Ea; auto.
    apply daily_hourly_attempt_phrase in Ea. exfalso.
    pose proof (Hmin _ _ E Hne) as X.
    repeat (rewrite <- ?app_assoc in X; cbn [List.app] in X).
    repeat (rewrite <- ?app_assoc in Ea; cbn [List.app] in Ea).
    congruence. }
  replace (pre ++ Dp ++ (g ++ nl :: s ++ nl :: g') ++ Hp ++ post)
    with (pre ++ (Dp ++ g ++ [nl] ++ s ++ [nl] ++ g' ++ Hp) ++ post)
    by (repeat (rewrite <- ?app_assoc; cbn [List.app]); reflexivity).
  rewrite (search_from_first flag_SI daily_hourly_re pre [] _ [] _ B F).
  reflexivity.
Qed.

(** X4: for a block of characters below U+0100: when the first
    "Daily Data" (in any ASCII letter case) ends its line and the first
    "Hourly Data" after it begins a later line, the section is the lines
    between the two heading lines (blank lines next to the headings left
    out). *)
Theorem section_between_headings :
  forall block pre after g s g' post,
    find_ci (py "Daily Data") block = Some (pre, after) ->
    find_ci (py "Hourly Data") after = Some (g ++ nl :: s ++ nl :: g', post) ->
    forallb is_space g = true -> forallb is_space g' = true ->
    first_line_not_blank s -> last_line_not_blank s ->
    find_daily_section block = s.
Proof.
  intros. eapply locate_between; eauto.
Qed.

Lemma section_between_headings_witness :
  find_daily_section
    (py "App one" ++ nl :: py "Daily Data" ++ nl ::
     py "2025-01-01 5" ++ nl :: py "Hourly Data" ++ nl :: py "00:00 1")
  = py "2025-01-01 5".
Proof.
  apply (section_between_headings _ (py "App one" ++ [nl])
           (nl :: py "2025-01-01 5" ++ nl :: py "Hourly Data" ++ nl :: py "00:00 1")
           [] (py "2025-01-01 5") [] (nl :: py "00:00 1")).
  - vm_compute. reflexivity.
  - vm_compute. reflexivity.
  - reflexivity.
  - reflexivity.
  - exists [], "2"%char, (py "025-01-01 5").
    split; [reflexivity|]. split; [reflexivity|].
    split; vm_compute; reflexivity.
  - exists (py "2025-01-01 "), "5"%char, [].
    split; [reflexivity|]. split; [reflexivity|].
    split; vm_compute; reflexivity.
Defined.

(** ** The section and the text between the two phrases *)

Lemma dropwhile_all :
  forall p s, forallb p s = true -> dropwhile p s = [].
Proof.
  intros p. induction s as [|c s IH]; cbn [forallb dropwhile]; auto.
  intros H. apply andb_true_iff in H. destruct H as [Hc Hs].
  rewrite Hc. auto.
Qed.

Lemma dropwhile_pad :
  forall (p : ascii -> bool) a x,
    forallb p a = true -> dropwhile p (a ++ x) = dropwhile p x.
Proof.
  intros p. induction a as [|c a IH]; intros x H; [reflexivity|].
  cbn [forallb] in H. apply andb_true_iff in H. destruct H as [Hc Ha].
  cbn [List.app dropwhile]. rewrite Hc. auto.
Qed.

Lemma dropwhile_nil_all :
  forall (p : ascii -> bool) x, dropwhile p x = [] -> forallb p x = true.
Proof.
  intros p. induction x as [|c x IH]; intros H; [reflexivity|].
  cbn [dropwhile] in H. cbn [forallb].
  destruct (p c); [cbn [andb]; auto|discriminate].
Qed.

Lemma dropwhile_app_stop :
  forall (p : ascii -> bool) x c t b,
    dropwhile p x = c :: t -> dropwhile p (x ++ b) = (c :: t) ++ b.
Proof.
  intros p. induction x as [|a x IH]; intros c t b H; [discriminate|].
  cbn [dropwhile List.app] in *. destruct (p a); [auto|].
  inversion H; subst. reflexivity.
Qed.

(** Whitespace around a text does not change what [strip] leaves. *)
Lemma strip_pad :
  forall a x b,
    forallb is_space a = true -> forallb is_space b = true ->
    strip (a ++ x ++ b) = strip x.
Proof.
  intros a x b Ha Hb. unfold strip. rewrite (dropwhile_pad _ _ _ Ha).
  f_equal. destruct (dropwhile is_space x) as [|c t] eqn:E.
  - apply dropwhile_nil_all in E.
    rewrite (dropwhile_all is_space (x ++ b)); [reflexivity|].
    rewrite forallb_app, E, Hb. reflexivity.
  - rewrite (dropwhile_app_stop _ _ _ _ b E), rev_app_distr.
    apply dropwhile_pad. rewrite forallb_rev. exact Hb.
Qed.

(** C4 (as stated): in "Daily Data summary\nx\nHourly Data" the start
    phrase occurs and the end phrase follows it, with the text
    " summary\nx\n" between them, but the start phrase does not end its
    line: no section is found, and the result is empty. *)
Lemma heading_with_text_no_section :
  ~ section_claim
      (py "Daily Data summary" ++ nl :: py "x" ++ nl :: py "Hourly Data").
Proof. unfold section_claim. vm_compute. discriminate. Qed.

(** C4 (amended): for a block of characters below U+0100 (the texts of
    this model, on which [re.IGNORECASE] folds the letters of the two
    phrases as ASCII).  Without the start phrase the section is empty.
    When the first occurrence of the start phrase ends its line (only
    whitespace stands between it and a line feed) and the first occurrence
    of the end phrase after it begins a later line (a line feed and only
    whitespace stand before it), the section is the lines between the two
    heading lines, provided the first and the last of them are not blank.
    When the start phrase ends its line and no end phrase follows, the
    section is everything below the heading line, provided it does not
    begin with a blank line.  In each of these cases the section is the
    text between the two phrases (or after the start phrase) up to the
    whitespace around it. *)
Theorem section_of_block :
  forall block : str,
    (find_ci (py "Daily Data") block = None ->
     find_daily_section block = [] /\ section_claim block) /\
    (forall pre after g s g' post,
       find_ci (py "Daily Data") block = Some (pre, after) ->
       find_ci (py "Hourly Data") after = Some (g ++ nl :: s ++ nl :: g', post) ->
       forallb is_space g = true -> forallb is_space g' = true ->
       first_line_not_blank s -> last_line_not_blank s ->
       find_daily_section block = s /\ section_claim block) /\
    (forall pre after g s,
       find_ci (py "Daily Data") block = Some (pre, after) ->
       find_ci (py "Hourly Data") after = None ->
       after = g ++ nl :: s -> forallb is_space g = true ->
       no_leading_blank_line s ->
       find_daily_section block = s /\ section_claim block).
Proof.
  intros block. split; [|split].
  - intros H. unfold section_claim, section_by_phrases. rewrite H.
    unfold find_daily_section.
    destruct (no_phrase_no_match block H) as [H1 H2].
    rewrite H1, H2. split; reflexivity.
  - intros pre after g s g' post Hd Hh Hg Hg' Hf Hl.
    assert (E : find_daily_section block = s)
      by (eapply locate_between; eauto).
    split; [exact E|].
    unfold section_claim, section_by_phrases. rewrite E, Hd, Hh.
    change (g ++ nl :: s ++ nl :: g') with (g ++ [nl] ++ s ++ nl :: g').
    rewrite app_assoc. symmetry. apply strip_pad.
    + rewrite forallb_app, Hg. reflexivity.
    + cbn [forallb]. rewrite Hg'. reflexivity.
  - intros pre after g s Hd Hh Ea Hg Hs.
    assert (E : find_daily_section block = s)
      by (eapply locate_to_end; eauto).
    split; [exact E|].
    unfold section_claim, section_by_phrases. rewrite E, Hd, Hh, Ea.
    replace (g ++ nl :: s) with ((g ++ [nl]) ++ s ++ [])
      by (rewrite app_nil_r, <- app_assoc; reflexivity).
    symmetry. apply strip_pad.
    + rewrite forallb_app, Hg. reflexivity.
    + reflexivity.
Qed.

Lemma section_of_block_witness :
  find_daily_section
    (py "App one" ++ nl :: py "daily data " ++ nl :: nl ::
     py "2025-01-01 5" ++ nl :: py "2025-01-02 7" ++ nl :: py "  Hourly Data" ++
     nl :: py "00:00 1")
  = py "2025-01-01 5" ++ nl :: py "2025-01-02 7".
Proof.
  destruct (section_of_block
    (py "App one" ++ nl :: py "daily data " ++ nl :: nl ::
     py "2025-01-01 5" ++ nl :: py "2025-01-02 7" ++ nl :: py "  Hourly Data" ++
     nl :: py "00:00 1")) as (_ & H & _).
  apply (H (py "App one" ++ [nl])
           (py " " ++ nl :: nl :: py "2025-01-01 5" ++ nl :: py "2025-01-02 7" ++
            nl :: py "  Hourly Data" ++ nl :: py "00:00 1")
           (py " " ++ [nl]) (py "2025-01-01 5" ++ nl :: py "2025-01-02 7")
           (py "  ") (nl :: py "00:00 1")).
  - vm_compute. reflexivity.
  - vm_compute. reflexivity.
  - reflexivity.
  - reflexivity.
  - exists [], "2"%char, (py "025-01-01 5" ++ nl :: py "2025-01-02 7").
    split; [reflexivity|]. split; [reflexivity|].
    split; vm_compute; reflexivity.
  - exists (py "2025-01-01 5" ++ nl :: py "2025-01-02 "), "7"%char, [].
    split; [reflexivity|]. split; [reflexivity|].
    split; vm_compute; reflexivity.
Defined.

(** * Further properties of the program *)

(** ** The block segmenter *)

Lemma split_without_match :
  forall b, re_search flag_I delim_re b = None -> split_app_blocks b = [b].
Proof.
  intros b H. unfold split_app_blocks, re_split. cbn [split_loop].
  unfold re_search in H.
  destruct (search_from flag_I delim_re [] b []) as [[piece m]|];
    [discriminate|reflexivity].
Qed.

(** X5: [split_app_blocks] returns at least one block, and a block it returns
    is not split again: segmenting a block gives back that block alone. *)
Theorem blocks_are_final :
  forall text : str,
    split_app_blocks text <> [] /\
    forall b, In b (split_app_blocks text) -> split_app_blocks b = [b].
Proof.
  intros text.
  destruct (split_findall flag_I delim_re eq_refl delim_nonempty
              (S (length text)) [] text (Nat.lt_succ_diag_r _))
    as (p0 & ps & Hs & _ & _ & Hno & _).
  assert (Hsame : split_app_blocks text =
                  if length (p0 :: ps) <=? 1 then [text] else ps).
  { unfold split_app_blocks, re_split. rewrite Hs. reflexivity. }
  rewrite Hsame.
  destruct (length (p0 :: ps) <=? 1) eqn:El.
  - split; [discriminate|].
    intros b [<-|[]]. exact Hsame.
  - apply Nat.leb_gt in El. split.
    + destruct ps; [cbn in El; lia|discriminate].
    + intros b Hb. apply split_without_match. apply Hno. now right.
Qed.

(** ** The last numeric token *)

Lemma last_numeric_loop_app :
  forall l1 l2,
    last_numeric_loop (l1 ++ l2) =
    match last_numeric_loop l1 with
    | Return (Some v) => Return (Some v)
    | Return None => last_numeric_loop l2
    | Raise e => Raise e
    end.
Proof.
  induction l1 as [|t l1 IH]; intros l2; cbn [List.app last_numeric_loop].
  - reflexivity.
  - destruct (re_match no_flags numeric_re t); [|apply IH].
    destruct (py_float t); [reflexivity|apply IH].
Qed.

(** X6: of two lists of tokens put one after the other, the second decides:
    its last numeric token is the result, and the first list is looked at
    only when the second has none. *)
Theorem last_numeric_token_app :
  forall a b : list str,
    _last_numeric_token (a ++ b) =
    match _last_numeric_token b with
    | Return (Some v) => Return (Some v)
    | Return None => _last_numeric_token a
    | Raise e => Raise e
    end.
Proof.
  intros a b. unfold _last_numeric_token.
  rewrite rev_app_distr. apply last_numeric_loop_app.
Qed.

(** ** The rows of a text *)

Lemma bind_return :
  forall (A B : Type) (x : outcome A) (f : A -> outcome B) (b : B),
    bind x f = Return b -> exists a, x = Return a /\ f a = Return b.
Proof. intros A B [a|e] f b H; [eauto|discriminate]. Qed.

(** One optional record for every line that is not blank, in the order
    of the lines. *)
Lemma parse_lines_records :
  forall to_datetime lns rows0,
    exists recs,
      Forall2 (fun ln o => parse_line to_datetime ln = Return o)
        (filter nonemptyb (map strip lns)) recs /\
      parse_lines to_datetime lns rows0 = Return (rows0 ++ records recs).
Proof.
  intros to_datetime. induction lns as [|ln lns IH]; intros rows0.
  - exists []. split; [constructor|]. cbn. now rewrite app_nil_r.
  - cbn [map filter parse_lines]. destruct (strip ln) as [|c s] eqn:Es.
    + cbn [nonemptyb is_nil negb]. apply IH.
    + cbn [nonemptyb is_nil negb].
      destruct (parse_line_returns to_datetime (c :: s)) as (o & Ho).
      rewrite Ho. cbn [bind].
      destruct (IH (match o with Some x => rows0 ++ [x] | None => rows0 end))
        as (recs & HF & Hp).
      exists (o :: recs). split; [constructor; auto|].
      rewrite Hp. unfold records. cbn [flat_map].
      destruct o; [rewrite <- app_assoc|]; reflexivity.
Qed.

(** X7: [parse_daily_lines_to_rows] never raises: it returns, in the order of
    the lines, the records of the stripped non-blank lines of the text, at
    most one for each line. *)
Theorem rows_follow_lines :
  forall (to_datetime : str -> outcome pdate) (text : str),
    exists recs,
      Forall2 (fun ln o => parse_line to_datetime ln = Return o)
        (section_lines text) recs /\
      parse_daily_lines_to_rows to_datetime text = Return (records recs) /\
      length (records recs) <= length (section_lines text).
Proof.
  intros to_datetime text.
  destruct (parse_lines_records to_datetime (splitlines text) [])
    as (recs & HF & Hp).
  exists recs. split; [exact HF|]. split; [exact Hp|].
  apply Forall2_length in HF. unfold section_lines. rewrite HF.
  clear. unfold records. induction recs as [|[r|] recs IH]; cbn; lia.
Qed.

Lemma splitlines_aux_chars :
  forall n s cur l,
    length s <= n -> In l (splitlines_aux cur s) ->
    forall c, In c l -> In c cur \/ In c s.
Proof.
  induction n as [|n IH]; intros s cur l Hlen Hl c Hc.
  - destruct s; [|simpl in Hlen; lia]. simpl in Hl.
    destruct cur; [contradiction|]. destruct Hl as [<-|[]].
    left. now apply in_rev.
  - destruct s as [|a s].
    + simpl in Hl. destruct cur; [contradiction|]. destruct Hl as [<-|[]].
      left. now apply in_rev.
    + simpl in Hlen. simpl in Hl.
      assert (Hrev : In c (rev cur) -> In c cur \/ In c (a :: s))
        by (intros H; left; now apply in_rev).
      assert (Hs : length s <= n) by lia.
      destruct (Ascii.eqb a cr) eqn:Ecr.
      * destruct s as [|c' s].
        -- destruct Hl as [<-|[]]; auto.
        -- assert (Hs' : length s <= n) by (simpl in Hs; lia).
           destruct (Ascii.eqb c' nl).
           ++ destruct Hl as [<-|Hl]; auto.
              destruct (IH s [] l Hs' Hl c Hc) as [[]|H].
              right. right. right. exact H.
           ++ destruct Hl as [<-|Hl]; auto.
              destruct (IH (c' :: s) [] l Hs Hl c Hc) as [[]|H].
              right. right. exact H.
      * destruct (is_linebreak a) eqn:Elb.
        -- destruct Hl as [<-|Hl]; auto.
           destruct (IH s [] l Hs Hl c Hc) as [[]|H].
           right. right. exact H.
        -- destruct (IH s (a :: cur) l Hs Hl c Hc) as [[<-|H]|H].
           ++ right. left. reflexivity.
           ++ left. exact H.
           ++ right. right. exact H.
Qed.

Lemma strip_blank : forall s, forallb is_space s = true -> strip s = [].
Proof.
  intros s H. unfold strip. rewrite (dropwhile_all is_space s H). reflexivity.
Qed.

Lemma section_lines_blank :
  forall text, forallb is_space text = true -> section_lines text = [].
Proof.
  intros text H. unfold section_lines.
  assert (Hl : forall l, In l (splitlines text) -> strip l = []).
  { intros l Hl. apply strip_blank. apply forallb_forall. intros c Hc.
    destruct (splitlines_aux_chars (length text) text [] l (le_n _) Hl c Hc)
      as [[]|Hin].
    rewrite forallb_forall in H. auto. }
  induction (splitlines text) as [|l ls IH]; [reflexivity|].
  cbn [map filter]. rewrite (Hl l) by (left; reflexivity).
  cbn [nonemptyb is_nil negb]. apply IH. intros l' Hl'. apply Hl. now right.
Qed.

(** X8: a text that holds nothing but whitespace gives no rows. *)
Theorem blank_text_no_rows :
  forall (to_datetime : str -> outcome pdate) (text : str),
    forallb is_space text = true ->
    parse_daily_lines_to_rows to_datetime text = Return [].
Proof.
  intros to_datetime text H.
  destruct (parse_lines_records to_datetime (splitlines text) [])
    as (recs & HF & Hp).
  fold (section_lines text) in HF. rewrite section_lines_blank in HF by exact H.
  inversion HF; subst. exact Hp.
Qed.

Lemma blank_text_no_rows_witness :
  parse_daily_lines_to_rows (fun _ => Return NaT)
    (py "  " ++ nl :: cr :: py " ") = Return [].
Proof. apply blank_text_no_rows. vm_compute. reflexivity. Defined.

Lemma embedded_iso_group :
  forall ln m, re_search no_flags embedded_iso_re ln = Some m ->
    iso20_token (group_str m 1).
Proof.
  intros ln m H. unfold re_search in H.
  destruct (search_from no_flags embedded_iso_re [] ln []) as [[piece m']|] eqn:E;
    [|discriminate].
  cbn [option_map snd] in H. inversion H; subst m'. clear H.
  apply search_from_sound in E.
  destruct E as (pre & x & _ & _ & _ & HD & _).
  unfold embedded_iso_re in HD. destruct HD as (caps1 & HD & Hc).
  unfold group_str. rewrite Hc. unfold set_cap. cbn [Nat.eqb].
  eapply iso_date_D; eauto.
Qed.

(** What holds for the record of every line holds for every row. *)
Lemma rows_invariant :
  forall to_datetime (P : row -> Prop),
    (forall ln r, parse_line to_datetime ln = Return (Some r) -> P r) ->
    forall text rows,
      parse_daily_lines_to_rows to_datetime text = Return rows ->
      Forall P rows.
Proof.
  intros to_datetime P HP text rows H.
  destruct (parse_lines_records to_datetime (splitlines text) [])
    as (recs & HF & Hp).
  unfold parse_daily_lines_to_rows in H. rewrite Hp in H.
  inversion H; subst rows. clear H Hp. cbn [List.app].
  induction HF as [|ln o lns recs Ho HF IH]; [constructor|].
  unfold records. cbn [flat_map]. destruct o as [r|]; [|exact IH].
  constructor; [eapply HP; eauto|exact IH].
Qed.

Lemma parse_line_metric :
  forall to_datetime ln r,
    parse_line to_datetime ln = Return (Some r) ->
    _last_numeric_token (re_split no_flags ws_re (rest r)) = Return (IVT r).
Proof.
  intros to_datetime ln r H. unfold parse_line in H.
  destruct (re_match no_flags iso_line_re ln) as [iso|].
  { apply bind_return in H. destruct H as (ivt & Hi & H).
    inversion H; subst r. cbn [rest IVT].
    destruct (strip (group_str iso 2)) as [|c s]; [|exact Hi].
    vm_compute in Hi. inversion Hi; subst. vm_compute. reflexivity. }
  destruct (re_match flag_I phrase_line_re ln) as [m2|].
  { apply bind_return in H. destruct H as (ivt & Hi & H).
    inversion H; subst r. exact Hi. }
  destruct (re_search no_flags embedded_iso_re ln) as [mm|].
  { apply bind_return in H. destruct H as (ivt & Hi & H).
    inversion H; subst r. exact Hi. }
  apply bind_return in H. destruct H as (ivt & Hi & H).
  destruct ivt as [v|]; [|discriminate].
  inversion H; subst r. exact Hi.
Qed.

Lemma rows_returned :
  forall to_datetime text,
    exists rows, parse_daily_lines_to_rows to_datetime text = Return rows.
Proof.
  intros to_datetime text.
  destruct (parse_lines_records to_datetime (splitlines text) [])
    as (recs & _ & Hp).
  eexists. exact Hp.
Qed.

(** X9: the metric of every row is the last numeric token of the row's
    remainder, [None] when the remainder has no numeric token. *)
Theorem row_metric_from_rest :
  forall (to_datetime : str -> outcome pdate) (text : str),
    exists rows,
      parse_daily_lines_to_rows to_datetime text = Return rows /\
      Forall (fun r =>
                _last_numeric_token (re_split no_flags ws_re (rest r))
                = Return (IVT r)) rows.
Proof.
  intros to_datetime text.
  destruct (rows_returned to_datetime text) as (rows & H).
  exists rows. split; [exact H|].
  eapply rows_invariant; [|exact H].
  intros ln r Hr. eapply parse_line_metric; eauto.
Qed.

Lemma parse_line_date :
  forall to_datetime ln r,
    parse_line to_datetime ln = Return (Some r) ->
    date_parsed r = NoDate \/
    (iso20_token (date_raw r) /\
     date_parsed r = _try_parse_date to_datetime (date_raw r)).
Proof.
  intros to_datetime ln r H. unfold parse_line in H.
  destruct (re_match no_flags iso_line_re ln) as [iso|] eqn:E1.
  { apply bind_return in H. destruct H as (ivt & Hi & H).
    inversion H; subst r. cbn [date_raw date_parsed]. right.
    apply iso_line_shape in E1.
    destruct E1 as (d & clk & tail & e & _ & Hd & _ & _ & _ & _ & -> & _).
    split; [exact Hd|reflexivity]. }
  destruct (re_match flag_I phrase_line_re ln) as [m2|].
  { apply bind_return in H. destruct H as (ivt & Hi & H).
    inversion H; subst r. left. reflexivity. }
  destruct (re_search no_flags embedded_iso_re ln) as [mm|] eqn:E3.
  { apply bind_return in H. destruct H as (ivt & Hi & H).
    inversion H; subst r. cbn [date_raw date_parsed]. right.
    split; [eapply embedded_iso_group; eauto|reflexivity]. }
  apply bind_return in H. destruct H as (ivt & Hi & H).
  destruct ivt as [v|]; [|discriminate].
  inversion H; subst r. left. reflexivity.
Qed.

(** X10: a row has a parsed date only when its date text is a token
    [20YY-MM-DD], and the parsed date is then what [_try_parse_date] makes
    of that token; every other row has [None]. *)
Theorem row_date_from_token :
  forall (to_datetime : str -> outcome pdate) (text : str),
    exists rows,
      parse_daily_lines_to_rows to_datetime text = Return rows /\
      Forall (fun r =>
                date_parsed r = NoDate \/
                (iso20_token (date_raw r) /\
                 date_parsed r = _try_parse_date to_datetime (date_raw r)))
             rows.
Proof.
  intros to_datetime text.
  destruct (rows_returned to_datetime text) as (rows & H).
  exists rows. split; [exact H|].
  eapply rows_invariant; [|exact H].
  intros ln r Hr. eapply parse_line_date; eauto.
Qed.

(** The lines of a text with a line feed in it: those before the line
    feed, then those after it, with at most an empty line between them. *)
Lemma splitlines_aux_feed :
  forall n a cur b,
    length a <= n ->
    exists L,
      splitlines_aux cur (a ++ nl :: b) = L ++ splitlines_aux [] b /\
      (L = splitlines_aux cur a \/ L = splitlines_aux cur a ++ [[]]).
Proof.
  assert (Base : forall cur b,
            exists L,
              splitlines_aux cur ([] ++ nl :: b) = L ++ splitlines_aux [] b /\
              (L = splitlines_aux cur [] \/ L = splitlines_aux cur [] ++ [[]])).
  { intros cur b. exists [rev cur]. split; [reflexivity|].
    destruct cur; [right|left]; reflexivity. }
  induction n as [|n IH]; intros a cur b Hlen.
  - destruct a; [apply Base|simpl in Hlen; lia].
  - destruct a as [|c a]; [apply Base|].
    cbn [length] in Hlen. assert (Ha : length a <= n) by lia.
    cbn [List.app splitlines_aux].
    destruct (Ascii.eqb c cr) eqn:Ecr.
    + destruct a as [|c' a].
      * cbn [List.app]. exists [rev cur]. split; [reflexivity|].
        left. reflexivity.
      * cbn [List.app]. cbn [length] in Ha.
        destruct (Ascii.eqb c' nl).
        -- destruct (IH a [] b ltac:(lia)) as (L & E & HL).
           exists (rev cur :: L). rewrite E. split; [reflexivity|].
           destruct HL as [->| ->]; [left|right]; reflexivity.
        -- destruct (IH (c' :: a) [] b Ha) as (L & E & HL).
           exists (rev cur :: L). cbn [List.app] in E. rewrite E.
           split; [reflexivity|].
           destruct HL as [->| ->]; [left|right]; reflexivity.
    + destruct (is_linebreak c).
      * destruct (IH a [] b Ha) as (L & E & HL).
        exists (rev cur :: L). rewrite E. split; [reflexivity|].
        destruct HL as [->| ->]; [left|right]; reflexivity.
      * apply IH. exact Ha.
Qed.

Lemma section_lines_feed :
  forall a b,
    section_lines (a ++ nl :: b) = section_lines a ++ section_lines b.
Proof.
  intros a b. unfold section_lines, splitlines.
  destruct (splitlines_aux_feed (length a) a [] b (le_n _)) as (L & E & HL).
  rewrite E, map_app, filter_app. f_equal.
  destruct HL as [->| ->]; [reflexivity|].
  rewrite map_app, filter_app. cbn. now rewrite app_nil_r.
Qed.

Lemma parse_lines_of_records :
  forall to_datetime lns rows0 recs,
    Forall2 (fun ln o => parse_line to_datetime ln = Return o)
      (filter nonemptyb (map strip lns)) recs ->
    parse_lines to_datetime lns rows0 = Return (rows0 ++ records recs).
Proof.
  intros to_datetime. induction lns as [|ln lns IH]; intros rows0 recs HF.
  - inversion HF; subst. cbn. now rewrite app_nil_r.
  - cbn [map filter parse_lines] in *. destruct (strip ln) as [|c s] eqn:Es.
    + cbn [nonemptyb is_nil negb] in HF. apply IH. exact HF.
    + cbn [nonemptyb is_nil negb] in HF.
      inversion HF as [|x o l recs' Ho HF']; subst.
      rewrite Ho. cbn [bind]. rewrite (IH _ recs' HF').
      unfold records. cbn [flat_map].
      destruct o; [rewrite <- app_assoc|]; reflexivity.
Qed.

Lemma records_app :
  forall r1 r2, records (r1 ++ r2) = records r1 ++ records r2.
Proof. intros r1 r2. unfold records. apply flat_map_app. Qed.

(** X11: the rows of a text are the rows of its parts: for two texts joined by
    a line feed, the rows of the first followed by the rows of the
    second. *)
Theorem rows_of_joined_texts :
  forall (to_datetime : str -> outcome pdate) (a b : str),
    exists ra rb,
      parse_daily_lines_to_rows to_datetime a = Return ra /\
      parse_daily_lines_to_rows to_datetime b = Return rb /\
      parse_daily_lines_to_rows to_datetime (a ++ nl :: b) = Return (ra ++ rb).
Proof.
  intros to_datetime a b.
  destruct (parse_lines_records to_datetime (splitlines a) [])
    as (recs_a & Fa & Pa).
  destruct (parse_lines_records to_datetime (splitlines b) [])
    as (recs_b & Fb & Pb).
  exists (records recs_a), (records recs_b).
  split; [exact Pa|]. split; [exact Pb|].
  unfold parse_daily_lines_to_rows.
  rewrite (parse_lines_of_records to_datetime _ [] (recs_a ++ recs_b)).
  - now rewrite records_app.
  - fold (section_lines a) in Fa. fold (section_lines b) in Fb.
    fold (section_lines (a ++ nl :: b)). rewrite section_lines_feed.
    apply Forall2_app; assumption.
Qed.

(** ** The applications of a document *)

Lemma app_data_loop_spec :
  forall to_datetime blocks i acc,
    exists new,
      app_data_loop to_datetime i blocks acc = Return (acc ++ new) /\
      map index new = seq i (length blocks) /\
      map block new = blocks /\
      Forall (fun ad =>
                parse_daily_lines_to_rows to_datetime (daily_text_of (block ad))
                = Return (rows ad)) new.
Proof.
  intros to_datetime. induction blocks as [|b blocks IH]; intros i acc.
  - exists []. cbn. rewrite app_nil_r. auto.
  - cbn [app_data_loop].
    destruct (rows_returned to_datetime (daily_text_of b)) as (rs & Hr).
    rewrite Hr. cbn [bind].
    destruct (IH (S i) (acc ++ [{| index := i; block := b; rows := rs |}]))
      as (new & E & Hi & Hb & Hrows).
    exists ({| index := i; block := b; rows := rs |} :: new).
    rewrite E, <- app_assoc. cbn [List.app map index block length seq].
    rewrite Hi, Hb. split; [reflexivity|]. split; [reflexivity|].
    split; [reflexivity|]. constructor; [exact Hr|exact Hrows].
Qed.

(** X12: building [app_data] never raises.  There is one application for every
    block of the document, in the order of the blocks and numbered from 1,
    so at least one; its rows are those of its daily section, or of the
    first 5000 characters of the block when that section is empty. *)
Theorem app_data_numbered :
  forall (to_datetime : str -> outcome pdate) (text : str),
    exists apps,
      app_data_of to_datetime text = Return apps /\
      apps <> [] /\
      map index apps = seq 1 (length (split_app_blocks text)) /\
      map block apps = split_app_blocks text /\
      Forall (fun ad =>
                parse_daily_lines_to_rows to_datetime
                  (match find_daily_section (block ad) with
                   | [] => firstn 5000 (block ad)
                   | daily_text => daily_text
                   end) = Return (rows ad)) apps.
Proof.
  intros to_datetime text. unfold app_data_of.
  destruct (app_data_loop_spec to_datetime (split_app_blocks text) 1 [])
    as (apps & E & Hi & Hb & Hr).
  exists apps. split; [exact E|]. split; [|auto].
  intros ->. cbn in Hb.
  destruct (split_findall flag_I delim_re eq_refl delim_nonempty
              (S (length text)) [] text (Nat.lt_succ_diag_r _))
    as (p0 & ps & Hs & _).
  unfold split_app_blocks, re_split in Hb. rewrite Hs in Hb.
  destruct (length (p0 :: ps) <=? 1) eqn:El; [discriminate|].
  apply Nat.leb_gt in El. destruct ps; [cbn in El; lia|discriminate].
Qed.

Lemma join_nl_blank :
  forall l, Forall (fun t => forallb is_space t = true) l ->
    forallb is_space (join_nl l) = true.
Proof.
  induction 1 as [|t l Ht Hl IH]; [reflexivity|].
  cbn [join_nl]. destruct l as [|t' l]; [exact Ht|].
  rewrite forallb_app, Ht. cbn [forallb andb]. rewrite IH. reflexivity.
Qed.

Lemma blank_no_delimiter :
  forall t, forallb is_space t = true -> re_search flag_I delim_re t = None.
Proof.
  intros t Ht. unfold re_search.
  destruct (search_from flag_I delim_re [] t []) as [[piece m]|] eqn:E;
    [|reflexivity].
  exfalso. apply search_from_sound in E.
  destruct E as (pre & x & _ & -> & _ & HD & _). apply delim_D in HD.
  destruct HD as (w1 & P & w2 & -> & _ & _ & HP).
  inversion HP as [|c p P' ps Hc _]; subst.
  assert (Hs : is_space c = false)
    by (eapply ci_not_space; [exact Hc|reflexivity]).
  rewrite forallb_forall in Ht. rewrite Ht in Hs; [discriminate|].
  rewrite !in_app_iff. right. left. right.
  rewrite in_app_iff. right. left. reflexivity.
Qed.

Lemma blank_no_phrase :
  forall phrase p t,
    hd_error phrase = Some p -> is_space p = false ->
    forallb is_space t = true -> find_ci phrase t = None.
Proof.
  intros phrase p t Hp Hsp Ht.
  destruct (find_ci phrase t) as [[a b]|] eqn:E; [|reflexivity].
  exfalso. apply find_ci_some in E. destruct E as (P & -> & HP & _).
  inversion HP as [|c p' P' ps Hc _]; subst; [discriminate|].
  cbn in Hp. inversion Hp; subst p'.
  assert (Hs : is_space c = false) by (eapply ci_not_space; eauto).
  rewrite forallb_forall in Ht. rewrite Ht in Hs; [discriminate|].
  rewrite in_app_iff. right. left. reflexivity.
Qed.

Lemma forallb_firstn :
  forall (p : ascii -> bool) n s,
    forallb p s = true -> forallb p (firstn n s) = true.
Proof.
  intros p. induction n as [|n IH]; intros s H; [reflexivity|].
  destruct s as [|c s]; [reflexivity|]. cbn [firstn forallb] in *.
  apply andb_true_iff in H. destruct H as [Hc Hs]. rewrite Hc.
  cbn [andb]. auto.
Qed.

(** X13: a document whose pages give no text (the extraction fails, or gives
    nothing but whitespace) is one application without rows: nothing is
    plotted and the observations list no application. *)
Theorem document_without_text :
  forall (to_datetime : str -> outcome pdate)
         (pages : list (outcome (option str))),
    Forall (fun p => forallb is_space (page_text p) = true) pages ->
    exists apps,
      app_data_of to_datetime (extract_pdf_text pages) = Return apps /\
      apps = [{| index := 1; block := extract_pdf_text pages; rows := [] |}] /\
      plotted_any apps = false /\ summaries apps = [] /\
      forall mean, merged mean apps = None.
Proof.
  intros to_datetime pages H.
  assert (Ht : forallb is_space (extract_pdf_text pages) = true).
  { unfold extract_pdf_text. apply join_nl_blank.
    induction H; constructor; auto. }
  eexists. split; [|split; [reflexivity|repeat split]].
  unfold app_data_of.
  rewrite split_without_match by (apply blank_no_delimiter; exact Ht).
  cbn [app_data_loop]. unfold daily_text_of.
  unfold find_daily_section.
  destruct (no_phrase_no_match (extract_pdf_text pages)) as [H1 H2];
    [eapply blank_no_phrase; [reflexivity|reflexivity|exact Ht]|].
  rewrite H1, H2.
  destruct (parse_lines_records to_datetime
              (splitlines (firstn 5000 (extract_pdf_text pages))) [])
    as (recs & HF & Hp).
  fold (section_lines (firstn 5000 (extract_pdf_text pages))) in HF.
  rewrite section_lines_blank in HF by (apply forallb_firstn; exact Ht).
  inversion HF; subst. unfold parse_daily_lines_to_rows. rewrite Hp.
  reflexivity.
Qed.

Lemma document_without_text_witness :
  exists apps,
    app_data_of (fun _ => Return NaT)
      (extract_pdf_text [Raise OtherError; Return None; Return (Some (py "  "))])
    = Return apps /\
    apps = [{| index := 1;
               block := extract_pdf_text
                          [Raise OtherError; Return None; Return (Some (py "  "))];
               rows := [] |}] /\
    plotted_any apps = false /\ summaries apps = [] /\
    forall mean, merged mean apps = None.
Proof.
  apply (document_without_text (fun _ => Return NaT)
           [Raise OtherError; Return None; Return (Some (py "  "))]).
  repeat constructor.
Defined.

(** ** The observations *)

Lemma dropna_nil_iff :
  forall df,
    dropna_IVT df = [] <->
    existsb (fun r => negb (isna_float (IVT r))) df = false.
Proof.
  induction df as [|r df IH]; cbn [dropna_IVT filter existsb]; [tauto|].
  destruct (negb (isna_float (IVT r))); cbn [orb].
  - split; discriminate.
  - exact IH.
Qed.

(** X14: the observations list exactly the applications that have a row with a
    metric, in the order of the document, each with at least one parsed
    row; they list none exactly when nothing was plotted. *)
Theorem observed_apps :
  forall app_data : list app,
    map s_index (summaries app_data) =
      map index
        (filter (fun ad => existsb (fun r => negb (isna_float (IVT r))) (rows ad))
           app_data) /\
    Forall (fun s => 1 <= s_rows s) (summaries app_data) /\
    (summaries app_data = [] <-> plotted_any app_data = false).
Proof.
  induction app_data as [|ad app_data (IH1 & IH2 & IH3)].
  - cbn. split; [reflexivity|]. split; [constructor|tauto].
  - cbn [summaries filter plotted_any existsb].
    pose proof (dropna_nil_iff (rows ad)) as Hn.
    destruct (dropna_IVT (rows ad)) as [|r df] eqn:Ed.
    + rewrite (proj1 Hn eq_refl). cbn [orb].
      split; [exact IH1|]. split; [exact IH2|exact IH3].
    + destruct (existsb (fun r0 => negb (isna_float (IVT r0))) (rows ad)).
      * cbn [map s_index orb]. rewrite IH1.
        split; [reflexivity|]. split.
        -- constructor; [cbn; lia|exact IH2].
        -- split; discriminate.
      * destruct Hn as [_ Hn]. specialize (Hn eq_refl). discriminate.
Qed.

Lemma zero_not_above_half :
  forall v, SFeqb v zero = true -> SFltb half v = false.
Proof.
  intros [[|]|[|]| |[|] m e] H; cbn in H; try discriminate; reflexivity.
Qed.

Lemma all_zero_none_above :
  forall ivt, all_zero ivt = true -> any_above_half ivt = false.
Proof.
  induction ivt as [|v ivt IH]; cbn [all_zero any_above_half forallb existsb];
    [reflexivity|].
  intros H. apply andb_true_iff in H. destruct H as [Hv H].
  rewrite (zero_not_above_half v Hv). cbn [orb]. apply IH. exact H.
Qed.

(** X15: the two notes exclude each other: an application whose values are all
    zero is never said to have values above 0.5. *)
Theorem notes_exclude_each_other :
  forall app_data : list app,
    Forall (fun s => s_note_zero s = true -> s_note_high s = false)
      (summaries app_data).
Proof.
  induction app_data as [|ad app_data IH]; [constructor|].
  cbn [summaries]. destruct (dropna_IVT (rows ad)) as [|r df]; [exact IH|].
  constructor; [|exact IH]. cbn [s_note_zero s_note_high].
  apply all_zero_none_above.
Qed.

(** ** The combined series *)

Lemma insert_row_perm :
  forall r l, Permutation (insert_row r l) (r :: l).
Proof.
  intros r. induction l as [|x l IH]; cbn [insert_row]; [reflexivity|].
  destruct (date_leb (date_parsed x) (date_parsed r)); [|reflexivity].
  rewrite IH. apply perm_swap.
Qed.

Lemma sort_values_perm : forall df, Permutation (sort_values df) df.
Proof.
  intros df. unfold sort_values.
  assert (G : forall l acc,
            Permutation (fold_left (fun acc r => insert_row r acc) l acc)
                        (acc ++ l)).
  { induction l as [|r l IH]; intros acc; cbn [fold_left].
    - now rewrite app_nil_r.
    - rewrite IH, insert_row_perm. apply Permutation_middle. }
  apply (G df []).
Qed.

Lemma existsb_perm :
  forall (A : Type) (p : A -> bool) l1 l2,
    Permutation l1 l2 -> existsb p l1 = existsb p l2.
Proof.
  intros A p l1 l2 H. induction H; cbn [existsb]; auto.
  - now rewrite IHPermutation.
  - destruct (p x), (p y); reflexivity.
  - congruence.
Qed.

Lemma dated_values_perm :
  forall l1 l2, Permutation l1 l2 ->
    Permutation (dated_values l1) (dated_values l2).
Proof.
  intros l1 l2 H. induction H; cbn [dated_values].
  - constructor.
  - destruct (date_parsed x), (IVT x) as [v|]; auto.
    destruct (isna_float (Some v)); auto.
  - destruct (date_parsed x), (IVT x) as [v|], (date_parsed y), (IVT y) as [w|];
      try reflexivity;
      try (destruct (isna_float (Some v)); reflexivity);
      try (destruct (isna_float (Some w)); reflexivity).
    destruct (isna_float (Some v)), (isna_float (Some w));
      try reflexivity. apply perm_swap.
  - etransitivity; eauto.
Qed.

Lemma filter_perm :
  forall (A : Type) (p : A -> bool) l1 l2,
    Permutation l1 l2 -> Permutation (filter p l1) (filter p l2).
Proof.
  intros A p l1 l2 H. induction H; cbn [filter].
  - constructor.
  - destruct (p x); auto.
  - destruct (p x), (p y); try reflexivity. apply perm_swap.
  - etransitivity; eauto.
Qed.

Lemma values_at_perm :
  forall t l1 l2, Permutation l1 l2 ->
    Permutation (values_at t l1) (values_at t l2).
Proof.
  intros t l1 l2 H. unfold values_at.
  apply Permutation_map, filter_perm, H.
Qed.

Lemma insert_uniq_in :
  forall t x l, In x (insert_uniq t l) <-> x = t \/ In x l.
Proof.
  intros t x. induction l as [|y l IH]; cbn [insert_uniq].
  - cbn. intuition.
  - destruct (Z.ltb_spec t y).
    + cbn. intuition.
    + destruct (Z.eqb_spec t y).
      * subst. cbn. intuition.
      * cbn [In]. rewrite IH. intuition.
Qed.

Lemma insert_uniq_sorted :
  forall t l, StronglySorted Z.lt l -> StronglySorted Z.lt (insert_uniq t l).
Proof.
  intros t. induction l as [|y l IH]; intros H; cbn [insert_uniq].
  - repeat constructor.
  - inversion H as [|? ? Hl Hy]; subst.
    destruct (Z.ltb_spec t y).
    + constructor; [exact H|]. constructor; [exact H0|].
      rewrite Forall_forall in *. intros z Hz. specialize (Hy z Hz). lia.
    + destruct (Z.eqb_spec t y); [exact H|].
      constructor; [auto|].
      rewrite Forall_forall in *. intros z Hz.
      apply insert_uniq_in in Hz. destruct Hz as [->|Hz]; [lia|auto].
Qed.

Lemma sorted_keys_in : forall ts x, In x (sorted_keys ts) <-> In x ts.
Proof.
  induction ts as [|t ts IH]; intros x; cbn [sorted_keys fold_right].
  - tauto.
  - rewrite insert_uniq_in. fold (sorted_keys ts). rewrite IH. cbn. intuition.
Qed.

Lemma sorted_keys_sorted : forall ts, StronglySorted Z.lt (sorted_keys ts).
Proof.
  induction ts as [|t ts IH]; cbn [sorted_keys fold_right].
  - constructor.
  - apply insert_uniq_sorted. exact IH.
Qed.

Lemma dated_values_in :
  forall df t v,
    In (t, v) (dated_values df) <->
    exists r, In r df /\ date_parsed r = Timestamp t /\ IVT r = Some v /\
              isna_float (Some v) = false.
Proof.
  induction df as [|x df IH]; intros t v; cbn [dated_values].
  - split; [intros []|intros (r & [] & _)].
  - destruct (date_parsed x) as [| |t0] eqn:Ed, (IVT x) as [v0|] eqn:Ei;
      try (rewrite IH; split;
           [intros (r & Hr & H); exists r; split; [right; exact Hr|exact H]
           |intros (r & [<-|Hr] & H1 & H2 & H3);
            [congruence|exists r; auto]]).
    destruct (isna_float (Some v0)) eqn:En.
    + rewrite IH. split.
      * intros (r & Hr & H). exists r. split; [right; exact Hr|exact H].
      * intros (r & [<-|Hr] & H1 & H2 & H3); [congruence|exists r; auto].
    + cbn [In]. rewrite IH. split.
      * intros [E|(r & Hr & H)].
        -- inversion E; subst. exists x. auto.
        -- exists r. split; [right; exact Hr|exact H].
      * intros (r & [<-|Hr] & H1 & H2 & H3).
        -- left. congruence.
        -- right. exists r. auto.
Qed.

Lemma dated_row_iff :
  forall df t,
    In t (map fst (dated_values (sort_values (dropna_IVT df)))) <->
    exists r, In r df /\ date_parsed r = Timestamp t /\
              isna_float (IVT r) = false.
Proof.
  intros df t. rewrite in_map_iff. split.
  - intros ([t' v] & E & H). cbn in E. subst t'.
    apply dated_values_in in H. destruct H as (r & Hr & Hd & Hi & Hn).
    apply (Permutation_in _ (sort_values_perm _)) in Hr.
    unfold dropna_IVT in Hr. apply filter_In in Hr. destruct Hr as [Hr _].
    exists r. rewrite Hi. auto.
  - intros (r & Hr & Hd & Hn).
    destruct (IVT r) as [v|] eqn:Ei; [|discriminate].
    exists (t, v). split; [reflexivity|]. apply dated_values_in.
    exists r. split; [|auto].
    apply (Permutation_in _ (Permutation_sym (sort_values_perm _))).
    unfold dropna_IVT. apply filter_In. rewrite Ei, Hn. auto.
Qed.

Lemma has_dated_metric_iff :
  forall ad,
    has_dated_metric ad = true <->
    exists t r, In r (rows ad) /\ date_parsed r = Timestamp t /\
                isna_float (IVT r) = false.
Proof.
  intros ad. unfold has_dated_metric. rewrite existsb_exists. split.
  - intros (r & Hr & H). apply andb_true_iff in H. destruct H as [Hd Hn].
    apply negb_true_iff in Hn.
    destruct (date_parsed r) as [| |t] eqn:Ed; try discriminate.
    exists t, r. auto.
  - intros (t & r & Hr & Hd & Hn). exists r. split; [exact Hr|].
    rewrite Hd, Hn. reflexivity.
Qed.

Lemma groupby_keys :
  forall mean tmp,
    map fst (groupby_mean mean tmp) = sorted_keys (map fst tmp).
Proof.
  intros mean tmp. unfold groupby_mean. rewrite map_map. cbn [fst].
  apply map_id.
Qed.

(** The frame of an application with a dated metric. *)
Lemma groupby_daily_means :
  forall mean ad,
    has_dated_metric ad = true ->
    daily_means mean ad
      (groupby_mean mean (dated_values (sort_values (dropna_IVT (rows ad))))).
Proof.
  intros mean ad Had.
  assert (Hkeys : forall t,
            In t (map fst (groupby_mean mean
                    (dated_values (sort_values (dropna_IVT (rows ad)))))) <->
            exists r, In r (rows ad) /\ date_parsed r = Timestamp t /\
                      isna_float (IVT r) = false).
  { intros t. rewrite groupby_keys, sorted_keys_in. apply dated_row_iff. }
  split; [|split; [|split]].
  - apply has_dated_metric_iff in Had. destruct Had as (t & Ht).
    apply Hkeys in Ht. intros E. rewrite E in Ht. exact Ht.
  - rewrite groupby_keys. apply sorted_keys_sorted.
  - exact Hkeys.
  - intros t v H. unfold groupby_mean in H. apply in_map_iff in H.
    destruct H as (t' & E & _). inversion E; subst t' v.
    eexists. split; [reflexivity|].
    unfold metrics_on. apply values_at_perm, dated_values_perm, sort_values_perm.
Qed.

Lemma existsb_dropna :
  forall df,
    existsb (fun r => notna_date (date_parsed r)) (dropna_IVT df) =
    existsb (fun r => notna_date (date_parsed r) && negb (isna_float (IVT r))) df.
Proof.
  induction df as [|r df IH]; cbn [dropna_IVT filter existsb]; [reflexivity|].
  fold (dropna_IVT df).
  destruct (negb (isna_float (IVT r))); cbn [existsb].
  - rewrite IH, andb_true_r. reflexivity.
  - rewrite IH, andb_false_r. reflexivity.
Qed.

(** The loop that collects the frames, in closed form. *)
Lemma collect_frames_spec :
  forall mean app_data frames,
    collect_frames mean app_data frames =
    frames ++
    map (fun ad =>
           (index ad,
            groupby_mean mean (dated_values (sort_values (dropna_IVT (rows ad))))))
        (filter has_dated_metric app_data).
Proof.
  intros mean. induction app_data as [|ad app_data IH]; intros frames.
  - cbn. now rewrite app_nil_r.
  - cbn [collect_frames filter].
    assert (Hd : existsb (fun r => notna_date (date_parsed r))
                   (dropna_IVT (rows ad)) = has_dated_metric ad)
      by apply existsb_dropna.
    destruct (dropna_IVT (rows ad)) as [|r df] eqn:Ed.
    + cbn [existsb] in Hd. rewrite <- Hd. apply IH.
    + rewrite <- Ed in *. rewrite Hd.
      destruct (has_dated_metric ad) eqn:Eh.
      * rewrite (existsb_perm _ _ _ _ (sort_values_perm _)), Hd.
        rewrite IH, <- app_assoc. reflexivity.
      * rewrite Hd. apply IH.
Qed.

Lemma frames_daily_means :
  forall mean l,
    Forall (fun ad => has_dated_metric ad = true) l ->
    Forall2 (fun ad fr => daily_means mean ad (snd fr)) l
      (map (fun ad =>
              (index ad,
               groupby_mean mean
                 (dated_values (sort_values (dropna_IVT (rows ad))))))
           l).
Proof.
  intros mean l H. induction H; cbn [map]; constructor; auto.
  cbn [snd]. now apply groupby_daily_means.
Qed.

Lemma filter_all :
  forall (A : Type) (p : A -> bool) l, Forall (fun x => p x = true) (filter p l).
Proof.
  intros A p l. apply Forall_forall. intros x H.
  apply filter_In in H. tauto.
Qed.

(** X16: an application enters the combined series exactly when it has a row
    with both a parsed date and a metric; the applications keep their
    order, and the frame of each holds its daily means: one row for every
    date, ascending, with the mean of the metrics of that date. *)
Theorem combined_frames :
  forall (mean : list float -> float) (app_data : list app),
    map fst (combined_date_frames mean app_data) =
      map index (filter has_dated_metric app_data) /\
    Forall2 (fun ad fr => daily_means mean ad (snd fr))
      (filter has_dated_metric app_data)
      (combined_date_frames mean app_data).
Proof.
  intros mean app_data. unfold combined_date_frames.
  rewrite collect_frames_spec. cbn [List.app]. split.
  - rewrite map_map. reflexivity.
  - apply frames_daily_means, filter_all.
Qed.

Lemma Forall2_left :
  forall (A B : Type) (R : A -> B -> Prop) l1 l2,
    Forall2 R l1 l2 -> forall a, In a l1 -> exists b, In b l2 /\ R a b.
Proof.
  induction 1 as [|x y l1 l2 Hxy HF IH]; intros a Ha; [destruct Ha|].
  destruct Ha as [<-|Ha].
  - exists y. split; [left; reflexivity|exact Hxy].
  - destruct (IH a Ha) as (b & Hb & HR). exists b. split; [right|]; auto.
Qed.

Lemma Forall2_right :
  forall (A B : Type) (R : A -> B -> Prop) l1 l2,
    Forall2 R l1 l2 -> forall b, In b l2 -> exists a, In a l1 /\ R a b.
Proof.
  induction 1 as [|x y l1 l2 Hxy HF IH]; intros b Hb; [destruct Hb|].
  destruct Hb as [<-|Hb].
  - exists x. split; [left; reflexivity|exact Hxy].
  - destruct (IH b Hb) as (a & Ha & HR). exists a. split; [right|]; auto.
Qed.

Lemma lookup_some :
  forall t f v, lookup t f = Some v -> In (t, v) f.
Proof.
  intros t. induction f as [|[t' v'] f IH]; intros v H; cbn [lookup] in H.
  - discriminate.
  - destruct (Z.eqb_spec t' t).
    + inversion H; subst. left. reflexivity.
    + right. auto.
Qed.

Lemma lookup_none :
  forall t f, lookup t f = None -> ~ In t (map fst f).
Proof.
  intros t. induction f as [|[t' v'] f IH]; intros H; cbn [lookup] in H.
  - intros [].
  - destruct (Z.eqb_spec t' t); [discriminate|].
    cbn [map fst In]. intros [E|Hin]; [contradiction|]. now apply IH.
Qed.

Lemma metrics_on_nil :
  forall t ad,
    (forall r, In r (rows ad) -> date_parsed r = Timestamp t ->
               isna_float (IVT r) = true) ->
    metrics_on t ad = [].
Proof.
  intros t ad H. unfold metrics_on, values_at.
  destruct (filter (fun p => (fst p =? t)%Z)
              (dated_values (dropna_IVT (rows ad)))) as [|[t' v] l] eqn:E;
    [reflexivity|].
  exfalso.
  assert (Hin : In (t', v) (filter (fun p => (fst p =? t)%Z)
                              (dated_values (dropna_IVT (rows ad)))))
    by (rewrite E; left; reflexivity).
  apply filter_In in Hin. destruct Hin as [Hin Ht]. cbn [fst] in Ht.
  apply Z.eqb_eq in Ht. subst t'.
  apply dated_values_in in Hin. destruct Hin as (r & Hr & Hd & Hi & Hn).
  unfold dropna_IVT in Hr. apply filter_In in Hr. destruct Hr as [Hr _].
  specialize (H r Hr Hd). rewrite Hi in H. congruence.
Qed.

Lemma metrics_on_some :
  forall t ad r,
    In r (rows ad) -> date_parsed r = Timestamp t ->
    isna_float (IVT r) = false -> metrics_on t ad <> [].
Proof.
  intros t ad r Hr Hd Hn. unfold metrics_on, values_at.
  destruct (IVT r) as [v|] eqn:Ei; [|discriminate].
  assert (Hin : In (t, v) (filter (fun p => (fst p =? t)%Z)
                             (dated_values (dropna_IVT (rows ad))))).
  { apply filter_In. split; [|cbn [fst]; apply Z.eqb_refl].
    apply dated_values_in. exists r. split; [|auto].
    unfold dropna_IVT. apply filter_In. rewrite Ei, Hn. auto. }
  intros E. apply (in_map snd) in Hin. rewrite E in Hin. exact Hin.
Qed.

(** The cells of one column of the merged table. *)
Lemma merged_cells :
  forall mean ad f idx,
    daily_means mean ad f ->
    Forall2 (fun t c =>
               match c with
               | Some v =>
                   metrics_on t ad <> [] /\
                   exists l, v = mean l /\ Permutation l (metrics_on t ad)
               | None => metrics_on t ad = []
               end)
      idx (map (fun t => lookup t f) idx).
Proof.
  intros mean ad f idx (_ & _ & Hkeys & Hvals).
  induction idx as [|t idx IH]; cbn [map]; constructor; [|exact IH].
  destruct (lookup t f) as [v|] eqn:El.
  - apply lookup_some in El. split; [|eapply Hvals; eauto].
    assert (Ht : In t (map fst f))
      by (apply in_map_iff; exists (t, v); auto).
    apply Hkeys in Ht. destruct Ht as (r & Hr & Hd & Hn).
    eapply metrics_on_some; eauto.
  - apply lookup_none in El. apply metrics_on_nil. intros r Hr Hd.
    destruct (isna_float (IVT r)) eqn:En; [reflexivity|].
    exfalso. apply El. apply Hkeys. exists r. auto.
Qed.

(** The merged table, when there is one. *)
Lemma merged_shape :
  forall (mean : list float -> float) (app_data : list app),
    match merged mean app_data with
    | None => filter has_dated_metric app_data = []
    | Some tb =>
        filter has_dated_metric app_data <> [] /\
        StronglySorted Z.lt (t_index tb) /\
        (forall t, In t (t_index tb) <->
           exists ad r, In ad app_data /\ In r (rows ad) /\
                        date_parsed r = Timestamp t /\
                        isna_float (IVT r) = false) /\
        map fst (t_columns tb) = map index (filter has_dated_metric app_data) /\
        Forall2 (fun ad col =>
                   Forall2 (fun t c =>
                              match c with
                              | Some v =>
                                  metrics_on t ad <> [] /\
                                  exists l, v = mean l /\
                                            Permutation l (metrics_on t ad)
                              | None => metrics_on t ad = []
                              end)
                     (t_index tb) (snd col))
          (filter has_dated_metric app_data) (t_columns tb)
    end.
Proof.
  intros mean app_data.
  assert (Hidx : map fst (combined_date_frames mean app_data) =
                 map index (filter has_dated_metric app_data)).
  { unfold combined_date_frames. rewrite collect_frames_spec.
    cbn [List.app]. rewrite map_map. reflexivity. }
  assert (HF : Forall2 (fun ad fr => daily_means mean ad (snd fr))
                 (filter has_dated_metric app_data)
                 (combined_date_frames mean app_data)).
  { unfold combined_date_frames. rewrite collect_frames_spec.
    apply frames_daily_means, filter_all. }
  unfold merged.
  destruct (combined_date_frames mean app_data) as [|fr frames] eqn:Ef.
  - inversion HF. reflexivity.
  - assert (Hne : combined_date_frames mean app_data <> [])
      by (rewrite Ef; discriminate).
    rewrite <- Ef in *. clear Ef fr frames.
    set (frames := combined_date_frames mean app_data) in *.
    cbn [concat_sort_index t_index t_columns].
    split; [|split; [|split; [|split]]].
    + intros E. rewrite E in HF. inversion HF; subst.
      apply Hne. symmetry. assumption.
    + apply sorted_keys_sorted.
    + intros t. rewrite sorted_keys_in, in_concat. split.
      * intros (ks & Hks & Ht). apply in_map_iff in Hks.
        destruct Hks as (fr & <- & Hfr).
        destruct (Forall2_right _ _ _ _ _ HF fr Hfr) as (ad & Had & Hm).
        apply filter_In in Had. destruct Had as [Had _].
        destruct Hm as (_ & _ & Hkeys & _). apply Hkeys in Ht.
        destruct Ht as (r & Hr). exists ad, r. tauto.
      * intros (ad & r & Had & Hr & Hd & Hn).
        assert (Hin : In ad (filter has_dated_metric app_data)).
        { apply filter_In. split; [exact Had|].
          apply has_dated_metric_iff. eauto. }
        destruct (Forall2_left _ _ _ _ _ HF ad Hin) as (fr & Hfr & Hm).
        exists (map fst (snd fr)). split; [apply in_map_iff; eauto|].
        destruct Hm as (_ & _ & Hkeys & _). apply Hkeys. eauto.
    + rewrite map_map. cbn [fst]. exact Hidx.
    + clear Hidx Hne.
      generalize (sorted_keys
                    (concat (map (fun f => map fst (snd f)) frames))).
      intros idx. induction HF as [|ad fr ads frs Hm HF IH]; cbn [map];
        constructor; auto.
      cbn [snd]. apply merged_cells. exact Hm.
Qed.

(** X17: the merged table exists exactly when some application has a row
    with both a parsed date and a metric.  Its index holds, in ascending
    order and once each, the dates of all such rows; it has one column for
    each such application, in their order, and the cell of an application
    on a date is the mean of its metrics of that date when it has any, and
    empty exactly when it has none. *)
Theorem merged_table :
  forall (mean : list float -> float) (app_data : list app),
    match merged mean app_data with
    | None => filter has_dated_metric app_data = []
    | Some tb =>
        filter has_dated_metric app_data <> [] /\
        StronglySorted Z.lt (t_index tb) /\
        (forall t, In t (t_index tb) <->
           exists ad r, In ad app_data /\ In r (rows ad) /\
                        date_parsed r = Timestamp t /\
                        isna_float (IVT r) = false) /\
        map fst (t_columns tb) = map index (filter has_dated_metric app_data) /\
        Forall2 (fun ad col =>
                   Forall2 (fun t c =>
                              match c with
                              | Some v =>
                                  metrics_on t ad <> [] /\
                                  exists l, v = mean l /\
                                            Permutation l (metrics_on t ad)
                              | None => metrics_on t ad = []
                              end)
                     (t_index tb) (snd col))
          (filter has_dated_metric app_data) (t_columns tb)
    end.
Proof.
  intros mean app_data. apply merged_shape.
Qed.

(** C2: the combined series holds exactly the applications that have a
    record with both a parsed date and a metric, each with its records
    grouped by date and the metrics of one date averaged; the merged table
    joins them on the date axis: its index is the ascending union of the
    dates of all such records, and a cell is empty exactly where the
    application has no value for the date.  Applications without a dated
    record with a metric are left out, and when there is none no table is
    built.  For two applications with records on the dates 1, 2 and 2, 3
    (and a third without dates) the index is 1, 2, 3 and the cells are
    empty on the date 3 for the first and on the date 1 for the second. *)
Theorem combined_series :
  forall (mean : list float -> float) (app_data : list app),
    map fst (combined_date_frames mean app_data) =
      map index (filter has_dated_metric app_data) /\
    Forall2 (fun ad fr => daily_means mean ad (snd fr))
      (filter has_dated_metric app_data)
      (combined_date_frames mean app_data) /\
    match merged mean app_data with
    | None => filter has_dated_metric app_data = []
    | Some tb =>
        StronglySorted Z.lt (t_index tb) /\
        (forall t, In t (t_index tb) <->
           exists ad r, In ad app_data /\ In r (rows ad) /\
                        date_parsed r = Timestamp t /\
                        isna_float (IVT r) = false) /\
        map fst (t_columns tb) = map index (filter has_dated_metric app_data) /\
        Forall2 (fun ad col =>
                   Forall2 (fun t c =>
                              match c with
                              | Some v =>
                                  metrics_on t ad <> [] /\
                                  exists l, v = mean l /\
                                            Permutation l (metrics_on t ad)
                              | None => metrics_on t ad = []
                              end)
                     (t_index tb) (snd col))
          (filter has_dated_metric app_data) (t_columns tb)
    end /\
    merged mean sample_apps =
      Some {| t_index := [1; 2; 3]%Z;
              t_columns :=
                [(1, [Some (mean [f_0_1]); Some (mean [f_0_6]); None]);
                 (2, [None; Some (mean [f_0_2]); Some (mean [f_0_0; f_0_6])])] |}.
Proof.
  intros mean app_data.
  split; [|split; [|split]].
  - unfold combined_date_frames. rewrite collect_frames_spec.
    cbn [List.app]. rewrite map_map. reflexivity.
  - unfold combined_date_frames. rewrite collect_frames_spec.
    apply frames_daily_means, filter_all.
  - pose proof (merged_shape mean app_data) as H.
    destruct (merged mean app_data) as [tb|]; [|exact H].
    destruct H as (_ & H). exact H.
  - vm_compute. reflexivity.
Qed.

(** ** The text pages *)

Lemma range_from_lt :
  forall fuel start stop step i,
    In i (range_from fuel start stop step) -> i < stop.
Proof.
  induction fuel as [|fuel IH]; intros start stop step i H;
    cbn [range_from] in H; [destruct H|].
  destruct (Nat.ltb_spec start stop); [|destruct H].
  destruct H as [<-|H]; [assumption|eauto].
Qed.

Lemma range_from_concat :
  forall (A : Type) (lines : list A) fuel start,
    length lines - start <= fuel ->
    concat (map (fun i => firstn chunk_size (skipn i lines))
              (range_from fuel start (length lines) chunk_size))
    = skipn start lines.
Proof.
  intros A lines. induction fuel as [|fuel IH]; intros start Hf;
    cbn [range_from].
  - cbn. symmetry. apply skipn_all2. lia.
  - destruct (Nat.ltb_spec start (length lines)).
    + cbn [map concat]. rewrite IH by (unfold chunk_size; lia).
      rewrite Nat.add_comm, <- skipn_skipn. apply firstn_skipn.
    + cbn. symmetry. apply skipn_all2. lia.
Qed.

Lemma range_from_length :
  forall fuel start stop,
    stop - start <= fuel ->
    length (range_from fuel start stop chunk_size) =
    (stop - start + 44) / 45.
Proof.
  induction fuel as [|fuel IH]; intros start stop Hf; cbn [range_from].
  - replace (stop - start) with 0 by lia. reflexivity.
  - destruct (Nat.ltb_spec start stop).
    + cbn [length]. rewrite IH by (unfold chunk_size; lia).
      unfold chunk_size.
      destruct (le_lt_dec 45 (stop - start)) as [L|L].
      * replace (stop - start + 44) with (stop - (start + 45) + 44 + 1 * 45)
          by lia.
        rewrite Nat.div_add by discriminate. lia.
      * replace (stop - (start + 45)) with 0 by lia.
        change ((0 + 44) / 45) with 0.
        apply (Nat.div_unique _ 45 1 (stop - start - 1)); lia.
    + replace (stop - start) with 0 by lia. reflexivity.
Qed.

(** X18: the text pages hold the lines of the observations once each and in
    order: every page has between 1 and 45 lines, and there are as many
    pages as 45 lines at a time require. *)
Theorem text_pages_cover :
  forall (A : Type) (lines : list A),
    concat (text_pages lines) = lines /\
    Forall (fun page => 1 <= length page /\ length page <= chunk_size)
      (text_pages lines) /\
    length (text_pages lines) = (length lines + 44) / 45.
Proof.
  intros A lines. unfold text_pages. split; [|split].
  - rewrite range_from_concat by lia. reflexivity.
  - apply Forall_forall. intros page H. apply in_map_iff in H.
    destruct H as (i & <- & Hi). apply range_from_lt in Hi.
    rewrite length_firstn, length_skipn. unfold chunk_size. lia.
  - rewrite length_map, range_from_length by lia.
    now rewrite Nat.sub_0_r.
Qed.

(** ** The rule of the embedded date *)

(** X19: a line that neither begins with a date [20YY-MM-DD] nor with a day and
    a word, but holds such a date further on, gives a record with the
    first such date as its date text; the remainder is the line with every
    occurrence of that date taken out, stripped, and the metric is the
    last numeric token of the remainder. *)
Theorem embedded_date_rule :
  forall (to_datetime : str -> outcome pdate) (ln pre d post : str),
    ln = pre ++ d ++ post -> pre <> [] -> iso20_token d ->
    (forall a d' rest', ln = a ++ d' ++ rest' -> iso20_token d' ->
       length pre <= length a) ->
    ~ begins_with_day_word ln ->
    exists v,
      _last_numeric_token (tokens (strip (replace d [] ln))) = Return v /\
      parse_line to_datetime ln =
        Return (Some {| date_raw := d;
                        date_parsed := _try_parse_date to_datetime d;
                        rest := strip (replace d [] ln);
                        IVT := v |}).
Proof.
  intros to_datetime ln pre d post E Hpre Hd Hfirst Hday.
  destruct (last_numeric_token_returns (tokens (strip (replace d [] ln))))
    as (v & Hv).
  exists v. split; [exact Hv|]. unfold parse_line.
  destruct (re_match no_flags iso_line_re ln) as [iso|] eqn:E1.
  { exfalso. apply iso_line_shape in E1.
    destruct E1 as (d' & clk & tail & e & E1 & Hd' & _).
    specialize (Hfirst [] d' (clk ++ tail ++ e) E1 Hd').
    destruct pre; [contradiction|cbn in Hfirst; lia]. }
  destruct (re_match flag_I phrase_line_re ln) as [m2|] eqn:E2.
  { exfalso. apply Hday. eapply phrase_line_begins; eauto. }
  assert (F : attempt no_flags embedded_iso_re (rev pre ++ []) (d ++ post) =
              Some (mk (rev d ++ rev pre ++ []) post (set_cap 1 d no_caps))).
  { apply FP_attempt. unfold embedded_iso_re.
    apply FP_group. apply FP_iso_date. exact Hd. }
  assert (B : forall pre1 pre2, pre = pre1 ++ pre2 -> pre2 <> [] ->
            attempt no_flags embedded_iso_re (rev pre1 ++ [])
              (pre2 ++ d ++ post) = None).
  { intros pre1 pre2 Ep Hne.
    destruct (attempt no_flags embedded_iso_re (rev pre1 ++ [])
                (pre2 ++ d ++ post)) as [m|] eqn:Ea; [|reflexivity].
    exfalso. apply attempt_D in Ea.
    destruct Ea as (x & aft & Ex & _ & _ & HD).
    unfold embedded_iso_re in HD. destruct HD as (caps1 & HD & _).
    apply iso_date_D in HD.
    assert (L : length pre <= length pre1).
    { apply (Hfirst pre1 x aft); [|exact HD].
      rewrite E, Ep, <- app_assoc, Ex. reflexivity. }
    rewrite Ep, length_app in L. destruct pre2; [contradiction|].
    cbn in L. lia. }
  unfold re_search. rewrite E.
  rewrite (search_from_first no_flags embedded_iso_re pre [] _ [] _ B F).
  cbn [option_map snd]. unfold group_str at 1 2 3.
  cbn [m_caps set_cap Nat.eqb]. unfold set_cap. cbn [Nat.eqb].
  rewrite <- E. unfold tokens in Hv. rewrite Hv. reflexivity.
Qed.

Lemma embedded_date_rule_witness :
  exists v,
    _last_numeric_token
      (tokens (strip (replace (py "2025-09-12") [] (py "Total 2025-09-12 5"))))
    = Return v /\
    parse_line (fun _ => Return NaT) (py "Total 2025-09-12 5") =
      Return (Some {| date_raw := py "2025-09-12";
                      date_parsed := _try_parse_date (fun _ => Return NaT)
                                       (py "2025-09-12");
                      rest := strip (replace (py "2025-09-12") []
                                       (py "Total 2025-09-12 5"));
                      IVT := v |}).
Proof.
  apply (embedded_date_rule (fun _ => Return NaT) (py "Total 2025-09-12 5")
           (py "Total ") (py "2025-09-12") (py " 5")).
  - reflexivity.
  - discriminate.
  - exists (py "25"), (py "09"), (py "12").
    split; [reflexivity|]. repeat split; cbn; lia.
  - intros a d' rest' E (y & mo & dd & -> & _).
    do 6 (destruct a as [|? a]; [cbn in E; discriminate E|]).
    cbn. lia.
  - intros (n & s & w & sp & more & E & (Hn & Hn1 & _) & _).
    destruct n as [|c n]; [simpl in Hn1; lia|].
    simpl in E. inversion E; subst. simpl in Hn. discriminate.
Defined.

(** ** The text of the document *)

Lemma split_nl_aux_last :
  forall l cur, no_nl l -> split_nl_aux cur l = [rev cur ++ l].
Proof.
  induction l as [|c l IH]; intros cur H; cbn [split_nl_aux].
  - now rewrite app_nil_r.
  - unfold no_nl in H. cbn [forallb] in H. apply andb_true_iff in H.
    destruct H as [Hc Hl]. apply negb_true_iff in Hc. rewrite Hc.
    rewrite (IH (c :: cur) Hl). cbn [rev]. now rewrite <- app_assoc.
Qed.

Lemma split_nl_join :
  forall ts t,
    Forall no_nl (t :: ts) -> split_nl (join_nl (t :: ts)) = t :: ts.
Proof.
  unfold split_nl. induction ts as [|t' ts IH]; intros t H.
  - inversion H; subst. cbn [join_nl]. now rewrite split_nl_aux_last.
  - inversion H; subst. change (join_nl (t :: t' :: ts))
      with (t ++ nl :: join_nl (t' :: ts)).
    rewrite split_nl_aux_line by assumption. cbn [rev List.app].
    f_equal. apply IH. assumption.
Qed.

(** X20: the pages can be read back from the extracted text: when no page text
    holds a line feed, the lines of the text are the page texts, with an
    empty line for every page whose extraction failed or gave nothing. *)
Theorem pages_are_lines :
  forall pages : list (outcome (option str)),
    pages <> [] ->
    Forall (fun p => no_nl (page_text p)) pages ->
    split_nl (extract_pdf_text pages) = map page_text pages.
Proof.
  intros pages Hne H. unfold extract_pdf_text.
  destruct pages as [|p pages]; [contradiction|]. cbn [map].
  apply split_nl_join. cbn [map] in *.
  change (Forall no_nl (map page_text (p :: pages))).
  apply Forall_map. exact H.
Qed.

Lemma pages_are_lines_witness :
  split_nl (extract_pdf_text
              [Return (Some (py "App one")); Raise OtherError; Return None;
               Return (Some (py "Total Data"))])
  = [py "App one"; []; []; py "Total Data"].
Proof.
  apply (pages_are_lines
           [Return (Some (py "App one")); Raise OtherError; Return None;
            Return (Some (py "Total Data"))]).
  - discriminate.
  - repeat constructor.
Defined.

(** * The last numeric token at the calls of the program *)

Lemma ws_nonempty :
  forall bef x aft caps caps',
    D no_flags ws_re bef x aft caps caps' -> x <> [].
Proof.
  intros bef x aft caps caps' [H _]. apply rep_plus in H. tauto.
Qed.

(** A piece of [re.split(r'\s+', s)] holds no whitespace. *)
Lemma split_tokens_no_space :
  forall s t c,
    In t (re_split no_flags ws_re s) -> In c t -> is_space c = false.
Proof.
  intros s t c Ht Hc.
  destruct (split_findall no_flags ws_re eq_refl ws_nonempty
              (S (length s)) [] s (Nat.lt_succ_diag_r _))
    as (p0 & ps & Hs & _ & _ & Hno & _).
  unfold re_split in Ht. rewrite Hs in Ht. specialize (Hno t Ht).
  destruct (is_space c) eqn:Esp; [exfalso|reflexivity].
  apply in_split in Hc. destruct Hc as (a & b & ->).
  unfold re_search in Hno.
  destruct (search_from no_flags ws_re [] (a ++ c :: b) []) as [[piece m]|] eqn:E;
    [discriminate|].
  pose proof (search_from_none _ _ _ _ _ E a (c :: b) eq_refl) as Ha.
  revert Ha. apply (D_attempt no_flags ws_re (rev a ++ []) [c] b no_caps).
  split; [|reflexivity]. apply rep_plus. split; [discriminate|].
  cbn [forallb atom_ok]. rewrite Esp. reflexivity.
Qed.

Lemma split_tokens_no_nl :
  forall s t, In t (re_split no_flags ws_re s) -> ~ In nl t.
Proof.
  intros s t Ht Hin.
  pose proof (split_tokens_no_space s t nl Ht Hin) as H.
  vm_compute in H. discriminate.
Qed.

(** C5: [_last_numeric_token] is total.  For every list of tokens it
    returns and never raises, and it never takes its failure branch: every
    token the pattern matches is accepted by [float].  The program calls it
    on the pieces of [re.split(r'\s+', ...)] (or on the empty list), which
    hold no line feed; on every list of tokens without a line feed, and so
    at every call of the program, the result is the float of the rightmost
    token that fully matches the numeric-literal grammar, or [None] when
    no token does. *)
Theorem last_numeric_token_total :
  forall tokens : list str,
    (exists r, _last_numeric_token tokens = Return r) /\
    (forall t m, re_match no_flags numeric_re t = Some m ->
                 exists v, py_float t = Return v) /\
    ((forall t, In t tokens -> ~ In nl t) ->
     rightmost_token_result numeric_literalb tokens) /\
    (forall s, rightmost_token_result numeric_literalb
                 (re_split no_flags ws_re s)).
Proof.
  intros tokens. split; [apply last_numeric_token_returns|].
  split; [apply float_of_matched_token|].
  split; [apply last_numeric_token_literal|].
  intros s. apply last_numeric_token_literal.
  intros t Ht. eapply split_tokens_no_nl; eauto.
Qed.

Lemma last_numeric_token_total_witness :
  rightmost_token_result numeric_literalb [py "foo"; py "-3.25"; py "bar"].
Proof.
  apply (last_numeric_token_total [py "foo"; py "-3.25"; py "bar"]).
  intros t Ht Hin. simpl in Ht.
  destruct Ht as [<-|[<-|[<-|[]]]]; vm_compute in Hin; intuition discriminate.
Defined.
